(** * rm2in2: the stylus-injection engine, embedded and verified

    Sources embedded here:
    - [test-output/analysis_coords.h]: the calibrated display-to-digitizer
      transform (module [Coords]);
    - [Rm2/src/inject.c]: the current LD_PRELOAD hook (module [Inject]);
    - [resources/old/rm2-inject-v4/src/inject_hook.c]: the v4 hook, the only
      variant with input suppression (module [InjectHook]).

    The build line in the sources targets [arm-linux-gnueabihf]: [int],
    [long], [size_t] and [ssize_t] are 32 bits wide and
    [sizeof(struct input_event)] is 16. *)

From Stdlib Require Import ZArith List String Ascii Bool Lia.
From stdpp Require Import base list.

Local Open Scope Z_scope.

(** ** C integers *)

(** Reduction of a mathematical integer to a signed 32-bit one. *)
Definition wrap (z : Z) : Z := (z + 2 ^ 31) mod 2 ^ 32 - 2 ^ 31.

Definition INT_MIN : Z := - 2 ^ 31.
Definition INT_MAX : Z := 2 ^ 31 - 1.
Definition SIZE_MAX : Z := 2 ^ 32 - 1.

Definition int_add (a b : Z) : Z := wrap (a + b).
Definition int_sub (a b : Z) : Z := wrap (a - b).
Definition int_mul (a b : Z) : Z := wrap (a * b).
(** C division truncates toward zero. *)
Definition int_div (a b : Z) : Z := wrap (a ÷ b).
Definition int_rem (a b : Z) : Z := Z.rem a b.

(** ** The calibrated transform of [analysis_coords.h] *)

Module Coords.

Definition DISPLAY_WIDTH : Z := 1404.
Definition DISPLAY_HEIGHT : Z := 1872.

Definition WACOM_HW_X_MAX : Z := 20966.
Definition WACOM_HW_Y_MAX : Z := 15725.

Definition WACOM_X_MIN : Z := 211.
Definition WACOM_X_MAX : Z := 20820.
Definition WACOM_Y_MIN : Z := 90.
Definition WACOM_Y_MAX : Z := 15712.

Definition WACOM_X_RANGE : Z := int_sub WACOM_X_MAX WACOM_X_MIN.
Definition WACOM_Y_RANGE : Z := int_sub WACOM_Y_MAX WACOM_Y_MIN.

Definition PRESSURE_MAX : Z := 4095.
Definition PRESSURE_DEFAULT : Z := 2000.

(** Raw X comes from display Y, inverted: subtracted from the raw maximum. *)
Definition display_to_wacom_x (display_y : Z) : Z :=
  int_sub WACOM_X_MAX (int_div (int_mul display_y WACOM_X_RANGE) DISPLAY_HEIGHT).

(** Raw Y comes from display X (the swapped axis). *)
Definition display_to_wacom_y (display_x : Z) : Z :=
  int_add WACOM_Y_MIN (int_div (int_mul display_x WACOM_Y_RANGE) DISPLAY_WIDTH).

Definition clamp_wacom_x (x : Z) : Z :=
  if x <? WACOM_X_MIN then WACOM_X_MIN
  else if x >? WACOM_X_MAX then WACOM_X_MAX
  else x.

Definition clamp_wacom_y (y : Z) : Z :=
  if y <? WACOM_Y_MIN then WACOM_Y_MIN
  else if y >? WACOM_Y_MAX then WACOM_Y_MAX
  else y.

(** The mapper of a display point: each header function is applied to the
    display axis its parameter names. *)
Definition map (displayX displayY : Z) : Z * Z :=
  (display_to_wacom_x displayY, display_to_wacom_y displayX).

End Coords.

(** ** C strings and the pieces of [sscanf] the hooks use *)

Definition NUL : ascii := "000"%char.
Definition NL : ascii := "010"%char.

(** The C string held in a byte buffer: everything before the first NUL. *)
Fixpoint cstr (bytes : string) : string :=
  match bytes with
  | EmptyString => EmptyString
  | String c rest => if Ascii.eqb c NUL then EmptyString else String c (cstr rest)
  end.

(** [isspace] in the C locale: space, and the controls 9..13. *)
Definition isspace (c : ascii) : bool :=
  let n := N_of_ascii c in
  (N.eqb n 32 || (N.leb 9 n && N.leb n 13))%bool.

Definition isdigit (c : ascii) : bool :=
  let n := N_of_ascii c in (N.leb 48 n && N.leb n 57)%bool.

Fixpoint skip_space (s : string) : string :=
  match s with
  | String c rest => if isspace c then skip_space rest else s
  | EmptyString => EmptyString
  end.

(** The longest prefix of characters satisfying [p], and what follows it. *)
Fixpoint span (p : ascii -> bool) (s : string) : string * string :=
  match s with
  | String c rest =>
      if p c then let (tok, tl) := span p rest in (String c tok, tl)
      else (EmptyString, s)
  | EmptyString => (EmptyString, EmptyString)
  end.

Definition digit_value (c : ascii) : Z := Z.of_N (N_of_ascii c) - 48.

Fixpoint decimal (acc : Z) (digits : string) : Z :=
  match digits with
  | EmptyString => acc
  | String c rest => decimal (10 * acc + digit_value c) rest
  end.

(** [strtol]'s saturation, which glibc's [%d] inherits. *)
Definition clamp_int (z : Z) : Z := Z.max INT_MIN (Z.min INT_MAX z).

(** One [%d] directive: skip white space, an optional sign, at least one
    decimal digit.  [None] is a matching (or input) failure. *)
Definition scan_int (s : string) : option (Z * string) :=
  let s1 := skip_space s in
  let '(negative, s2) :=
    match s1 with
    | String "-" r => (true, r)
    | String "+" r => (false, r)
    | _ => (false, s1)
    end in
  let (digits, rest) := span isdigit s2 in
  match digits with
  | EmptyString => None
  | _ =>
      let v := decimal 0 digits in
      Some (clamp_int (if negative then - v else v), rest)
  end.

(** What [sscanf(str, "%s %d %d", cmd, &x, &y)] leaves behind: its return
    value and the three destinations. *)
Record scanned := Scanned { matched : Z; cmd_out : string; x_out : Z; y_out : Z }.

(** [cmd_size] is the size of the [cmd] array; [cmd0], [x0], [y0] are the
    destinations' contents before the call.  [%s] carries no field width, so a
    token of [cmd_size] or more characters is written past the end of [cmd]:
    that undefined behaviour is the result [None]. *)
Definition sscanf_s_d_d (cmd_size : nat) (str : string) (cmd0 : string) (x0 y0 : Z)
  : option scanned :=
  let s1 := skip_space str in
  match s1 with
  | EmptyString => Some (Scanned (-1) cmd0 x0 y0)
  | _ =>
      let (tok, s2) := span (fun c => negb (isspace c)) s1 in
      if (cmd_size <=? String.length tok)%nat then None
      else
        match scan_int s2 with
        | None => Some (Scanned 1 tok x0 y0)
        | Some (xv, s3) =>
            match scan_int s3 with
            | None => Some (Scanned 2 tok xv y0)
            | Some (yv, _) => Some (Scanned 3 tok xv yv)
            end
        end
  end.

(** [strncmp(a, b, n) == 0] on C strings. *)
Definition strncmp_eq (a b : string) (n : nat) : bool :=
  String.eqb (substring 0 n a) (substring 0 n b).

(** [strstr(haystack, needle) != NULL]. *)
Fixpoint strstr (haystack needle : string) : bool :=
  (String.prefix needle haystack ||
   match haystack with
   | EmptyString => false
   | String _ rest => strstr rest needle
   end)%bool.

(** The complete lines of a buffer, in order, and the unterminated rest: what
    the repeated [strchr(line, '\n')] of the reader walks through. *)
Fixpoint split_lines (s : string) : list string * string :=
  match s with
  | EmptyString => ([], EmptyString)
  | String c rest =>
      if Ascii.eqb c NL then
        let (ls, frag) := split_lines rest in (EmptyString :: ls, frag)
      else
        match split_lines rest with
        | ([], frag) => ([], String c frag)
        | (l :: ls, frag) => (String c l :: ls, frag)
        end
  end.

(** ** Kernel input events *)

(** [struct input_event] of [<linux/input.h>]: the [struct timeval] (seconds,
    microseconds) and the three payload fields. *)
Record input_event := InputEvent {
  time : Z * Z; type : Z; code : Z; value : Z
}.

Definition sizeof_input_event : Z := 16.

(** Event codes of [<linux/input-event-codes.h>]. *)
Definition EV_SYN : Z := 0.
Definition EV_KEY : Z := 1.
Definition EV_ABS : Z := 3.
Definition SYN_REPORT : Z := 0.
Definition ABS_X : Z := 0.
Definition ABS_Y : Z := 1.
Definition ABS_PRESSURE : Z := 24.
Definition BTN_TOOL_PEN : Z := 320.
Definition BTN_TOUCH : Z := 330.

Definition zero_event : input_event := InputEvent (0, 0) 0 0 0.

#[global] Instance input_event_inhabited : Inhabited input_event := populate zero_event.

(** [memset] to zero, then the three fields ([__u16], [__u16], [__s32]). *)
Definition make_event (type code value : Z) : input_event :=
  InputEvent (0, 0) (type mod 2 ^ 16) (code mod 2 ^ 16) (wrap value).

(** The [width] low bytes of [z] as they lie in memory on the little-endian
    target, and the sixteen bytes of a record: the two [long] of the
    [struct timeval], [type], [code] and [value]. *)
Fixpoint le_bytes (width : nat) (z : Z) : string :=
  match width with
  | O => EmptyString
  | S w => String (ascii_of_N (Z.to_N (z mod 256))) (le_bytes w (z / 256))
  end.

Definition event_bytes (ev : input_event) : string :=
  (le_bytes 4 (fst (time ev)) ++ le_bytes 4 (snd (time ev)) ++
   le_bytes 2 (type ev) ++ le_bytes 2 (code ev) ++ le_bytes 4 (value ev))%string.

(** An array of records seen as the [char] array it occupies. *)
Fixpoint records_bytes (evs : list input_event) : string :=
  match evs with
  | [] => EmptyString
  | ev :: rest => (event_bytes ev ++ records_bytes rest)%string
  end.

(** What a call leaves observable outside the hook's own variables. *)
Inductive effect :=
| Stderr (format : string) (args : list Z)
| Usleep (usec : Z)
| Dlsym
| ThreadCreate
| OriginalRead (fd count : Z).

(** [struct timespec]. *)
Record timespec := Timespec { tv_sec : Z; tv_nsec : Z }.

(** The operating system as the hooks query it. *)
Record Env := {
  (** target of [/proc/self/fd/<fd>]; [None] when [readlink] returns -1 *)
  readlink : Z -> option string;
  (** device name; [None] when the [EVIOCGNAME] ioctl returns a negative value *)
  eviocgname : Z -> option string;
  (** the real [read]: its return value and the records it leaves in [buf] *)
  real_read : Z -> Z -> Z * list input_event
}.

(** ** [Rm2/src/inject.c] *)

Module Inject.

Definition FIFO_PATH : string := "/tmp/rm2_inject".
Definition MAX_QUEUE : Z := 10000.

Definition WACOM_MAX_X : Z := 20966.
Definition WACOM_MAX_Y : Z := 15725.

Definition DISPLAY_WIDTH : Z := 1404.
Definition DISPLAY_HEIGHT : Z := 1872.

Definition to_wacom_x (pen_x pen_y : Z) : Z :=
  int_sub WACOM_MAX_X (int_div (int_mul pen_y WACOM_MAX_X) DISPLAY_HEIGHT).

Definition to_wacom_y (pen_x pen_y : Z) : Z :=
  int_div (int_mul pen_x WACOM_MAX_Y) DISPLAY_WIDTH.

(** The hook's file-scope variables, and the effects performed so far (oldest
    first).  [original_read] is [false] while the pointer is [NULL]. *)
Record state := State {
  queue : list input_event;
  q_head : Z;
  q_tail : Z;
  original_read : bool;
  wacom_fd : Z;
  trace : list effect
}.

Definition init_state : state :=
  State (replicate (Z.to_nat MAX_QUEUE) zero_event) 0 0 false (-1) [].

Definition set_queue (q : list input_event) (s : state) : state :=
  State q (q_head s) (q_tail s) (original_read s) (wacom_fd s) (trace s).
Definition set_q_head (h : Z) (s : state) : state :=
  State (queue s) h (q_tail s) (original_read s) (wacom_fd s) (trace s).
Definition set_q_tail (t : Z) (s : state) : state :=
  State (queue s) (q_head s) t (original_read s) (wacom_fd s) (trace s).
Definition set_original_read (b : bool) (s : state) : state :=
  State (queue s) (q_head s) (q_tail s) b (wacom_fd s) (trace s).
Definition set_wacom_fd (fd : Z) (s : state) : state :=
  State (queue s) (q_head s) (q_tail s) (original_read s) fd (trace s).
Definition emit (e : effect) (s : state) : state :=
  State (queue s) (q_head s) (q_tail s) (original_read s) (wacom_fd s) (trace s ++ [e]).

Definition queue_full_warning : effect :=
  Stderr "[RM2] WARNING: Queue full, dropping event\n" [].

(** Each queue operation runs under [q_lock]; it is one atomic step here. *)
Definition enqueue (ev : input_event) (s : state) : state :=
  if negb (int_rem (int_add (q_tail s) 1) MAX_QUEUE =? q_head s) then
    set_q_tail (int_rem (int_add (q_tail s) 1) MAX_QUEUE)
      (set_queue (<[Z.to_nat (q_tail s) := ev]> (queue s)) s)
  else
    emit queue_full_warning s.

(** [None] is the return value 0; [Some ev] is 1 with [ev] stored in [*ev]. *)
Definition dequeue (s : state) : option input_event * state :=
  if q_head s =? q_tail s then (None, s)
  else
    (Some (queue s !!! Z.to_nat (q_head s)),
     set_q_head (int_rem (int_add (q_head s) 1) MAX_QUEUE) s).

Definition has_events (s : state) : bool := negb (q_head s =? q_tail s).

Definition is_wacom (env : Env) (fd : Z) : bool :=
  match readlink env fd with
  | None => false
  | Some target =>
      let link := substring 0 255 target in
      if negb (strncmp_eq link "/dev/input/event" 16) then false
      else
        match eviocgname env fd with
        | None => false
        | Some name => strstr name "Wacom"
        end
  end.

Definition pen_down (x y : Z) (s : state) : state :=
  let wx := to_wacom_x x y in
  let wy := to_wacom_y x y in
  let s :=
    if ((wx <? 0) || (wx >? WACOM_MAX_X) || (wy <? 0) || (wy >? WACOM_MAX_Y))%bool
    then emit (Stderr "[RM2] WARNING: Coordinates out of bounds: (%d, %d)\n" [wx; wy]) s
    else s in
  let s := enqueue (make_event EV_KEY BTN_TOOL_PEN 1) s in
  let s := enqueue (make_event EV_KEY BTN_TOUCH 1) s in
  let s := enqueue (make_event EV_ABS ABS_X wx) s in
  let s := enqueue (make_event EV_ABS ABS_Y wy) s in
  let s := enqueue (make_event EV_ABS ABS_PRESSURE 2000) s in
  enqueue (make_event EV_SYN SYN_REPORT 0) s.

Definition pen_move (x y : Z) (s : state) : state :=
  let wx := to_wacom_x x y in
  let wy := to_wacom_y x y in
  let s := enqueue (make_event EV_ABS ABS_X wx) s in
  let s := enqueue (make_event EV_ABS ABS_Y wy) s in
  let s := enqueue (make_event EV_ABS ABS_PRESSURE 2000) s in
  enqueue (make_event EV_SYN SYN_REPORT 0) s.

Definition pen_up (s : state) : state :=
  let s := enqueue (make_event EV_KEY BTN_TOUCH 0) s in
  let s := enqueue (make_event EV_KEY BTN_TOOL_PEN 0) s in
  enqueue (make_event EV_SYN SYN_REPORT 0) s.

Definition delay (x : Z) (s : state) : state :=
  let delay_ms := x in
  if ((delay_ms >? 0) && (delay_ms <=? 1000))%bool
  then emit (Usleep (int_mul delay_ms 1000)) s
  else s.

(** [fifo_reader] is given by its loop bodies, innermost first:
    [run_command] and [process_line] for one line, [process_chunk] for one
    chunk returned by the transport, and, after [read] below, which the
    reader calls for every chunk, [read_chunks] and [fifo_session] for one
    opening of the transport. *)

(** The [sscanf] and the [strcmp] chain run on one line ([cmd\[32\]],
    [x = 0], [y = 0]); [None] when [sscanf] overruns [cmd]. *)
Definition run_command (line : string) (s : state) : option state :=
  match sscanf_s_d_d 32 line EmptyString 0 0 with
  | None => None
  | Some sc =>
      let cmd := cmd_out sc in
      let x := x_out sc in
      let y := y_out sc in
      if matched sc >=? 1 then
        if String.eqb cmd "PEN_DOWN" then Some (pen_down x y s)
        else if String.eqb cmd "PEN_MOVE" then Some (pen_move x y s)
        else if String.eqb cmd "PEN_UP" then Some (pen_up s)
        else if String.eqb cmd "DELAY" then Some (delay x s)
        else Some s
      else Some s
  end.

(** One turn of the line loop: comments and empty lines are skipped before
    any parsing. *)
Definition process_line (line : string) (s : state) : option state :=
  match line with
  | EmptyString => Some s
  | String c _ => if Ascii.eqb c "#" then Some s else run_command line s
  end.

Fixpoint process_lines (lines : list string) (s : state) : option state :=
  match lines with
  | [] => Some s
  | line :: rest =>
      match process_line line s with
      | None => None
      | Some s' => process_lines rest s'
      end
  end.

(** The body of the inner [while] for one chunk returned by the transport:
    [buf] holds the [n <= 4095] bytes read, [leftover] the fragment kept from
    the previous chunk.  The result carries the new [leftover]. *)
Definition process_chunk (leftover buf : string) (s : state)
  : option (state * string) :=
  let combined := substring 0 (4096 + 256 - 1) (leftover ++ cstr buf)%string in
  let (lines, line) := split_lines combined in
  match process_lines lines s with
  | None => None
  | Some s' =>
      Some (s',
            if ((0 <? String.length line) && (String.length line <? 256))%nat
            then substring 0 255 line
            else EmptyString)
  end.

(** The drain loop of [read]: [n] is [max_events - injected]. *)
Fixpoint drain (n : nat) (s : state) : list input_event * state :=
  match n with
  | O => ([], s)
  | S n' =>
      match dequeue s with
      | (None, s') => ([], s')
      | (Some ev, s') => let (evs, s'') := drain n' s' in (ev :: evs, s'')
      end
  end.

(** The three blocks of the interposed [read] that do not touch the queue:
    the lazy [dlsym], the detection of the digitizer on a first read, and the
    call of the real [read]. *)
Definition resolve_original_read (s : state) : state :=
  if original_read s then s else emit Dlsym (set_original_read true s).

Definition detect_wacom (env : Env) (fd : Z) (s : state) : state :=
  if ((wacom_fd s =? -1) && is_wacom env fd)%bool then
    emit ThreadCreate
      (emit (Stderr "[RM2] Wacom device detected (fd %d)\n" [fd])
         (set_wacom_fd fd s))
  else s.

Definition call_original_read (env : Env) (fd count : Z) (s : state)
  : Z * list input_event * state :=
  let (result, data) := real_read env fd count in
  (result, data, emit (OriginalRead fd count) s).

(** The interposed [read].  The result is the return value, the records
    written to [buf], and the state after the call. *)
Definition read (env : Env) (fd count : Z) (s : state)
  : Z * list input_event * state :=
  let s := resolve_original_read s in
  let s := detect_wacom env fd s in
  if ((fd =? wacom_fd s) && has_events s)%bool then
    let max_events := wrap (count / sizeof_input_event) in
    let (events, s') := drain (Z.to_nat max_events) s in
    let injected := Z.of_nat (length events) in
    if injected >? 0 then (wrap (injected * sizeof_input_event), events, s')
    else call_original_read env fd count s'
  else call_original_read env fd count s.

(** The same [read] for a caller with another view of [buf]: [real] is what
    the real [read] returns and leaves in the buffer in that view, [pack] how
    records stored by the hook appear in it.  [read] above is the instance
    for a caller that reads records. *)
Definition read_as {B : Type} (pack : list input_event -> B) (real : Z * B)
    (env : Env) (fd count : Z) (s : state) : Z * B * state :=
  let s := resolve_original_read s in
  let s := detect_wacom env fd s in
  if ((fd =? wacom_fd s) && has_events s)%bool then
    let max_events := wrap (count / sizeof_input_event) in
    let (events, s') := drain (Z.to_nat max_events) s in
    let injected := Z.of_nat (length events) in
    if injected >? 0 then (wrap (injected * sizeof_input_event), pack events, s')
    else (fst real, snd real, emit (OriginalRead fd count) s')
  else (fst real, snd real, emit (OriginalRead fd count) s).

(** The inner [while] of [fifo_reader] for one opening of the transport, on
    descriptor [fd].  Every turn fetches a chunk with [read], which inside
    the library is the interposed [read]: the call goes through the hook like
    any other and reaches the real [read] from there.  [chunks] gives, turn by
    turn, what the real [read] delivers on the transport when the hook
    reaches it, at most 4095 bytes, its return value being their number; an
    empty chunk stands for end of file or an error.  When the hook hands out
    queued records instead, the reader sees them as bytes.  The loop ends at
    the first fetch that returns nothing; a list that runs out before that is
    a session observed up to there.  [leftover] starts empty at every
    opening. *)
Fixpoint read_chunks (env : Env) (fd : Z) (chunks : list string) (leftover : string)
    (s : state) : option (state * string) :=
  match chunks with
  | [] => Some (s, leftover)
  | chunk :: rest =>
      let '(n, buf, s1) :=
        read_as records_bytes (Z.of_nat (String.length chunk), chunk)
          env fd (4096 - 1) s in
      if n >? 0 then
        match process_chunk leftover buf s1 with
        | None => None
        | Some (s2, leftover') => read_chunks env fd rest leftover' s2
        end
      else Some (s1, leftover)
  end.

Definition fifo_session (env : Env) (fd : Z) (chunks : list string) (s : state)
  : option state :=
  match read_chunks env fd chunks EmptyString s with
  | None => None
  | Some (s', _) => Some s'
  end.

End Inject.

(** ** [resources/old/rm2-inject-v4/src/inject_hook.c] *)

Module InjectHook.

Definition WACOM_MAX_X : Z := 15725.
Definition WACOM_MAX_Y : Z := 20967.
Definition RM2_WIDTH : Z := 1404.
Definition RM2_HEIGHT : Z := 1872.

(** The product and quotient are computed in [long], which is as wide as
    [int] on the target. *)
Definition display_to_wacom_x (display_x : Z) : Z :=
  wrap (int_div (int_mul display_x WACOM_MAX_Y) RM2_WIDTH).

Definition display_to_wacom_y (display_y : Z) : Z :=
  wrap (int_div (int_mul display_y WACOM_MAX_X) RM2_HEIGHT).

Definition MAX_QUEUE_SIZE : Z := 10000.
Definition INJECT_FIFO : string := "/tmp/lamp_inject".
Definition SUPPRESSION_MS : Z := 150.

Record state := State {
  original_read : bool;
  wacom_fd : Z;
  last_pen_x : Z;
  last_pen_y : Z;
  event_queue : list input_event;
  queue_head : Z;
  queue_tail : Z;
  last_injection_time : timespec;
  suppress_input : Z;
  trace : list effect
}.

Definition init_state : state :=
  State false (-1) 0 0 (replicate (Z.to_nat MAX_QUEUE_SIZE) zero_event) 0 0
    (Timespec 0 0) 0 [].

Definition set_original_read (b : bool) (s : state) : state :=
  State b (wacom_fd s) (last_pen_x s) (last_pen_y s) (event_queue s)
    (queue_head s) (queue_tail s) (last_injection_time s) (suppress_input s) (trace s).
Definition set_wacom_fd (fd : Z) (s : state) : state :=
  State (original_read s) fd (last_pen_x s) (last_pen_y s) (event_queue s)
    (queue_head s) (queue_tail s) (last_injection_time s) (suppress_input s) (trace s).
Definition set_last_pen_x (v : Z) (s : state) : state :=
  State (original_read s) (wacom_fd s) v (last_pen_y s) (event_queue s)
    (queue_head s) (queue_tail s) (last_injection_time s) (suppress_input s) (trace s).
Definition set_last_pen_y (v : Z) (s : state) : state :=
  State (original_read s) (wacom_fd s) (last_pen_x s) v (event_queue s)
    (queue_head s) (queue_tail s) (last_injection_time s) (suppress_input s) (trace s).
Definition set_event_queue (q : list input_event) (s : state) : state :=
  State (original_read s) (wacom_fd s) (last_pen_x s) (last_pen_y s) q
    (queue_head s) (queue_tail s) (last_injection_time s) (suppress_input s) (trace s).
Definition set_queue_head (h : Z) (s : state) : state :=
  State (original_read s) (wacom_fd s) (last_pen_x s) (last_pen_y s) (event_queue s)
    h (queue_tail s) (last_injection_time s) (suppress_input s) (trace s).
Definition set_queue_tail (t : Z) (s : state) : state :=
  State (original_read s) (wacom_fd s) (last_pen_x s) (last_pen_y s) (event_queue s)
    (queue_head s) t (last_injection_time s) (suppress_input s) (trace s).
Definition set_last_injection_time (ts : timespec) (s : state) : state :=
  State (original_read s) (wacom_fd s) (last_pen_x s) (last_pen_y s) (event_queue s)
    (queue_head s) (queue_tail s) ts (suppress_input s) (trace s).
Definition set_suppress_input (v : Z) (s : state) : state :=
  State (original_read s) (wacom_fd s) (last_pen_x s) (last_pen_y s) (event_queue s)
    (queue_head s) (queue_tail s) (last_injection_time s) v (trace s).
Definition emit (e : effect) (s : state) : state :=
  State (original_read s) (wacom_fd s) (last_pen_x s) (last_pen_y s) (event_queue s)
    (queue_head s) (queue_tail s) (last_injection_time s) (suppress_input s)
    (trace s ++ [e]).

(** [get_current_time] stores the monotonic clock's reading; the reading is
    an argument of every function that may ask for it. *)
Definition timediff_ms (start end_ : timespec) : Z :=
  int_add (int_mul (int_sub (tv_sec end_) (tv_sec start)) 1000)
          (int_div (int_sub (tv_nsec end_) (tv_nsec start)) 1000000).

Definition is_wacom_device (env : Env) (fd : Z) : bool :=
  match readlink env fd with
  | None => false
  | Some target =>
      let link := substring 0 255 target in
      if negb (strncmp_eq link "/dev/input/event" 16) then false
      else
        match eviocgname env fd with
        | None => false
        | Some name => strstr name "Wacom"
        end
  end.

Definition queue_full_warning : effect :=
  Stderr "[INJECT] Queue full, dropping event\n" [].

Definition queue_event (ev : input_event) (s : state) : state :=
  if int_rem (int_add (queue_tail s) 1) MAX_QUEUE_SIZE =? queue_head s then
    emit queue_full_warning s
  else
    set_queue_tail (int_rem (int_add (queue_tail s) 1) MAX_QUEUE_SIZE)
      (set_event_queue (<[Z.to_nat (queue_tail s) := ev]> (event_queue s)) s).

Definition queue_has_events (s : state) : bool :=
  negb (queue_head s =? queue_tail s).

Definition dequeue_event (s : state) : option input_event * state :=
  if queue_head s =? queue_tail s then (None, s)
  else
    (Some (event_queue s !!! Z.to_nat (queue_head s)),
     set_queue_head (int_rem (int_add (queue_head s) 1) MAX_QUEUE_SIZE) s).

Definition track_event (s : state) (ev : input_event) : state :=
  if type ev =? EV_ABS then
    if code ev =? ABS_X then set_last_pen_x (value ev) s
    else if code ev =? ABS_Y then set_last_pen_y (value ev) s
    else s
  else s.

Definition track_stylus_position (events : list input_event) (count : Z) (s : state)
  : state :=
  fold_left track_event (take (Z.to_nat count) events) s.

(** The suppression controller's two states, read off [suppress_input]. *)
Inductive suppression := Quiet | Suppressing.

Definition suppression_state (s : state) : suppression :=
  if suppress_input s =? 0 then Quiet else Suppressing.

Definition pen_down (now : timespec) (x y : Z) (s : state) : state :=
  let wacom_x := display_to_wacom_x x in
  let wacom_y := display_to_wacom_y y in
  let s := queue_event (make_event EV_KEY BTN_TOOL_PEN 1) s in
  let s := queue_event (make_event EV_KEY BTN_TOUCH 1) s in
  let s := queue_event (make_event EV_ABS ABS_X wacom_x) s in
  let s := queue_event (make_event EV_ABS ABS_Y wacom_y) s in
  let s := queue_event (make_event EV_ABS ABS_PRESSURE 2000) s in
  let s := queue_event (make_event EV_SYN SYN_REPORT 0) s in
  let s := set_last_injection_time now s in
  set_suppress_input 1 s.

Definition pen_move (x y : Z) (s : state) : state :=
  let wacom_x := display_to_wacom_x x in
  let wacom_y := display_to_wacom_y y in
  let s := queue_event (make_event EV_ABS ABS_X wacom_x) s in
  let s := queue_event (make_event EV_ABS ABS_Y wacom_y) s in
  let s := queue_event (make_event EV_ABS ABS_PRESSURE 2000) s in
  queue_event (make_event EV_SYN SYN_REPORT 0) s.

Definition pen_up (now : timespec) (s : state) : state :=
  let s := queue_event (make_event EV_KEY BTN_TOUCH 0) s in
  let s := queue_event (make_event EV_KEY BTN_TOOL_PEN 0) s in
  let s := queue_event (make_event EV_SYN SYN_REPORT 0) s in
  set_last_injection_time now s.

Definition get_cursor (s : state) : state :=
  emit (Stderr "[INJECT] Wacom cursor: X=%d Y=%d\n" [last_pen_x s; last_pen_y s]) s.

(** One turn of the inner loop of [fifo_reader_thread]: a single [sscanf]
    over the whole chunk.  [x0] and [y0] are whatever the uninitialised [x] and [y] hold;
    [now] is the clock's reading should the command ask for it; [None] when
    [sscanf] overruns [cmd\[32\]]. *)
Definition process_buf (now : timespec) (x0 y0 : Z) (buf : string) (s : state)
  : option state :=
  match sscanf_s_d_d 32 (cstr buf) EmptyString x0 y0 with
  | None => None
  | Some sc =>
      let cmd := cmd_out sc in
      let x := x_out sc in
      let y := y_out sc in
      if matched sc >=? 1 then
        if String.eqb cmd "PEN_DOWN" then Some (pen_down now x y s)
        else if String.eqb cmd "PEN_MOVE" then Some (pen_move x y s)
        else if String.eqb cmd "PEN_UP" then Some (pen_up now s)
        else if String.eqb cmd "GET_CURSOR" then Some (get_cursor s)
        else Some s
      else Some s
  end.

Fixpoint drain (n : nat) (s : state) : list input_event * state :=
  match n with
  | O => ([], s)
  | S n' =>
      match dequeue_event s with
      | (None, s') => ([], s')
      | (Some ev, s') => let (evs, s'') := drain n' s' in (ev :: evs, s'')
      end
  end.

Definition resolve_original_read (s : state) : state :=
  if original_read s then s else emit Dlsym (set_original_read true s).

Definition detect_wacom (env : Env) (fd : Z) (s : state) : state :=
  if ((wacom_fd s =? -1) && is_wacom_device env fd)%bool then
    emit ThreadCreate
      (emit (Stderr "[INJECT] Wacom device detected (fd %d)\n" [fd])
         (set_wacom_fd fd s))
  else s.

(** The call of the real [read] and what follows it: suppression and
    tracking.  [now] is the clock's reading should the suppression check ask
    for it. *)
Definition genuine_read (env : Env) (now : timespec) (fd count : Z) (s : state)
  : Z * list input_event * state :=
  let (result, data) := real_read env fd count in
  let s := emit (OriginalRead fd count) s in
  if ((fd =? wacom_fd s) && (result >? 0))%bool then
    let track (s : state) :=
      let event_count := wrap (result / sizeof_input_event) in
      (result, data, track_stylus_position data event_count s) in
    if negb (suppress_input s =? 0) then
      if timediff_ms (last_injection_time s) now >? SUPPRESSION_MS then
        track (set_suppress_input 0 s)
      else
        (0, data, s)
    else track s
  else (result, data, s).

(** The interposed [read]. *)
Definition read (env : Env) (now : timespec) (fd count : Z) (s : state)
  : Z * list input_event * state :=
  let s := resolve_original_read s in
  let s := detect_wacom env fd s in
  if ((fd =? wacom_fd s) && queue_has_events s)%bool then
    let max_events := wrap (count / sizeof_input_event) in
    let (events, s') := drain (Z.to_nat max_events) s in
    let injected := Z.of_nat (length events) in
    if injected >? 0 then (wrap (injected * sizeof_input_event), events, s')
    else genuine_read env now fd count s'
  else genuine_read env now fd count s.

End InjectHook.

(** * Specification vocabulary

    What the statements below are written with: the list of events a ring
    stores, runs of queue operations, the FIFO law, and the concrete tablets
    and lines used as examples. *)

(** ** The ring of slots, seen as the list of events it stores *)

Section RingView.

Variable cap : Z.

(** Slots, head and tail as the hooks keep them. *)
Definition ring_ok (slots : list input_event) (head tail : Z) : Prop :=
  length slots = Z.to_nat cap /\ 0 <= head < cap /\ 0 <= tail < cap.

Definition stored_count (head tail : Z) : Z := (tail - head) mod cap.

(** The stored events, oldest first: slots [head], [head + 1], ... up to but
    not including [tail], indices taken modulo [cap]. *)
Definition stored_events (slots : list input_event) (head tail : Z)
  : list input_event :=
  List.map (fun i => slots !!! Z.to_nat ((head + Z.of_nat i) mod cap))
    (seq 0 (Z.to_nat (stored_count head tail))).

End RingView.

(** ** Runs of queue operations and the FIFO law *)

Inductive queue_op := Enq (ev : input_event) | Deq.

Fixpoint count_enq (ops : list queue_op) : Z :=
  match ops with
  | [] => 0
  | Enq _ :: rest => 1 + count_enq rest
  | Deq :: rest => count_enq rest
  end.

(** The FIFO law: an unbounded first-in first-out list, each [Deq] answering
    with the oldest element, or [None] when there is none. *)
Fixpoint fifo_spec (ops : list queue_op) (q : list input_event)
  : list (option input_event) * list input_event :=
  match ops with
  | [] => ([], q)
  | Enq ev :: rest => fifo_spec rest (q ++ [ev])
  | Deq :: rest =>
      match q with
      | [] => let (outs, q') := fifo_spec rest [] in (None :: outs, q')
      | ev :: q0 => let (outs, q') := fifo_spec rest q0 in (Some ev :: outs, q')
      end
  end.

(** Events told apart by their value, for bursts. *)
Definition numbered (n : nat) : list input_event :=
  List.map (fun i => make_event EV_ABS ABS_X (Z.of_nat i)) (seq 0 n).

Section InjectView.

Import Inject.

Definition stored (s : state) : list input_event :=
  stored_events MAX_QUEUE (queue s) (q_head s) (q_tail s).

Definition queue_ok (s : state) : Prop :=
  ring_ok MAX_QUEUE (queue s) (q_head s) (q_tail s).

(** The test of [enqueue] that sends it to the dropping branch. *)
Definition queue_is_full (s : state) : bool :=
  int_rem (int_add (q_tail s) 1) MAX_QUEUE =? q_head s.

Fixpoint enqueue_all (evs : list input_event) (s : state) : state :=
  match evs with
  | [] => s
  | ev :: rest => enqueue_all rest (enqueue ev s)
  end.

(** A run of the two queue operations, with what every [dequeue] returned. *)
Fixpoint run_ops (ops : list queue_op) (s : state)
  : list (option input_event) * state :=
  match ops with
  | [] => ([], s)
  | Enq ev :: rest => run_ops rest (enqueue ev s)
  | Deq :: rest =>
      let (r, s') := dequeue s in
      let (outs, s'') := run_ops rest s' in (r :: outs, s'')
  end.

(** The queue as the code has it: the FIFO list, except that an [Enq] onto
    [MAX_QUEUE - 1] stored events changes nothing. *)
Fixpoint ring_spec (ops : list queue_op) (q : list input_event)
  : list (option input_event) * list input_event :=
  match ops with
  | [] => ([], q)
  | Enq ev :: rest =>
      ring_spec rest
        (if Z.of_nat (length q) <? MAX_QUEUE - 1 then q ++ [ev] else q)
  | Deq :: rest =>
      match q with
      | [] => let (outs, q') := ring_spec rest [] in (None :: outs, q')
      | ev :: q0 => let (outs, q') := ring_spec rest q0 in (Some ev :: outs, q')
      end
  end.

(** Ten thousand numbered events pushed onto the untouched queue, then ten
    thousand [dequeue]: the code's answers against the FIFO law's. *)
Definition burst_then_drain : list queue_op :=
  List.map Enq (numbered (Z.to_nat MAX_QUEUE)) ++ repeat Deq (Z.to_nat MAX_QUEUE).

(** A queue holding [MAX_QUEUE - 1] events: head at slot 1, tail at slot 0. *)
Definition full_state : state :=
  State (replicate (Z.to_nat MAX_QUEUE) zero_event) 1 0 true 3 [].

(** A succession of calls of [read], each given by its handle and count. *)
Fixpoint run_reads (env : Env) (calls : list (Z * Z)) (s : state) : state :=
  match calls with
  | [] => s
  | (fd, count) :: rest => run_reads env rest (snd (read env fd count s))
  end.

End InjectView.

Section HookView.

Import InjectHook.

Definition hook_stored (s : state) : list input_event :=
  stored_events MAX_QUEUE_SIZE (event_queue s) (queue_head s) (queue_tail s).

Definition hook_queue_ok (s : state) : Prop :=
  ring_ok MAX_QUEUE_SIZE (event_queue s) (queue_head s) (queue_tail s).

(** The test of [queue_event] that sends it to the dropping branch. *)
Definition hook_is_full (s : state) : bool :=
  int_rem (int_add (queue_tail s) 1) MAX_QUEUE_SIZE =? queue_head s.

Fixpoint queue_events (evs : list input_event) (s : state) : state :=
  match evs with
  | [] => s
  | ev :: rest => queue_events rest (queue_event ev s)
  end.

(** What a genuine read leaves alone: the queue. *)
Definition same_queue (s s' : state) : Prop :=
  event_queue s' = event_queue s /\ queue_head s' = queue_head s /\
  queue_tail s' = queue_tail s.

(** [PEN_DOWN 10 20] at time 100 s, its six events then drained by one read. *)
Definition after_pen_down (env : Env) : state :=
  let t0 := Timespec 100 0 in
  snd (read env t0 3 96 (pen_down t0 10 20 (set_wacom_fd 3 init_state))).

End HookView.

(** ** The injection path, example tablets and lines *)

(** What a successful drain hands back: with [before] the events stored at
    the call, the [k] oldest of them, [k] being the lesser of
    [count / sizeof(struct input_event)] and the number stored; [k] records'
    worth of bytes returned; the rest still stored, in order. *)
Definition drained (before : list input_event) (count ret : Z)
    (buf after : list input_event) : Prop :=
  let k := Nat.min (Z.to_nat (count / sizeof_input_event)) (length before) in
  (0 < k)%nat /\
  buf = take k before /\
  after = drop k before /\
  ret = Z.of_nat k * sizeof_input_event.

Definition is_original_read (e : effect) : bool :=
  match e with OriginalRead _ _ => true | _ => false end.

(** The effects a call added to the trace. *)
Definition new_effects (before after : list effect) : list effect :=
  skipn (length before) after.

(** A tablet whose handle 3 is the digitizer, and whose real [read] has
    nothing to deliver. *)
Definition tablet : Env :=
  Build_Env
    (fun fd => if fd =? 3 then Some "/dev/input/event1"%string else None)
    (fun fd => if fd =? 3 then Some "Wacom I2C Digitizer"%string else None)
    (fun _ _ => (-1, [])).

Definition stylus_sample : list input_event :=
  [InputEvent (100, 5) EV_ABS ABS_X 5000; InputEvent (100, 5) EV_ABS ABS_Y 6000].

(** The same tablet with the stylus on the glass: the real [read] delivers
    two records. *)
Definition pen_tablet : Env :=
  Build_Env (readlink tablet) (eviocgname tablet) (fun _ _ => (32, stylus_sample)).

(** A text line as the transport delivers it: terminated by a newline. *)
Definition terminated (line : string) : string :=
  (line ++ String NL EmptyString)%string.

(** The first white-space delimited token of a line, which [%s] stores in
    [cmd], and what follows it, which the two [%d] read. *)
Definition keyword (line : string) : string :=
  fst (span (fun c => negb (isspace c)) (skip_space line)).

Definition arguments (line : string) : string :=
  snd (span (fun c => negb (isspace c)) (skip_space line)).

Definition inject_keywords : list string :=
  ["PEN_DOWN"; "PEN_MOVE"; "PEN_UP"; "DELAY"]%string.

Definition hook_keywords : list string :=
  ["PEN_DOWN"; "PEN_MOVE"; "PEN_UP"; "GET_CURSOR"]%string.

(** What [x] and [y] hold after the [sscanf] of a line with a keyword: the
    value of each argument that is converted, and [x0], [y0], what they held
    before, for one that is not (the second is not tried when the first
    fails). *)
Definition converted_x (line : string) (x0 : Z) : Z :=
  match scan_int (arguments line) with
  | Some (xv, _) => xv
  | None => x0
  end.

Definition converted_y (line : string) (y0 : Z) : Z :=
  match scan_int (arguments line) with
  | Some (_, rest) =>
      match scan_int rest with
      | Some (yv, _) => yv
      | None => y0
      end
  | None => y0
  end.

Fixpoint mem_char (c : ascii) (s : string) : bool :=
  match s with
  | EmptyString => false
  | String d rest => (Ascii.eqb d c || mem_char c rest)%bool
  end.


(** ** Gestures *)

(** The records of the three gestures, in the order the hooks queue them. *)
Definition pen_down_events (wx wy : Z) : list input_event :=
  [make_event EV_KEY BTN_TOOL_PEN 1; make_event EV_KEY BTN_TOUCH 1;
   make_event EV_ABS ABS_X wx; make_event EV_ABS ABS_Y wy;
   make_event EV_ABS ABS_PRESSURE 2000; make_event EV_SYN SYN_REPORT 0].

Definition pen_move_events (wx wy : Z) : list input_event :=
  [make_event EV_ABS ABS_X wx; make_event EV_ABS ABS_Y wy;
   make_event EV_ABS ABS_PRESSURE 2000; make_event EV_SYN SYN_REPORT 0].

Definition pen_up_events : list input_event :=
  [make_event EV_KEY BTN_TOUCH 0; make_event EV_KEY BTN_TOOL_PEN 0;
   make_event EV_SYN SYN_REPORT 0].

(** The number of events a queue storing [n] can still take. *)
Definition free_slots (capacity : Z) (n : nat) : nat :=
  (Z.to_nat (capacity - 1) - n)%nat.

(** The number of reader threads a trace shows being started. *)
Definition is_thread_create (e : effect) : bool :=
  match e with ThreadCreate => true | _ => false end.

Definition thread_creations (t : list effect) : nat :=
  length (List.filter is_thread_create t).

(** Complete lines written one after the other, each with its newline. *)
Fixpoint join_lines (lines : list string) : string :=
  match lines with
  | [] => EmptyString
  | line :: rest => (line ++ String NL (join_lines rest))%string
  end.

(** ** What the command reader may do *)

(** The effects the command reader is expected to have: messages on the
    error stream, sleeps of at most one second, and its own fetches, the real
    [read] of its descriptor [fd] for 4095 bytes. *)
Definition channel_effect (fd : Z) (e : effect) : bool :=
  match e with
  | Stderr _ _ => true
  | Usleep usec => (0 <? usec) && (usec <=? 1000000)
  | OriginalRead fd' count => (fd' =? fd) && (count =? 4096 - 1)
  | _ => false
  end.

(** [s'] differs from [s] by the queue and by such effects only. *)
Definition channel_only (fd : Z) (s s' : Inject.state) : Prop :=
  Inject.wacom_fd s' = Inject.wacom_fd s /\
  Inject.original_read s' = Inject.original_read s /\
  exists t, Inject.trace s' = Inject.trace s ++ t /\ forallb (channel_effect fd) t = true.

(** ** Stylus tracking *)

(** The values of the [EV_ABS] records of axis [c], in order. *)
Definition abs_values (c : Z) (events : list input_event) : list Z :=
  List.map value (List.filter (fun ev => (type ev =? EV_ABS) && (code ev =? c)) events).

(** ** Well-formed command lines *)

Fixpoint all_chars (p : ascii -> bool) (s : string) : bool :=
  match s with
  | EmptyString => true
  | String c rest => (p c && all_chars p rest)%bool
  end.

(** A keyword and two decimal fields, separated by single spaces. *)
Definition command_line (kw dx dy : string) : string :=
  (kw ++ String " " (dx ++ String " " dy))%string.

(** The [int] a field of decimal digits is converted to. *)
Definition number (digits : string) : Z := clamp_int (decimal 0 digits).

(** A field of characters satisfying [p] ends where [rest] starts. *)
Definition field_end (p : ascii -> bool) (rest : string) : bool :=
  match rest with
  | EmptyString => true
  | String c _ => negb (p c)
  end.

(** ** The reader's fragment and states that differ by effects only *)



(** The number of fetches of a session: one per chunk, up to and including
    the first that returns nothing. *)
Fixpoint fetches (chunks : list string) : nat :=
  match chunks with
  | [] => O
  | chunk :: rest =>
      match chunk with
      | EmptyString => 1%nat
      | _ => S (fetches rest)
      end
  end.

(** [s] after [k] calls of the real [read] by the reader and nothing else. *)
Definition reader_reads (fd : Z) (k : nat) (s : Inject.state) : Inject.state :=
  Inject.State (Inject.queue s) (Inject.q_head s) (Inject.q_tail s)
    (Inject.original_read s) (Inject.wacom_fd s)
    (Inject.trace s ++ repeat (OriginalRead fd (4096 - 1)) k).

(** * Proofs *)

(** ** C integers *)

Lemma wrap_small z : INT_MIN <= z <= INT_MAX -> wrap z = z.
Proof.
  unfold wrap, INT_MIN, INT_MAX. intros H.
  rewrite Z.mod_small by lia. lia.
Qed.

Lemma mod_once a n : 0 <= a < 2 * n -> a mod n = if a <? n then a else a - n.
Proof.
  intros H. destruct (Z.ltb_spec a n).
  - apply Z.mod_small. lia.
  - symmetry. apply Z.mod_unique_pos with (q := 1); lia.
Qed.

Lemma mod_diff a n : - n <= a < n -> a mod n = if 0 <=? a then a else a + n.
Proof.
  intros H. destruct (Z.leb_spec 0 a).
  - apply Z.mod_small. lia.
  - symmetry. apply Z.mod_unique_pos with (q := -1); lia.
Qed.

(** The index step [(i + 1) % cap] of both queues, free of overflow. *)
Lemma next_index i cap :
  0 <= i < cap -> cap <= INT_MAX ->
  int_rem (int_add i 1) cap = (i + 1) mod cap.
Proof.
  intros Hi Hc. unfold int_rem, int_add.
  rewrite wrap_small by (unfold INT_MIN, INT_MAX in *; lia).
  apply Z.rem_mod_nonneg; lia.
Qed.

(** ** The ring of slots, seen as the list of events it stores *)

Section Ring.

Variable cap : Z.
Hypothesis cap_pos : 1 < cap.

Lemma stored_count_range head tail : 0 <= stored_count cap head tail <= cap - 1.
Proof using cap_pos.
  unfold stored_count.
  pose proof (Z.mod_pos_bound (tail - head) cap ltac:(lia)). lia.
Qed.

Lemma stored_length slots head tail :
  Z.of_nat (length (stored_events cap slots head tail)) = stored_count cap head tail.
Proof using cap_pos.
  unfold stored_events. rewrite length_map, length_seq.
  pose proof (stored_count_range head tail). lia.
Qed.

Lemma stored_count_empty head tail :
  0 <= head < cap -> 0 <= tail < cap ->
  (stored_count cap head tail = 0 <-> head = tail).
Proof using cap_pos.
  intros Hh Ht. unfold stored_count. rewrite mod_diff by lia.
  destruct (Z.leb_spec 0 (tail - head)); lia.
Qed.

Lemma stored_count_full head tail :
  0 <= head < cap -> 0 <= tail < cap ->
  (stored_count cap head tail = cap - 1 <-> (tail + 1) mod cap = head).
Proof using cap_pos.
  intros Hh Ht. unfold stored_count. rewrite mod_diff by lia.
  rewrite (mod_once (tail + 1)) by lia.
  destruct (Z.leb_spec 0 (tail - head)), (Z.ltb_spec (tail + 1) cap); lia.
Qed.

Lemma stored_count_push head tail :
  0 <= head < cap -> 0 <= tail < cap -> (tail + 1) mod cap <> head ->
  stored_count cap head ((tail + 1) mod cap) = stored_count cap head tail + 1.
Proof using cap_pos.
  intros Hh Ht. unfold stored_count.
  rewrite (mod_once (tail + 1)) by lia.
  destruct (Z.ltb_spec (tail + 1) cap); intros Hne;
    rewrite !mod_diff by lia;
    repeat match goal with |- context [?a <=? ?b] => destruct (Z.leb_spec a b) end; lia.
Qed.

Lemma stored_count_pop head tail :
  0 <= head < cap -> 0 <= tail < cap -> head <> tail ->
  stored_count cap ((head + 1) mod cap) tail = stored_count cap head tail - 1.
Proof using cap_pos.
  intros Hh Ht Hne. unfold stored_count.
  rewrite (mod_once (head + 1)) by lia.
  destruct (Z.ltb_spec (head + 1) cap);
    rewrite !mod_diff by lia;
    repeat match goal with |- context [?a <=? ?b] => destruct (Z.leb_spec a b) end; lia.
Qed.

(** Slot [head + i] is the tail slot only for [i = stored_count]. *)
Lemma stored_index_tail head tail i :
  0 <= head < cap -> 0 <= tail < cap -> 0 <= i < cap ->
  ((head + i) mod cap = tail <-> i = stored_count cap head tail).
Proof using cap_pos.
  intros Hh Ht Hi. unfold stored_count.
  rewrite (mod_once (head + i)) by lia. rewrite mod_diff by lia.
  destruct (Z.ltb_spec (head + i) cap), (Z.leb_spec 0 (tail - head)); lia.
Qed.

(** Writing the tail slot and stepping the tail appends to the stored list. *)
Lemma stored_push slots head tail ev :
  ring_ok cap slots head tail -> (tail + 1) mod cap <> head ->
  stored_events cap (<[Z.to_nat tail := ev]> slots) head ((tail + 1) mod cap)
  = stored_events cap slots head tail ++ [ev].
Proof using cap_pos.
  intros (Hlen & Hh & Ht) Hne. unfold stored_events.
  rewrite stored_count_push by assumption.
  pose proof (stored_count_range head tail) as Hc.
  replace (Z.to_nat (stored_count cap head tail + 1))
    with (S (Z.to_nat (stored_count cap head tail))) by lia.
  rewrite seq_S, map_app. simpl. f_equal.
  - apply map_ext_in. intros i Hi. apply in_seq in Hi.
    apply list_lookup_total_insert_ne.
    intros Heq. apply Z2Nat.inj in Heq; try lia.
    + symmetry in Heq. apply stored_index_tail in Heq; lia.
    + apply Z.mod_pos_bound. lia.
  - f_equal.
    replace ((head + Z.of_nat (Z.to_nat (stored_count cap head tail))) mod cap) with tail.
    + apply list_lookup_total_insert_eq. lia.
    + symmetry. apply stored_index_tail; lia.
Qed.

(** The head slot is the oldest stored event; stepping the head drops it. *)
Lemma stored_pop slots head tail :
  ring_ok cap slots head tail -> head <> tail ->
  stored_events cap slots head tail
  = slots !!! Z.to_nat head :: stored_events cap slots ((head + 1) mod cap) tail.
Proof using cap_pos.
  intros (Hlen & Hh & Ht) Hne. unfold stored_events.
  rewrite stored_count_pop by assumption.
  pose proof (stored_count_range head tail) as Hc.
  assert (stored_count cap head tail <> 0) as Hnz
    by (rewrite stored_count_empty by assumption; exact Hne).
  replace (Z.to_nat (stored_count cap head tail))
    with (S (Z.to_nat (stored_count cap head tail - 1))) by lia.
  rewrite <- cons_seq, <- seq_shift. simpl. rewrite List.map_map. f_equal.
  - rewrite Z.add_0_r, Z.mod_small by lia. reflexivity.
  - apply map_ext. intros i. do 2 f_equal.
    rewrite Zplus_mod_idemp_l. f_equal. lia.
Qed.

Lemma stored_nil slots head : stored_events cap slots head head = [].
Proof using cap_pos.
  unfold stored_events, stored_count. rewrite Z.sub_diag, Z.mod_0_l by lia.
  reflexivity.
Qed.

End Ring.

(** ** The event queue of [inject.c] *)

Section InjectQueue.

Import Inject.

Lemma init_ok : queue_ok init_state.
Proof.
  unfold queue_ok, ring_ok, init_state. cbn [queue q_head q_tail].
  rewrite length_replicate. unfold MAX_QUEUE. lia.
Qed.

Lemma init_stored : stored init_state = [].
Proof. apply stored_nil. unfold MAX_QUEUE. lia. Qed.

Lemma queue_is_full_spec s :
  queue_ok s ->
  (queue_is_full s = true <-> Z.of_nat (length (stored s)) = MAX_QUEUE - 1).
Proof.
  intros (Hlen & Hh & Ht). unfold queue_is_full, stored.
  rewrite next_index by (unfold MAX_QUEUE, INT_MAX in *; lia).
  rewrite stored_length by (unfold MAX_QUEUE; lia).
  rewrite stored_count_full by (unfold MAX_QUEUE in *; lia).
  apply Z.eqb_eq.
Qed.

Lemma enqueue_full s ev :
  queue_is_full s = true -> enqueue ev s = emit queue_full_warning s.
Proof. unfold queue_is_full, enqueue. intros ->. reflexivity. Qed.

Lemma enqueue_room s ev :
  queue_ok s -> queue_is_full s = false ->
  queue_ok (enqueue ev s) /\
  stored (enqueue ev s) = stored s ++ [ev] /\
  trace (enqueue ev s) = trace s /\
  wacom_fd (enqueue ev s) = wacom_fd s /\
  original_read (enqueue ev s) = original_read s.
Proof.
  intros Hok Hfull. pose proof Hok as (Hlen & Hh & Ht).
  unfold queue_is_full in Hfull. unfold enqueue. rewrite Hfull. simpl.
  rewrite next_index in * by (unfold MAX_QUEUE, INT_MAX in *; lia).
  apply Z.eqb_neq in Hfull.
  split; [|split; [|auto]].
  - unfold queue_ok, ring_ok. simpl. rewrite length_insert.
    pose proof (Z.mod_pos_bound (q_tail s + 1) MAX_QUEUE ltac:(unfold MAX_QUEUE; lia)).
    auto.
  - unfold stored. simpl. apply stored_push; [unfold MAX_QUEUE; lia | exact Hok | exact Hfull].
Qed.

Lemma emit_ok e s : queue_ok s -> queue_ok (emit e s).
Proof. exact (fun H => H). Qed.

Lemma emit_stored e s : stored (emit e s) = stored s.
Proof. reflexivity. Qed.

Lemma enqueue_ok s ev : queue_ok s -> queue_ok (enqueue ev s).
Proof.
  intros Hok. destruct (queue_is_full s) eqn:Hf.
  - rewrite enqueue_full by assumption. exact Hok.
  - apply enqueue_room; assumption.
Qed.

(** [enqueue] on the stored list: append while fewer than [MAX_QUEUE - 1]
    events are stored, nothing otherwise. *)
Lemma enqueue_stored s ev :
  queue_ok s ->
  stored (enqueue ev s) =
  if Z.of_nat (length (stored s)) <? MAX_QUEUE - 1 then stored s ++ [ev] else stored s.
Proof.
  intros Hok. pose proof (queue_is_full_spec s Hok) as Hspec.
  assert (Z.of_nat (length (stored s)) <= MAX_QUEUE - 1) as Hle.
  { unfold stored. rewrite stored_length by (unfold MAX_QUEUE; lia).
    apply stored_count_range. unfold MAX_QUEUE. lia. }
  destruct (queue_is_full s) eqn:Hf.
  - rewrite enqueue_full by assumption. rewrite emit_stored.
    destruct (Z.ltb_spec (Z.of_nat (length (stored s))) (MAX_QUEUE - 1)); [|reflexivity].
    assert (Z.of_nat (length (stored s)) = MAX_QUEUE - 1) by (apply Hspec; reflexivity). lia.
  - destruct (enqueue_room s ev Hok Hf) as (_ & -> & _).
    destruct (Z.ltb_spec (Z.of_nat (length (stored s))) (MAX_QUEUE - 1)); [reflexivity|].
    assert (false = true) by (apply Hspec; lia). discriminate.
Qed.

Lemma dequeue_empty s : stored s = [] -> queue_ok s -> dequeue s = (None, s).
Proof.
  intros Hst (Hlen & Hh & Ht). unfold dequeue.
  assert (q_head s = q_tail s) as ->.
  { apply (stored_count_empty MAX_QUEUE); [unfold MAX_QUEUE; lia | assumption ..|].
    rewrite <- (stored_length MAX_QUEUE ltac:(unfold MAX_QUEUE; lia) (queue s)).
    fold (stored s). rewrite Hst. reflexivity. }
  rewrite Z.eqb_refl. reflexivity.
Qed.

Lemma dequeue_some s ev rest :
  stored s = ev :: rest -> queue_ok s ->
  exists s',
    dequeue s = (Some ev, s') /\ stored s' = rest /\ queue_ok s' /\
    trace s' = trace s /\ wacom_fd s' = wacom_fd s /\
    original_read s' = original_read s.
Proof.
  intros Hst Hok. pose proof Hok as (Hlen & Hh & Ht).
  assert (q_head s <> q_tail s) as Hne.
  { intros Heq. unfold stored in Hst. rewrite Heq, stored_nil in Hst by (unfold MAX_QUEUE; lia).
    discriminate. }
  unfold stored in Hst.
  rewrite (stored_pop MAX_QUEUE ltac:(unfold MAX_QUEUE; lia) _ _ _ Hok Hne) in Hst.
  injection Hst as Hev Hrest.
  unfold dequeue. apply Z.eqb_neq in Hne. rewrite Hne.
  rewrite next_index by (unfold MAX_QUEUE, INT_MAX in *; lia).
  eexists. split; [rewrite Hev; reflexivity|].
  split; [exact Hrest|]. split; [|auto].
  unfold queue_ok, ring_ok. simpl.
  pose proof (Z.mod_pos_bound (q_head s + 1) MAX_QUEUE ltac:(unfold MAX_QUEUE; lia)).
  auto.
Qed.

Lemma dequeue_ok s : queue_ok s -> queue_ok (snd (dequeue s)).
Proof.
  intros Hok. destruct (stored s) as [|ev rest] eqn:Hst.
  - rewrite dequeue_empty by assumption. exact Hok.
  - destruct (dequeue_some s ev rest Hst Hok) as (s' & -> & _ & Hok' & _). exact Hok'.
Qed.

Lemma run_ops_ok ops : forall s, queue_ok s -> queue_ok (snd (run_ops ops s)).
Proof.
  induction ops as [|[ev|] ops IH]; intros s Hok; simpl.
  - exact Hok.
  - apply IH, enqueue_ok, Hok.
  - pose proof (dequeue_ok s Hok) as Hd. destruct (dequeue s) as [r s'].
    specialize (IH s' Hd). destruct (run_ops ops s') as [outs s'']. exact IH.
Qed.

Lemma stored_bound s : queue_ok s -> Z.of_nat (length (stored s)) <= MAX_QUEUE - 1.
Proof.
  intros _. unfold stored. rewrite stored_length by (unfold MAX_QUEUE; lia).
  apply stored_count_range. unfold MAX_QUEUE. lia.
Qed.

End InjectQueue.

Section InjectQueueLaws.

Import Inject.

Lemma run_ops_ring_spec ops : forall s,
  queue_ok s ->
  fst (run_ops ops s) = fst (ring_spec ops (stored s)) /\
  stored (snd (run_ops ops s)) = snd (ring_spec ops (stored s)).
Proof.
  induction ops as [|[ev|] ops IH]; intros s Hok; simpl.
  - auto.
  - rewrite <- enqueue_stored by assumption. apply IH, enqueue_ok, Hok.
  - destruct (stored s) as [|ev rest] eqn:Hst.
    + rewrite dequeue_empty by assumption.
      specialize (IH s Hok). rewrite Hst in IH.
      destruct (run_ops ops s), (ring_spec ops []). simpl in *.
      destruct IH as [-> ->]. auto.
    + destruct (dequeue_some s ev rest Hst Hok) as (s' & -> & Hst' & Hok' & _).
      specialize (IH s' Hok'). rewrite Hst' in IH.
      destruct (run_ops ops s'), (ring_spec ops rest). simpl in *.
      destruct IH as [-> ->]. auto.
Qed.

Lemma ring_spec_fifo ops : forall q,
  Z.of_nat (length q) + count_enq ops <= MAX_QUEUE - 1 ->
  ring_spec ops q = fifo_spec ops q.
Proof.
  induction ops as [|[ev|] ops IH]; intros q Hle; simpl in *.
  - reflexivity.
  - assert (0 <= count_enq ops) by (clear; induction ops as [|[?|] ? ?]; simpl; lia).
    destruct (Z.ltb_spec (Z.of_nat (length q)) (MAX_QUEUE - 1)); [|lia].
    apply IH. rewrite length_app. simpl. lia.
  - destruct q as [|ev q0].
    + rewrite IH by (simpl; lia). reflexivity.
    + rewrite IH by (simpl in *; lia). reflexivity.
Qed.

Lemma enqueue_all_ok evs : forall s, queue_ok s -> queue_ok (enqueue_all evs s).
Proof.
  induction evs as [|ev evs IH]; intros s Hok; simpl; [exact Hok|].
  apply IH, enqueue_ok, Hok.
Qed.

Lemma enqueue_all_stored evs : forall s,
  queue_ok s ->
  stored (enqueue_all evs s) =
  stored s ++ take (Z.to_nat (MAX_QUEUE - 1) - length (stored s)) evs.
Proof.
  induction evs as [|ev evs IH]; intros s Hok; simpl.
  - rewrite take_nil, app_nil_r. reflexivity.
  - rewrite IH by (apply enqueue_ok, Hok). rewrite enqueue_stored by assumption.
    pose proof (stored_bound s Hok) as Hb.
    destruct (Z.ltb_spec (Z.of_nat (length (stored s))) (MAX_QUEUE - 1)).
    + rewrite length_app. simpl.
      replace (Z.to_nat (MAX_QUEUE - 1) - length (stored s))%nat
        with (S (Z.to_nat (MAX_QUEUE - 1) - (length (stored s) + 1)))%nat by lia.
      simpl. rewrite <- app_assoc. reflexivity.
    + replace (Z.to_nat (MAX_QUEUE - 1) - length (stored s))%nat with 0%nat by lia.
      reflexivity.
Qed.

Lemma enqueue_all_full evs : forall s,
  queue_is_full s = true ->
  enqueue_all evs s =
  State (queue s) (q_head s) (q_tail s) (original_read s) (wacom_fd s)
    (trace s ++ repeat queue_full_warning (length evs)).
Proof.
  induction evs as [|ev evs IH]; intros s Hf; simpl.
  - rewrite app_nil_r. destruct s; reflexivity.
  - rewrite enqueue_full by assumption. rewrite IH by exact Hf. simpl.
    rewrite <- app_assoc. reflexivity.
Qed.

End InjectQueueLaws.

Section BurstAtCapacity.

Import Inject.

Lemma fifo_spec_enqs evs rest : forall q,
  fifo_spec (List.map Enq evs ++ rest) q = fifo_spec rest (q ++ evs).
Proof.
  induction evs as [|ev evs IH]; intros q; simpl.
  - rewrite app_nil_r. reflexivity.
  - rewrite IH, <- app_assoc. reflexivity.
Qed.

Lemma ring_spec_enqs evs rest : forall q,
  Z.of_nat (length q) <= MAX_QUEUE - 1 ->
  ring_spec (List.map Enq evs ++ rest) q =
  ring_spec rest (q ++ take (Z.to_nat (MAX_QUEUE - 1) - length q) evs).
Proof.
  induction evs as [|ev evs IH]; intros q Hq; simpl.
  - rewrite take_nil, app_nil_r. reflexivity.
  - destruct (Z.ltb_spec (Z.of_nat (length q)) (MAX_QUEUE - 1)).
    + rewrite IH by (rewrite length_app; simpl; lia).
      rewrite length_app. simpl.
      replace (Z.to_nat (MAX_QUEUE - 1) - length q)%nat
        with (S (Z.to_nat (MAX_QUEUE - 1) - (length q + 1)))%nat by lia.
      simpl. rewrite <- app_assoc. reflexivity.
    + rewrite IH by assumption.
      replace (Z.to_nat (MAX_QUEUE - 1) - length q)%nat with 0%nat by lia.
      reflexivity.
Qed.

Lemma fifo_spec_deqs n : forall q,
  (length q <= n)%nat ->
  fst (fifo_spec (repeat Deq n) q) = List.map Some q ++ repeat None (n - length q).
Proof.
  induction n as [|n IH]; intros q Hq; simpl.
  - destruct q; [reflexivity | simpl in Hq; lia].
  - destruct q as [|ev q0].
    + specialize (IH [] ltac:(simpl; lia)). simpl in IH.
      destruct (fifo_spec (repeat Deq n) []). simpl in *.
      rewrite IH, Nat.sub_0_r. reflexivity.
    + specialize (IH q0 ltac:(simpl in Hq; lia)).
      destruct (fifo_spec (repeat Deq n) q0). simpl in *.
      rewrite IH. reflexivity.
Qed.

Lemma ring_spec_deqs n q : ring_spec (repeat Deq n) q = fifo_spec (repeat Deq n) q.
Proof.
  revert q. induction n as [|n IH]; intros q; simpl; [reflexivity|].
  destruct q; rewrite IH; reflexivity.
Qed.

Lemma burst_then_drain_enqs : count_enq burst_then_drain = MAX_QUEUE.
Proof.
  unfold burst_then_drain.
  assert (forall evs n, count_enq (List.map Enq evs ++ repeat Deq n) = Z.of_nat (length evs)) as H.
  { induction evs as [|ev evs IH]; intros n; simpl.
    - induction n; simpl; auto.
    - rewrite IH. lia. }
  rewrite H. unfold numbered. rewrite length_map, length_seq. unfold MAX_QUEUE. lia.
Qed.

Lemma burst_then_drain_code :
  fst (run_ops burst_then_drain init_state) =
  List.map Some (take (Z.to_nat (MAX_QUEUE - 1)) (numbered (Z.to_nat MAX_QUEUE)))
  ++ [None].
Proof.
  destruct (run_ops_ring_spec burst_then_drain init_state init_ok) as [-> _].
  rewrite init_stored. unfold burst_then_drain.
  rewrite ring_spec_enqs by (unfold MAX_QUEUE; cbn [length]; lia).
  rewrite ring_spec_deqs. cbn [app length]. rewrite Nat.sub_0_r.
  assert (length (take (Z.to_nat (MAX_QUEUE - 1)) (numbered (Z.to_nat MAX_QUEUE)))
          = Z.to_nat (MAX_QUEUE - 1)) as Hlen.
  { rewrite length_take. unfold numbered. rewrite length_map, length_seq.
    unfold MAX_QUEUE. lia. }
  rewrite fifo_spec_deqs by (rewrite Hlen; unfold MAX_QUEUE; lia).
  rewrite Hlen.
  replace (Z.to_nat MAX_QUEUE - Z.to_nat (MAX_QUEUE - 1))%nat with 1%nat
    by (unfold MAX_QUEUE; lia).
  reflexivity.
Qed.

Lemma burst_then_drain_law :
  fst (fifo_spec burst_then_drain []) =
  List.map Some (take (Z.to_nat (MAX_QUEUE - 1)) (numbered (Z.to_nat MAX_QUEUE)))
  ++ [Some (make_event EV_ABS ABS_X (MAX_QUEUE - 1))].
Proof.
  unfold burst_then_drain. rewrite fifo_spec_enqs. cbn [app].
  rewrite fifo_spec_deqs
    by (unfold numbered; rewrite length_map, length_seq; lia).
  replace (Z.to_nat MAX_QUEUE - length (numbered (Z.to_nat MAX_QUEUE)))%nat with 0%nat
    by (unfold numbered; rewrite length_map, length_seq; lia).
  cbn [repeat]. rewrite app_nil_r.
  rewrite <- (take_drop (Z.to_nat (MAX_QUEUE - 1)) (numbered (Z.to_nat MAX_QUEUE))) at 1.
  rewrite map_app. f_equal.
Qed.

End BurstAtCapacity.

(** ** The event queue of [inject_hook.c] *)

Section HookQueue.

Import InjectHook.

Lemma hook_init_ok : hook_queue_ok init_state.
Proof.
  unfold hook_queue_ok, ring_ok, init_state. cbn [event_queue queue_head queue_tail].
  rewrite length_replicate. unfold MAX_QUEUE_SIZE. lia.
Qed.

Lemma hook_init_stored : hook_stored init_state = [].
Proof. apply stored_nil. unfold MAX_QUEUE_SIZE. lia. Qed.

Lemma hook_stored_bound s :
  hook_queue_ok s -> Z.of_nat (length (hook_stored s)) <= MAX_QUEUE_SIZE - 1.
Proof.
  intros _. unfold hook_stored. rewrite stored_length by (unfold MAX_QUEUE_SIZE; lia).
  apply stored_count_range. unfold MAX_QUEUE_SIZE. lia.
Qed.

Lemma hook_is_full_spec s :
  hook_queue_ok s ->
  (hook_is_full s = true <-> Z.of_nat (length (hook_stored s)) = MAX_QUEUE_SIZE - 1).
Proof.
  intros (Hlen & Hh & Ht). unfold hook_is_full, hook_stored.
  rewrite next_index by (unfold MAX_QUEUE_SIZE, INT_MAX in *; lia).
  rewrite stored_length by (unfold MAX_QUEUE_SIZE; lia).
  rewrite stored_count_full by (unfold MAX_QUEUE_SIZE in *; lia).
  apply Z.eqb_eq.
Qed.

Lemma queue_event_full s ev :
  hook_is_full s = true -> queue_event ev s = emit queue_full_warning s.
Proof. unfold hook_is_full, queue_event. intros ->. reflexivity. Qed.

Lemma queue_event_room s ev :
  hook_queue_ok s -> hook_is_full s = false ->
  queue_event ev s =
    set_queue_tail ((queue_tail s + 1) mod MAX_QUEUE_SIZE)
      (set_event_queue (<[Z.to_nat (queue_tail s) := ev]> (event_queue s)) s) /\
  hook_queue_ok (queue_event ev s) /\
  hook_stored (queue_event ev s) = hook_stored s ++ [ev].
Proof.
  intros Hok Hfull. pose proof Hok as (Hlen & Hh & Ht).
  unfold hook_is_full in Hfull. unfold queue_event. rewrite Hfull.
  rewrite next_index in * by (unfold MAX_QUEUE_SIZE, INT_MAX in *; lia).
  apply Z.eqb_neq in Hfull.
  split; [reflexivity|]. split.
  - unfold hook_queue_ok, ring_ok. simpl. rewrite length_insert.
    pose proof (Z.mod_pos_bound (queue_tail s + 1) MAX_QUEUE_SIZE
                  ltac:(unfold MAX_QUEUE_SIZE; lia)).
    auto.
  - unfold hook_stored. simpl.
    apply stored_push; [unfold MAX_QUEUE_SIZE; lia | exact Hok | exact Hfull].
Qed.

Lemma queue_event_ok s ev : hook_queue_ok s -> hook_queue_ok (queue_event ev s).
Proof.
  intros Hok. destruct (hook_is_full s) eqn:Hf.
  - rewrite queue_event_full by assumption. exact Hok.
  - apply queue_event_room; assumption.
Qed.

Lemma queue_event_stored s ev :
  hook_queue_ok s ->
  hook_stored (queue_event ev s) =
  if Z.of_nat (length (hook_stored s)) <? MAX_QUEUE_SIZE - 1
  then hook_stored s ++ [ev] else hook_stored s.
Proof.
  intros Hok. pose proof (hook_is_full_spec s Hok) as Hspec.
  pose proof (hook_stored_bound s Hok) as Hle.
  destruct (hook_is_full s) eqn:Hf.
  - rewrite queue_event_full by assumption.
    change (hook_stored (emit queue_full_warning s)) with (hook_stored s).
    destruct (Z.ltb_spec (Z.of_nat (length (hook_stored s))) (MAX_QUEUE_SIZE - 1));
      [|reflexivity].
    assert (Z.of_nat (length (hook_stored s)) = MAX_QUEUE_SIZE - 1)
      by (apply Hspec; reflexivity). lia.
  - destruct (queue_event_room s ev Hok Hf) as (_ & _ & ->).
    destruct (Z.ltb_spec (Z.of_nat (length (hook_stored s))) (MAX_QUEUE_SIZE - 1));
      [reflexivity|].
    assert (false = true) by (apply Hspec; lia). discriminate.
Qed.

Lemma dequeue_event_empty s :
  hook_stored s = [] -> hook_queue_ok s -> dequeue_event s = (None, s).
Proof.
  intros Hst (Hlen & Hh & Ht). unfold dequeue_event.
  assert (queue_head s = queue_tail s) as ->.
  { apply (stored_count_empty MAX_QUEUE_SIZE); [unfold MAX_QUEUE_SIZE; lia | assumption ..|].
    rewrite <- (stored_length MAX_QUEUE_SIZE ltac:(unfold MAX_QUEUE_SIZE; lia) (event_queue s)).
    fold (hook_stored s). rewrite Hst. reflexivity. }
  rewrite Z.eqb_refl. reflexivity.
Qed.

Lemma dequeue_event_some s ev rest :
  hook_stored s = ev :: rest -> hook_queue_ok s ->
  let s' := set_queue_head ((queue_head s + 1) mod MAX_QUEUE_SIZE) s in
  dequeue_event s = (Some ev, s') /\ hook_stored s' = rest /\ hook_queue_ok s'.
Proof.
  intros Hst Hok. pose proof Hok as (Hlen & Hh & Ht).
  assert (queue_head s <> queue_tail s) as Hne.
  { intros Heq. unfold hook_stored in Hst.
    rewrite Heq, stored_nil in Hst by (unfold MAX_QUEUE_SIZE; lia). discriminate. }
  unfold hook_stored in Hst.
  rewrite (stored_pop MAX_QUEUE_SIZE ltac:(unfold MAX_QUEUE_SIZE; lia) _ _ _ Hok Hne) in Hst.
  injection Hst as Hev Hrest.
  unfold dequeue_event. apply Z.eqb_neq in Hne. rewrite Hne.
  rewrite next_index by (unfold MAX_QUEUE_SIZE, INT_MAX in *; lia).
  split; [rewrite Hev; reflexivity|].
  split; [exact Hrest|].
  unfold hook_queue_ok, ring_ok. simpl.
  pose proof (Z.mod_pos_bound (queue_head s + 1) MAX_QUEUE_SIZE
                ltac:(unfold MAX_QUEUE_SIZE; lia)).
  auto.
Qed.

Lemma queue_events_ok evs : forall s, hook_queue_ok s -> hook_queue_ok (queue_events evs s).
Proof.
  induction evs as [|ev evs IH]; intros s Hok; simpl; [exact Hok|].
  apply IH, queue_event_ok, Hok.
Qed.

Lemma queue_events_stored evs : forall s,
  hook_queue_ok s ->
  hook_stored (queue_events evs s) =
  hook_stored s ++ take (Z.to_nat (MAX_QUEUE_SIZE - 1) - length (hook_stored s)) evs.
Proof.
  induction evs as [|ev evs IH]; intros s Hok; simpl.
  - rewrite take_nil, app_nil_r. reflexivity.
  - rewrite IH by (apply queue_event_ok, Hok). rewrite queue_event_stored by assumption.
    pose proof (hook_stored_bound s Hok) as Hb.
    destruct (Z.ltb_spec (Z.of_nat (length (hook_stored s))) (MAX_QUEUE_SIZE - 1)).
    + rewrite length_app. simpl.
      replace (Z.to_nat (MAX_QUEUE_SIZE - 1) - length (hook_stored s))%nat
        with (S (Z.to_nat (MAX_QUEUE_SIZE - 1) - (length (hook_stored s) + 1)))%nat by lia.
      simpl. rewrite <- app_assoc. reflexivity.
    + replace (Z.to_nat (MAX_QUEUE_SIZE - 1) - length (hook_stored s))%nat with 0%nat by lia.
      reflexivity.
Qed.

End HookQueue.

(** ** Event Queue: the claims *)

Section QueueClaims.

Import Inject.

(** C5, as amended: from a well-formed queue, any interleaving of [enqueue]
    and [dequeue] in which the events already stored plus the events enqueued
    number at most [MAX_QUEUE - 1] = 9999 obeys the FIFO law: every [dequeue]
    returns what the unbounded first-in first-out list would return, and the
    events left stored are the ones that list still holds, so nothing is
    dropped, duplicated or reordered. *)
Theorem fifo_law_below_capacity (ops : list queue_op) (s : state) :
  queue_ok s ->
  Z.of_nat (length (stored s)) + count_enq ops <= MAX_QUEUE - 1 ->
  fst (run_ops ops s) = fst (fifo_spec ops (stored s)) /\
  stored (snd (run_ops ops s)) = snd (fifo_spec ops (stored s)).
Proof.
  intros Hok Hle.
  rewrite <- (ring_spec_fifo ops (stored s) Hle).
  apply run_ops_ring_spec, Hok.
Qed.

Lemma fifo_law_below_capacity_witness :
  let a := make_event EV_KEY BTN_TOUCH 1 in
  let b := make_event EV_ABS ABS_X 77 in
  let c := make_event EV_SYN SYN_REPORT 0 in
  let ops := [Enq a; Enq b; Deq; Enq c; Deq; Deq; Deq] in
  queue_ok init_state /\
  Z.of_nat (length (stored init_state)) + count_enq ops <= MAX_QUEUE - 1 /\
  fst (run_ops ops init_state) = [Some a; Some b; Some c; None] /\
  stored (snd (run_ops ops init_state)) = [].
Proof.
  intros a b c ops.
  assert (queue_ok init_state) as H1 by (repeat split; vm_compute; congruence).
  assert (Z.of_nat (length (stored init_state)) + count_enq ops <= MAX_QUEUE - 1) as H2
    by (vm_compute; congruence).
  split; [exact H1|]. split; [exact H2|].
  destruct (fifo_law_below_capacity ops init_state H1 H2) as [E1 E2].
  split; [rewrite E1 | rewrite E2]; vm_compute; reflexivity.
Defined.

(** C5, as stated, fails at exactly [MAX_QUEUE] enqueues: of ten thousand
    events pushed onto the untouched queue and then drained, the last one is
    never returned. *)
Lemma fifo_law_fails_at_capacity :
  count_enq burst_then_drain <= MAX_QUEUE /\
  fst (run_ops burst_then_drain init_state) <> fst (fifo_spec burst_then_drain []).
Proof.
  split.
  - rewrite burst_then_drain_enqs. lia.
  - rewrite burst_then_drain_code, burst_then_drain_law.
    intros H. apply app_inv_head in H. discriminate.
Qed.

(** C6: a well-formed queue (the initial one is, see [init_ok]) stays well
    formed under every sequence of queue operations and never stores more
    than [MAX_QUEUE] events; and once [enqueue]'s fullness test holds, a burst
    of any size is dropped whole: each call returns, the slots, head and tail
    are left as they were, and the only effect is one warning per event. *)
Theorem queue_bounded_and_full_drops
  (s : state) (ops : list queue_op) (burst : list input_event) :
  queue_ok s ->
  let s1 := snd (run_ops ops s) in
  queue_ok s1 /\
  Z.of_nat (length (stored s1)) <= MAX_QUEUE /\
  (queue_is_full s1 = true ->
   enqueue_all burst s1 =
   State (queue s1) (q_head s1) (q_tail s1) (original_read s1) (wacom_fd s1)
     (trace s1 ++ repeat queue_full_warning (length burst))).
Proof.
  intros Hok s1.
  assert (queue_ok s1) as Hok1 by (apply run_ops_ok, Hok).
  split; [exact Hok1|]. split.
  - pose proof (stored_bound s1 Hok1). lia.
  - apply enqueue_all_full.
Qed.

Lemma queue_bounded_and_full_drops_witness :
  let ops := [Deq; Enq (make_event EV_KEY BTN_TOUCH 1)] in
  let burst := [make_event EV_ABS ABS_X 5; make_event EV_SYN SYN_REPORT 0] in
  let s1 := snd (run_ops ops full_state) in
  queue_ok full_state /\
  queue_is_full s1 = true /\
  Z.of_nat (length (stored s1)) <= MAX_QUEUE /\
  q_head (enqueue_all burst s1) = 2 /\
  q_tail (enqueue_all burst s1) = 1 /\
  trace (enqueue_all burst s1) = [queue_full_warning; queue_full_warning].
Proof.
  intros ops burst s1.
  assert (queue_ok full_state) as H1 by (repeat split; vm_compute; congruence).
  assert (queue_is_full s1 = true) as H2 by (vm_compute; reflexivity).
  destruct (queue_bounded_and_full_drops full_state ops burst H1) as (_ & Hb & Hfull).
  split; [exact H1|]. split; [exact H2|]. split; [exact Hb|].
  fold s1 in Hfull. rewrite (Hfull H2).
  repeat split; vm_compute; reflexivity.
Defined.

End QueueClaims.

(** C10: both rings keep one slot free.  A well-formed queue stores at most
    [capacity - 1] = 9999 events; [enqueue] ([queue_event] in the v4 hook)
    leaves the stored events as they were exactly when
    [(tail + 1) mod capacity = head], and appends the event otherwise; so of
    ten thousand events pushed onto an empty, undrained queue the first 9999
    are stored and the ten-thousandth is dropped. *)
Theorem ring_keeps_one_slot_free :
  (Inject.MAX_QUEUE - 1 = 9999 /\
   forall (s : Inject.state) (ev : input_event),
     queue_ok s ->
     Z.of_nat (length (stored s)) <= Inject.MAX_QUEUE - 1 /\
     (stored (Inject.enqueue ev s) = stored s <->
      (Inject.q_tail s + 1) mod Inject.MAX_QUEUE = Inject.q_head s) /\
     ((Inject.q_tail s + 1) mod Inject.MAX_QUEUE <> Inject.q_head s ->
      stored (Inject.enqueue ev s) = stored s ++ [ev]) /\
     forall burst,
       stored s = [] -> length burst = Z.to_nat (Inject.MAX_QUEUE - 1) ->
       stored (enqueue_all (burst ++ [ev]) s) = burst) /\
  (InjectHook.MAX_QUEUE_SIZE - 1 = 9999 /\
   forall (s : InjectHook.state) (ev : input_event),
     hook_queue_ok s ->
     Z.of_nat (length (hook_stored s)) <= InjectHook.MAX_QUEUE_SIZE - 1 /\
     (hook_stored (InjectHook.queue_event ev s) = hook_stored s <->
      (InjectHook.queue_tail s + 1) mod InjectHook.MAX_QUEUE_SIZE = InjectHook.queue_head s) /\
     ((InjectHook.queue_tail s + 1) mod InjectHook.MAX_QUEUE_SIZE <> InjectHook.queue_head s ->
      hook_stored (InjectHook.queue_event ev s) = hook_stored s ++ [ev]) /\
     forall burst,
       hook_stored s = [] -> length burst = Z.to_nat (InjectHook.MAX_QUEUE_SIZE - 1) ->
       hook_stored (queue_events (burst ++ [ev]) s) = burst).
Proof.
  split; (split; [reflexivity|]); intros s ev Hok.
  - pose proof Hok as (Hlen & Hh & Ht).
    assert (queue_is_full s = true <->
            (Inject.q_tail s + 1) mod Inject.MAX_QUEUE = Inject.q_head s) as Hfull.
    { unfold queue_is_full.
      rewrite next_index by (unfold Inject.MAX_QUEUE, INT_MAX in *; lia).
      apply Z.eqb_eq. }
    split; [apply stored_bound, Hok|]. split; [|split].
    + destruct (queue_is_full s) eqn:Hf.
      * rewrite enqueue_full by assumption. rewrite emit_stored.
        split; [intros _; apply Hfull; reflexivity | reflexivity].
      * destruct (enqueue_room s ev Hok Hf) as (_ & -> & _).
        split.
        -- intros Heq. apply (f_equal (@length _)) in Heq.
           rewrite length_app in Heq. simpl in Heq. lia.
        -- intros Hc. apply Hfull in Hc. discriminate.
    + intros Hne. destruct (queue_is_full s) eqn:Hf.
      * exfalso. apply Hne, Hfull. reflexivity.
      * apply enqueue_room; assumption.
    + intros burst Hst Hb. rewrite enqueue_all_stored by assumption.
      rewrite Hst. cbn [app length]. rewrite Nat.sub_0_r, <- Hb.
      rewrite take_app_length. reflexivity.
  - pose proof Hok as (Hlen & Hh & Ht).
    assert (hook_is_full s = true <->
            (InjectHook.queue_tail s + 1) mod InjectHook.MAX_QUEUE_SIZE
            = InjectHook.queue_head s) as Hfull.
    { unfold hook_is_full.
      rewrite next_index by (unfold InjectHook.MAX_QUEUE_SIZE, INT_MAX in *; lia).
      apply Z.eqb_eq. }
    split; [apply hook_stored_bound, Hok|]. split; [|split].
    + destruct (hook_is_full s) eqn:Hf.
      * rewrite queue_event_full by assumption.
        split; [intros _; apply Hfull; reflexivity | reflexivity].
      * destruct (queue_event_room s ev Hok Hf) as (_ & _ & ->).
        split.
        -- intros Heq. apply (f_equal (@length _)) in Heq.
           rewrite length_app in Heq. simpl in Heq. lia.
        -- intros Hc. apply Hfull in Hc. discriminate.
    + intros Hne. destruct (hook_is_full s) eqn:Hf.
      * exfalso. apply Hne, Hfull. reflexivity.
      * apply queue_event_room; assumption.
    + intros burst Hst Hb. rewrite queue_events_stored by assumption.
      rewrite Hst. cbn [app length]. rewrite Nat.sub_0_r, <- Hb.
      rewrite take_app_length. reflexivity.
Qed.

Lemma ring_keeps_one_slot_free_witness :
  let ev := make_event EV_SYN SYN_REPORT 0 in
  (queue_ok full_state /\
   (Inject.q_tail full_state + 1) mod Inject.MAX_QUEUE = Inject.q_head full_state /\
   stored (Inject.enqueue ev full_state) = stored full_state) /\
  (queue_ok Inject.init_state /\
   (Inject.q_tail Inject.init_state + 1) mod Inject.MAX_QUEUE <> Inject.q_head Inject.init_state /\
   stored (Inject.enqueue ev Inject.init_state) = [ev]) /\
  (hook_queue_ok InjectHook.init_state /\
   hook_stored (InjectHook.queue_event ev InjectHook.init_state) = [ev]).
Proof.
  intros ev.
  assert (queue_ok full_state) as H1 by (repeat split; vm_compute; congruence).
  assert (queue_ok Inject.init_state) as H2 by (repeat split; vm_compute; congruence).
  assert (hook_queue_ok InjectHook.init_state) as H3
    by (repeat split; vm_compute; congruence).
  assert ((Inject.q_tail full_state + 1) mod Inject.MAX_QUEUE = Inject.q_head full_state)
    as F1 by (vm_compute; reflexivity).
  assert ((Inject.q_tail Inject.init_state + 1) mod Inject.MAX_QUEUE
          <> Inject.q_head Inject.init_state) as F2 by (vm_compute; congruence).
  assert ((InjectHook.queue_tail InjectHook.init_state + 1) mod InjectHook.MAX_QUEUE_SIZE
          <> InjectHook.queue_head InjectHook.init_state) as F3 by (vm_compute; congruence).
  destruct ring_keeps_one_slot_free as [[_ A] [_ B]].
  split; [|split].
  - split; [exact H1|]. split; [exact F1|].
    destruct (A full_state ev H1) as (_ & Hiff & _). apply Hiff, F1.
  - split; [exact H2|]. split; [exact F2|].
    destruct (A Inject.init_state ev H2) as (_ & _ & Happ & _).
    rewrite (Happ F2). vm_compute. reflexivity.
  - split; [exact H3|].
    destruct (B InjectHook.init_state ev H3) as (_ & _ & Happ & _).
    rewrite (Happ F3). vm_compute. reflexivity.
Defined.

(** ** Coordinate Mapper *)

(** C4: with the calibrated configuration (1404 x 1872 display, raw X in
    [211, 20820] inverted, raw Y in [90, 15712] fed by the swapped axis) the
    four display corners map exactly onto the four corners of the usable raw
    range. *)
Theorem map_corners_exact :
  Coords.map 0 0 = (20820, 90) /\
  Coords.map 1404 0 = (20820, 15712) /\
  Coords.map 0 1872 = (211, 90) /\
  Coords.map 1404 1872 = (211, 15712).
Proof. repeat split; vm_compute; reflexivity. Qed.

(** ** C strings *)

Section Strings.

Local Open Scope string_scope.

Lemma append_nil_r s : s ++ "" = s.
Proof. induction s as [|c s IH]; simpl; [|rewrite IH]; reflexivity. Qed.

Lemma append_assoc a b c : (a ++ b) ++ c = a ++ (b ++ c).
Proof. induction a as [|x a IH]; simpl; [|rewrite IH]; reflexivity. Qed.

Lemma append_length a b : String.length (a ++ b) = (String.length a + String.length b)%nat.
Proof. induction a as [|x a IH]; simpl; [|rewrite IH]; reflexivity. Qed.

Lemma substring_0_all s : forall n, (String.length s <= n)%nat -> substring 0 n s = s.
Proof.
  induction s as [|c s IH]; intros [|n] H; simpl in *; try reflexivity; try lia.
  rewrite IH by lia. reflexivity.
Qed.

Lemma substring_0_app p r : forall n,
  (String.length p <= n)%nat ->
  substring 0 n (p ++ r) = p ++ substring 0 (n - String.length p) r.
Proof.
  induction p as [|c p IH]; intros n H; simpl in *.
  - rewrite Nat.sub_0_r. reflexivity.
  - destruct n as [|n]; [lia|]. simpl. rewrite IH by lia. reflexivity.
Qed.

Lemma substring_0_0 s : substring 0 0 s = "".
Proof. destruct s; reflexivity. Qed.

Lemma substring_0_is_prefix s : forall n, exists r, s = substring 0 n s ++ r.
Proof.
  induction s as [|c s IH]; intros [|n]; simpl.
  - exists "". reflexivity.
  - exists "". reflexivity.
  - exists (String c s). reflexivity.
  - destruct (IH n) as [r Hr]. exists r. rewrite <- Hr. reflexivity.
Qed.

(** [strncmp] over the whole length of a literal is the prefix test. *)
Lemma strncmp_eq_prefix s p :
  strncmp_eq s p (String.length p) = true <-> exists r, s = p ++ r.
Proof.
  unfold strncmp_eq. rewrite (substring_0_all p) by lia. rewrite String.eqb_eq.
  split.
  - intros H. destruct (substring_0_is_prefix s (String.length p)) as [r Hr].
    exists r. rewrite <- H. exact Hr.
  - intros [r ->]. rewrite substring_0_app by lia.
    rewrite Nat.sub_diag, substring_0_0. apply append_nil_r.
Qed.

(** Cutting a string to [n] bytes keeps and adds no prefix of at most [n]
    bytes. *)
Lemma prefix_of_truncated s p n :
  (String.length p <= n)%nat ->
  (exists r, substring 0 n s = p ++ r) <-> (exists r, s = p ++ r).
Proof.
  intros Hp. split.
  - intros [r Hr]. destruct (substring_0_is_prefix s n) as [r' Hr'].
    exists (r ++ r'). rewrite Hr' at 1. rewrite Hr. apply append_assoc.
  - intros [r ->]. rewrite substring_0_app by exact Hp. eauto.
Qed.

Lemma prefix_spec p : forall s, String.prefix p s = true <-> exists r, s = p ++ r.
Proof.
  induction p as [|c p IH]; intros [|d s]; simpl.
  - split; [intros _; exists ""; reflexivity | reflexivity].
  - split; [intros _; exists (String d s); reflexivity | reflexivity].
  - split; [discriminate | intros [r Hr]; discriminate].
  - destruct (ascii_dec c d) as [->|Hne].
    + rewrite IH. split; intros [r Hr]; exists r; [rewrite Hr; reflexivity|].
      injection Hr. auto.
    + split; [discriminate | intros [r Hr]; injection Hr; intros; congruence].
Qed.

(** [strstr] finds the needle exactly when the haystack contains it. *)
Lemma strstr_spec needle : forall haystack,
  strstr haystack needle = true <-> exists a b, haystack = a ++ needle ++ b.
Proof.
  induction haystack as [|c h IH]; cbn [strstr].
  - rewrite orb_false_r, prefix_spec. split.
    + intros [r Hr]. exists "", r. exact Hr.
    + intros (a & b & H). destruct a; [exists b; exact H | discriminate].
  - rewrite orb_true_iff, prefix_spec, IH. split.
    + intros [[r Hr] | (a & b & H)].
      * exists "", r. exact Hr.
      * exists (String c a), b. rewrite H. reflexivity.
    + intros (a & b & H). destruct a as [|d a].
      * left. exists b. exact H.
      * right. simpl in H. injection H as _ H. eauto.
Qed.

End Strings.

(** ** Device Locator *)

Section Locator.

Import Inject.

Lemma is_wacom_spec env fd :
  is_wacom env fd = true <->
  exists target name,
    readlink env fd = Some target /\
    (exists r, target = ("/dev/input/event" ++ r)%string) /\
    eviocgname env fd = Some name /\
    (exists a b, name = (a ++ "Wacom" ++ b)%string).
Proof.
  unfold is_wacom.
  destruct (readlink env fd) as [target|].
  2: { split; [discriminate | intros (t & n & H & _); discriminate]. }
  pose proof (strncmp_eq_prefix (substring 0 255 target) "/dev/input/event") as Hpre.
  change (String.length "/dev/input/event") with 16%nat in Hpre.
  rewrite prefix_of_truncated in Hpre by (simpl; lia).
  destruct (strncmp_eq (substring 0 255 target) "/dev/input/event" 16); cbn [negb].
  - destruct (eviocgname env fd) as [name|].
    + rewrite strstr_spec. split.
      * intros Hn. exists target, name. repeat split; auto. apply Hpre. reflexivity.
      * intros (t & n & _ & _ & Hn & Hsub). injection Hn as <-. exact Hsub.
    + split; [discriminate | intros (t & n & _ & _ & H & _); discriminate].
  - split; [discriminate|].
    intros (t & n & Ht & Hp & _). injection Ht as <-.
    apply Hpre in Hp. discriminate.
Qed.

(** The v4 hook classifies handles with the same function. *)
Lemma is_wacom_device_is_wacom : InjectHook.is_wacom_device = is_wacom.
Proof. reflexivity. Qed.

Lemma dequeue_wacom_fd s : wacom_fd (snd (dequeue s)) = wacom_fd s.
Proof. unfold dequeue. destruct (q_head s =? q_tail s); reflexivity. Qed.

Lemma drain_wacom_fd n : forall s, wacom_fd (snd (drain n s)) = wacom_fd s.
Proof.
  induction n as [|n IH]; intros s; simpl; [reflexivity|].
  pose proof (dequeue_wacom_fd s) as Hd.
  destruct (dequeue s) as [[ev|] s']; simpl in *; [|exact Hd].
  specialize (IH s'). destruct (drain n s') as [evs s'']. simpl in *. congruence.
Qed.

Lemma dequeue_trace s : trace (snd (dequeue s)) = trace s.
Proof. unfold dequeue. destruct (q_head s =? q_tail s); reflexivity. Qed.

Lemma drain_trace n : forall s, trace (snd (drain n s)) = trace s.
Proof.
  induction n as [|n IH]; intros s; simpl; [reflexivity|].
  pose proof (dequeue_trace s) as Hd.
  destruct (dequeue s) as [[ev|] s']; simpl in *; [|exact Hd].
  specialize (IH s'). destruct (drain n s') as [evs s'']. simpl in *. congruence.
Qed.

Lemma resolve_trace s :
  exists new, trace (resolve_original_read s) = trace s ++ new /\
              (new = [] \/ new = [Dlsym]).
Proof.
  unfold resolve_original_read. destruct (original_read s).
  - exists []. rewrite app_nil_r. auto.
  - exists [Dlsym]. auto.
Qed.

Lemma read_wacom_fd env fd count s :
  wacom_fd (snd (read env fd count s)) =
  wacom_fd (detect_wacom env fd (resolve_original_read s)).
Proof.
  unfold read. set (s1 := detect_wacom env fd (resolve_original_read s)).
  assert (forall t, wacom_fd (snd (call_original_read env fd count t)) = wacom_fd t) as Hreal.
  { intros t. unfold call_original_read. destruct (real_read env fd count). reflexivity. }
  destruct ((fd =? wacom_fd s1) && has_events s1)%bool; [|apply Hreal].
  pose proof (drain_wacom_fd (Z.to_nat (wrap (count / sizeof_input_event))) s1) as Hd.
  destruct (drain (Z.to_nat (wrap (count / sizeof_input_event))) s1) as [events s2].
  simpl in Hd. destruct (Z.of_nat (length events) >? 0); [exact Hd|].
  rewrite Hreal. exact Hd.
Qed.

(** Whatever was read so far, [wacom_fd] is still unresolved or holds a handle
    that [is_wacom] accepts. *)
Lemma run_reads_target env calls : forall s,
  wacom_fd s = -1 \/ is_wacom env (wacom_fd s) = true ->
  wacom_fd (run_reads env calls s) = -1 \/
  is_wacom env (wacom_fd (run_reads env calls s)) = true.
Proof.
  induction calls as [|[fd count] calls IH]; intros s Hs; cbn [run_reads]; [exact Hs|].
  apply IH. rewrite read_wacom_fd. unfold detect_wacom, resolve_original_read.
  assert (wacom_fd (if original_read s then s else emit Dlsym (set_original_read true s))
          = wacom_fd s) as Hfd by (destruct (original_read s); reflexivity).
  destruct ((wacom_fd _ =? -1) && is_wacom env fd)%bool eqn:Hd.
  - apply andb_true_iff in Hd as [_ Hd]. right. exact Hd.
  - rewrite Hfd. exact Hs.
Qed.

Lemma call_original_read_spec env fd count s :
  let r := call_original_read env fd count s in
  fst (fst r) = fst (real_read env fd count) /\
  snd (fst r) = snd (real_read env fd count) /\
  snd r = emit (OriginalRead fd count) s.
Proof. unfold call_original_read. destruct (real_read env fd count). simpl. auto. Qed.

(** A call of [read] on a handle that [is_wacom] rejects leaves [wacom_fd]
    alone and starts no reader thread. *)
Lemma read_rejected env fd count s :
  is_wacom env fd = false ->
  let s' := snd (read env fd count s) in
  wacom_fd s' = wacom_fd s /\ ~ In ThreadCreate (new_effects (trace s) (trace s')).
Proof.
  intros Hno. unfold new_effects, read, detect_wacom. rewrite Hno, andb_false_r.
  set (s0 := resolve_original_read s).
  assert (wacom_fd s0 = wacom_fd s) as Hfd
    by (unfold s0, resolve_original_read; destruct (original_read s); reflexivity).
  destruct (resolve_trace s) as (new & Htr & Hnew). fold s0 in Htr.
  assert (~ In ThreadCreate new) as Hnot
    by (destruct Hnew as [-> | ->]; simpl; [tauto | intros [H|[]]; discriminate]).
  assert (forall new', ~ In ThreadCreate new' ->
            ~ In ThreadCreate (skipn (length (trace s)) (trace s ++ new'))) as Hskip.
  { intros new' H. rewrite skipn_app, Nat.sub_diag, skipn_all. exact H. }
  destruct ((fd =? wacom_fd s0) && has_events s0)%bool.
  - pose proof (drain_wacom_fd (Z.to_nat (wrap (count / sizeof_input_event))) s0) as Hd.
    pose proof (drain_trace (Z.to_nat (wrap (count / sizeof_input_event))) s0) as Ht.
    destruct (drain (Z.to_nat (wrap (count / sizeof_input_event))) s0) as [events s1].
    simpl in Hd, Ht.
    destruct (Z.of_nat (length events) >? 0).
    + simpl. split; [congruence|]. rewrite Ht, Htr. apply Hskip, Hnot.
    + destruct (call_original_read_spec env fd count s1) as (_ & _ & ->).
      split; [simpl; congruence|].
      cbn [trace emit]. rewrite Ht, Htr, <- app_assoc. apply Hskip.
      rewrite in_app_iff. intros [H|[H|[]]]; [auto | discriminate].
  - destruct (call_original_read_spec env fd count s0) as (_ & _ & ->).
    split; [simpl; congruence|].
    cbn [trace emit]. rewrite Htr, <- app_assoc. apply Hskip.
    rewrite in_app_iff. intros [H|[H|[]]]; [auto | discriminate].
Qed.

(** C9: [is_wacom] answers true exactly when both checks pass: the handle
    resolves to a path that starts with [/dev/input/event], and the name the
    device reports contains [Wacom].  A failing [readlink] or a failing name
    query gives false.  Hence a handle whose reported name lacks [Wacom] is not
    adopted by [read] (whatever its path): [wacom_fd] keeps its value and no
    reader thread is started; and after any succession of reads from the
    initial state [wacom_fd] is not that handle. *)
Theorem classify_needs_path_and_name (env : Env) (fd : Z) :
  (is_wacom env fd = true <->
   exists target name,
     readlink env fd = Some target /\
     (exists r, target = ("/dev/input/event" ++ r)%string) /\
     eviocgname env fd = Some name /\
     (exists a b, name = (a ++ "Wacom" ++ b)%string)) /\
  (readlink env fd = None -> is_wacom env fd = false) /\
  (eviocgname env fd = None -> is_wacom env fd = false) /\
  (forall name count s,
     eviocgname env fd = Some name ->
     ~ (exists a b, name = (a ++ "Wacom" ++ b)%string) ->
     let s' := snd (read env fd count s) in
     wacom_fd s' = wacom_fd s /\
     ~ In ThreadCreate (new_effects (trace s) (trace s'))) /\
  (forall name calls,
     eviocgname env fd = Some name ->
     ~ (exists a b, name = (a ++ "Wacom" ++ b)%string) ->
     fd <> -1 ->
     wacom_fd (run_reads env calls init_state) <> fd).
Proof.
  pose proof (is_wacom_spec env fd) as Hspec.
  assert (forall P, (is_wacom env fd = true <-> P) -> ~ P -> is_wacom env fd = false) as Hfalse.
  { intros P Hiff HnP. destruct (is_wacom env fd); [|reflexivity].
    exfalso. apply HnP, Hiff. reflexivity. }
  assert (forall name, eviocgname env fd = Some name ->
            ~ (exists a b, name = (a ++ "Wacom" ++ b)%string) ->
            is_wacom env fd = false) as Hlacking.
  { intros name Hname Hlacks. apply (Hfalse _ Hspec).
    intros (t & n & _ & _ & Hn & Hsub). rewrite Hname in Hn. injection Hn as <-. auto. }
  split; [exact Hspec|]. split; [|split; [|split]].
  - intros Hnone. apply (Hfalse _ Hspec).
    intros (t & n & H & _). congruence.
  - intros Hnone. apply (Hfalse _ Hspec).
    intros (t & n & _ & _ & H & _). congruence.
  - intros name count s Hname Hlacks. apply read_rejected. eauto.
  - intros name calls Hname Hlacks Hfd Heq.
    destruct (run_reads_target env calls init_state (or_introl eq_refl)) as [H|H];
      rewrite Heq in H; [contradiction|].
    rewrite (Hlacking name Hname Hlacks) in H. discriminate.
Qed.

End Locator.

Lemma classify_needs_path_and_name_witness :
  let env := Build_Env (fun _ => Some "/dev/input/event0"%string)
                       (fun _ => Some "gpio-keys"%string)
                       (fun _ _ => (-1, [])) in
  eviocgname env 5 = Some "gpio-keys"%string /\
  Inject.is_wacom env 5 = false /\
  Inject.wacom_fd (snd (Inject.read env 5 64 Inject.init_state)) = -1.
Proof.
  intros env.
  destruct (classify_needs_path_and_name env 5) as (_ & _ & _ & Hread & _).
  assert (~ (exists a b, "gpio-keys"%string = (a ++ "Wacom" ++ b)%string)) as Hlacks.
  { intros H. apply strstr_spec in H. vm_compute in H. discriminate. }
  split; [reflexivity|]. split.
  - vm_compute. reflexivity.
  - exact (proj1 (Hread "gpio-keys"%string 64 Inject.init_state eq_refl Hlacks)).
Defined.

(** ** Interception Shim: the injection path *)

Lemma new_effects_app t new : new_effects t (t ++ new) = new.
Proof. unfold new_effects. rewrite skipn_app, Nat.sub_diag, skipn_all. reflexivity. Qed.

Lemma take_min {A} (l : list A) n : take n l = take (Nat.min n (length l)) l.
Proof.
  destruct (Nat.le_ge_cases n (length l)).
  - rewrite Nat.min_l by assumption. reflexivity.
  - rewrite Nat.min_r by assumption. rewrite !take_ge by lia. reflexivity.
Qed.

Lemma drop_min {A} (l : list A) n : drop n l = drop (Nat.min n (length l)) l.
Proof.
  destruct (Nat.le_ge_cases n (length l)).
  - rewrite Nat.min_l by assumption. reflexivity.
  - rewrite Nat.min_r by assumption. rewrite !drop_ge by lia. reflexivity.
Qed.

Lemma max_events_exact count :
  0 <= count <= SIZE_MAX ->
  wrap (count / sizeof_input_event) = count / sizeof_input_event.
Proof.
  intros H. apply wrap_small. unfold INT_MIN, INT_MAX, SIZE_MAX, sizeof_input_event in *.
  pose proof (Z.div_pos count 16 ltac:(lia) ltac:(lia)).
  assert (count / 16 < 2 ^ 28) by (apply Z.div_lt_upper_bound; lia). lia.
Qed.

Section InjectDrain.

Import Inject.

Lemma drain_spec n : forall s,
  queue_ok s ->
  fst (drain n s) = take n (stored s) /\
  stored (snd (drain n s)) = drop n (stored s).
Proof.
  induction n as [|n IH]; intros s Hok; simpl.
  - auto.
  - destruct (stored s) as [|ev rest] eqn:Hst.
    + rewrite dequeue_empty by assumption. simpl. auto.
    + destruct (dequeue_some s ev rest Hst Hok) as (s' & -> & Hst' & Hok' & _).
      specialize (IH s' Hok'). rewrite Hst' in IH.
      destruct (drain n s') as [evs s'']. simpl in *.
      destruct IH as [-> ->]. auto.
Qed.

Lemma prelude_spec env fd s :
  let s1 := detect_wacom env fd (resolve_original_read s) in
  queue s1 = queue s /\ q_head s1 = q_head s /\ q_tail s1 = q_tail s /\
  (wacom_fd s = fd -> wacom_fd s1 = fd) /\
  exists new, trace s1 = trace s ++ new /\ existsb is_original_read new = false.
Proof.
  unfold detect_wacom, resolve_original_read.
  destruct (original_read s);
    destruct ((wacom_fd _ =? -1) && is_wacom env fd)%bool; cbn;
    repeat split; auto; eexists;
    (split; [try rewrite <- !app_assoc; try reflexivity;
             symmetry; apply app_nil_r | reflexivity]).
Qed.

Lemma has_events_stored s :
  queue_ok s -> has_events s = true -> stored s <> [].
Proof.
  intros (Hlen & Hh & Ht) He Hst. unfold has_events in He.
  apply negb_true_iff, Z.eqb_neq in He. apply He.
  apply (stored_count_empty MAX_QUEUE); [unfold MAX_QUEUE; lia | assumption ..|].
  rewrite <- (stored_length MAX_QUEUE ltac:(unfold MAX_QUEUE; lia) (queue s)).
  fold (stored s). rewrite Hst. reflexivity.
Qed.

Lemma read_injects env fd count s :
  queue_ok s -> wacom_fd s = fd -> has_events s = true ->
  sizeof_input_event <= count <= SIZE_MAX ->
  let '(ret, buf, s') := read env fd count s in
  drained (stored s) count ret buf (stored s') /\
  existsb is_original_read (new_effects (trace s) (trace s')) = false.
Proof.
  intros Hok Hfd He Hcount. unfold read.
  destruct (prelude_spec env fd s) as (Hq & Hh & Ht & Hw & new & Htr & Hnew).
  set (s1 := detect_wacom env fd (resolve_original_read s)) in *.
  assert (stored s1 = stored s) as Hst by (unfold stored; rewrite Hq, Hh, Ht; reflexivity).
  assert (queue_ok s1) as Hok1 by (unfold queue_ok; rewrite Hq, Hh, Ht; exact Hok).
  assert (has_events s1 = true) as He1 by (unfold has_events; rewrite Hh, Ht; exact He).
  rewrite (Hw Hfd), Z.eqb_refl, He1. cbn [andb].
  rewrite max_events_exact by (unfold sizeof_input_event in *; lia).
  destruct (drain_spec (Z.to_nat (count / sizeof_input_event)) s1 Hok1) as [Hevs Hrest].
  pose proof (drain_trace (Z.to_nat (count / sizeof_input_event)) s1) as Hdt.
  destruct (drain (Z.to_nat (count / sizeof_input_event)) s1) as [events s2].
  simpl in Hevs, Hrest, Hdt. rewrite Hst in *.
  pose proof (has_events_stored s Hok He) as Hne.
  pose proof (stored_bound s Hok) as Hb.
  set (k := Nat.min (Z.to_nat (count / sizeof_input_event)) (length (stored s))).
  assert (0 < k)%nat as Hk.
  { assert (1 <= count / sizeof_input_event)
      by (apply Z.div_le_lower_bound; unfold sizeof_input_event in *; lia).
    destruct (stored s); [congruence|]. unfold k. simpl. lia. }
  assert (length events = k) as Hlen
    by (rewrite Hevs, length_take; reflexivity).
  rewrite Hlen.
  destruct (Z.gtb_spec (Z.of_nat k) 0) as [_|]; [|lia].
  split.
  - unfold drained. fold k. split; [exact Hk|].
    split; [rewrite Hevs; apply take_min|].
    split; [rewrite Hrest; apply drop_min|].
    apply wrap_small. unfold INT_MIN, INT_MAX, sizeof_input_event, MAX_QUEUE in *.
    assert (k <= length (stored s))%nat by (unfold k; lia). lia.
  - rewrite Hdt, Htr, new_effects_app. exact Hnew.
Qed.

End InjectDrain.

Section HookDrain.

Import InjectHook.

Lemma hook_drain_spec n : forall s,
  hook_queue_ok s ->
  fst (drain n s) = take n (hook_stored s) /\
  hook_stored (snd (drain n s)) = drop n (hook_stored s) /\
  trace (snd (drain n s)) = trace s /\
  suppress_input (snd (drain n s)) = suppress_input s /\
  last_injection_time (snd (drain n s)) = last_injection_time s /\
  wacom_fd (snd (drain n s)) = wacom_fd s.
Proof.
  induction n as [|n IH]; intros s Hok; simpl.
  - auto 10.
  - destruct (hook_stored s) as [|ev rest] eqn:Hst.
    + rewrite dequeue_event_empty by assumption. simpl. auto 10.
    + destruct (dequeue_event_some s ev rest Hst Hok) as (-> & Hst' & Hok').
      specialize (IH _ Hok'). rewrite Hst' in IH.
      destruct (drain n _) as [evs s'']. simpl in *.
      destruct IH as (-> & -> & -> & -> & -> & ->). auto 10.
Qed.

Lemma hook_prelude_spec env fd s :
  let s1 := detect_wacom env fd (resolve_original_read s) in
  event_queue s1 = event_queue s /\ queue_head s1 = queue_head s /\
  queue_tail s1 = queue_tail s /\
  suppress_input s1 = suppress_input s /\
  last_injection_time s1 = last_injection_time s /\
  last_pen_x s1 = last_pen_x s /\ last_pen_y s1 = last_pen_y s /\
  (wacom_fd s = fd -> wacom_fd s1 = fd) /\
  exists new, trace s1 = trace s ++ new /\ existsb is_original_read new = false.
Proof.
  unfold detect_wacom, resolve_original_read.
  destruct (original_read s);
    destruct ((wacom_fd _ =? -1) && is_wacom_device env fd)%bool; cbn;
    repeat split; auto; eexists;
    (split; [try rewrite <- !app_assoc; try reflexivity;
             symmetry; apply app_nil_r | reflexivity]).
Qed.

Lemma queue_has_events_stored s :
  hook_queue_ok s -> (queue_has_events s = true <-> hook_stored s <> []).
Proof.
  intros (Hlen & Hh & Ht). unfold queue_has_events.
  rewrite negb_true_iff, Z.eqb_neq.
  rewrite <- (stored_count_empty MAX_QUEUE_SIZE) by (unfold MAX_QUEUE_SIZE in *; lia).
  rewrite <- (stored_length MAX_QUEUE_SIZE ltac:(unfold MAX_QUEUE_SIZE; lia) (event_queue s)).
  fold (hook_stored s). destruct (hook_stored s); simpl; split; intros H; congruence || lia.
Qed.

Lemma hook_read_injects env now fd count s :
  hook_queue_ok s -> wacom_fd s = fd -> queue_has_events s = true ->
  sizeof_input_event <= count <= SIZE_MAX ->
  let '(ret, buf, s') := read env now fd count s in
  drained (hook_stored s) count ret buf (hook_stored s') /\
  existsb is_original_read (new_effects (trace s) (trace s')) = false.
Proof.
  intros Hok Hfd He Hcount. unfold read.
  destruct (hook_prelude_spec env fd s)
    as (Hq & Hh & Ht & _ & _ & _ & _ & Hw & new & Htr & Hnew).
  set (s1 := detect_wacom env fd (resolve_original_read s)) in *.
  assert (hook_stored s1 = hook_stored s) as Hst
    by (unfold hook_stored; rewrite Hq, Hh, Ht; reflexivity).
  assert (hook_queue_ok s1) as Hok1 by (unfold hook_queue_ok; rewrite Hq, Hh, Ht; exact Hok).
  assert (queue_has_events s1 = true) as He1
    by (unfold queue_has_events; rewrite Hh, Ht; exact He).
  rewrite (Hw Hfd), Z.eqb_refl, He1. cbn [andb].
  rewrite max_events_exact by (unfold sizeof_input_event in *; lia).
  destruct (hook_drain_spec (Z.to_nat (count / sizeof_input_event)) s1 Hok1)
    as (Hevs & Hrest & Hdt & _).
  destruct (drain (Z.to_nat (count / sizeof_input_event)) s1) as [events s2].
  simpl in Hevs, Hrest, Hdt. rewrite Hst in *.
  pose proof (proj1 (queue_has_events_stored s Hok) He) as Hne.
  pose proof (hook_stored_bound s Hok) as Hb.
  set (k := Nat.min (Z.to_nat (count / sizeof_input_event)) (length (hook_stored s))).
  assert (0 < k)%nat as Hk.
  { assert (1 <= count / sizeof_input_event)
      by (apply Z.div_le_lower_bound; unfold sizeof_input_event in *; lia).
    destruct (hook_stored s); [congruence|]. unfold k. simpl. lia. }
  assert (length events = k) as Hlen
    by (rewrite Hevs, length_take; reflexivity).
  rewrite Hlen.
  destruct (Z.gtb_spec (Z.of_nat k) 0) as [_|]; [|lia].
  split.
  - unfold drained. fold k. split; [exact Hk|].
    split; [rewrite Hevs; apply take_min|].
    split; [rewrite Hrest; apply drop_min|].
    apply wrap_small. unfold INT_MIN, INT_MAX, sizeof_input_event, MAX_QUEUE_SIZE in *.
    assert (k <= length (hook_stored s))%nat by (unfold k; lia). lia.
  - rewrite Hdt, Htr, new_effects_app. exact Hnew.
Qed.

End HookDrain.

(** C1, as amended: when the handle is the resolved target, the queue is not
    empty and the caller asks for at least one record
    ([sizeof(struct input_event) <= count]), [read] hands back the
    [min (count / sizeof(struct input_event)) stored] oldest queued events in
    FIFO order, leaves the others queued, returns that many records' bytes
    and performs no call of the real [read].  Both hooks. *)
Theorem read_drains_queue_first :
  (forall env fd count (s : Inject.state),
     queue_ok s -> Inject.wacom_fd s = fd -> Inject.has_events s = true ->
     sizeof_input_event <= count <= SIZE_MAX ->
     let '(ret, buf, s') := Inject.read env fd count s in
     drained (stored s) count ret buf (stored s') /\
     existsb is_original_read (new_effects (Inject.trace s) (Inject.trace s')) = false) /\
  (forall env now fd count (s : InjectHook.state),
     hook_queue_ok s -> InjectHook.wacom_fd s = fd ->
     InjectHook.queue_has_events s = true ->
     sizeof_input_event <= count <= SIZE_MAX ->
     let '(ret, buf, s') := InjectHook.read env now fd count s in
     drained (hook_stored s) count ret buf (hook_stored s') /\
     existsb is_original_read
       (new_effects (InjectHook.trace s) (InjectHook.trace s')) = false).
Proof.
  split.
  - intros env fd count s. apply read_injects.
  - intros env now fd count s. apply hook_read_injects.
Qed.

Lemma read_drains_queue_first_witness :
  let s := Inject.pen_down 702 936 (Inject.set_wacom_fd 3 Inject.init_state) in
  queue_ok s /\ Inject.wacom_fd s = 3 /\ Inject.has_events s = true /\
  sizeof_input_event <= 64 <= SIZE_MAX /\
  (let '(ret, buf, s') := Inject.read tablet 3 64 s in
   drained (stored s) 64 ret buf (stored s') /\
   existsb is_original_read (new_effects (Inject.trace s) (Inject.trace s')) = false) /\
  fst (Inject.read tablet 3 64 s) =
    (64, [make_event EV_KEY BTN_TOOL_PEN 1; make_event EV_KEY BTN_TOUCH 1;
          make_event EV_ABS ABS_X 10483; make_event EV_ABS ABS_Y 7862]) /\
  stored (snd (Inject.read tablet 3 64 s)) =
    [make_event EV_ABS ABS_PRESSURE 2000; make_event EV_SYN SYN_REPORT 0].
Proof.
  intros s.
  assert (queue_ok s) as H1 by (repeat split; vm_compute; congruence).
  assert (Inject.wacom_fd s = 3) as H2 by (vm_compute; reflexivity).
  assert (Inject.has_events s = true) as H3 by (vm_compute; reflexivity).
  assert (sizeof_input_event <= 64 <= SIZE_MAX) as H4 by (vm_compute; split; congruence).
  split; [exact H1|]. split; [exact H2|]. split; [exact H3|]. split; [exact H4|].
  split; [exact (proj1 read_drains_queue_first tablet 3 64 s H1 H2 H3 H4)|].
  split; vm_compute; reflexivity.
Defined.

(** C1, as stated, fails for a request shorter than one record: nothing is
    drained and the real [read] is called, although the handle is the target
    and an event is queued. *)
Lemma read_short_request_reaches_real_read :
  let ev := make_event EV_KEY BTN_TOUCH 1 in
  let s := Inject.enqueue ev (Inject.set_wacom_fd 3 Inject.init_state) in
  Inject.wacom_fd s = 3 /\ Inject.has_events s = true /\ stored s = [ev] /\
  (let '(ret, buf, s') := Inject.read tablet 3 8 s in
   ret = -1 /\ buf = [] /\ stored s' = [ev] /\
   new_effects (Inject.trace s) (Inject.trace s') = [Dlsym; OriginalRead 3 8]).
Proof. vm_compute. repeat split; reflexivity. Qed.

(** ** Suppression Controller (v4 hook) *)

Section Suppression.

Import InjectHook.

Lemma queue_event_frame ev s :
  let s' := queue_event ev s in
  suppress_input s' = suppress_input s /\
  last_injection_time s' = last_injection_time s /\
  wacom_fd s' = wacom_fd s /\
  last_pen_x s' = last_pen_x s /\ last_pen_y s' = last_pen_y s.
Proof.
  unfold queue_event.
  destruct (int_rem (int_add (queue_tail s) 1) MAX_QUEUE_SIZE =? queue_head s);
    simpl; auto.
Qed.

Lemma queue_event_suppress ev s : suppress_input (queue_event ev s) = suppress_input s.
Proof. apply queue_event_frame. Qed.

Lemma queue_event_time ev s :
  last_injection_time (queue_event ev s) = last_injection_time s.
Proof. apply queue_event_frame. Qed.

Lemma track_event_frame s ev :
  let s' := track_event s ev in
  event_queue s' = event_queue s /\ queue_head s' = queue_head s /\
  queue_tail s' = queue_tail s /\ suppress_input s' = suppress_input s /\
  last_injection_time s' = last_injection_time s /\ trace s' = trace s.
Proof.
  unfold track_event.
  destruct (type ev =? EV_ABS); [|auto 10].
  destruct (code ev =? ABS_X); [simpl; auto 10|].
  destruct (code ev =? ABS_Y); simpl; auto 10.
Qed.

Lemma track_stylus_position_frame events count s :
  let s' := track_stylus_position events count s in
  event_queue s' = event_queue s /\ queue_head s' = queue_head s /\
  queue_tail s' = queue_tail s /\ suppress_input s' = suppress_input s /\
  last_injection_time s' = last_injection_time s /\ trace s' = trace s.
Proof.
  unfold track_stylus_position.
  generalize (take (Z.to_nat count) events). intros l. revert s.
  induction l as [|ev l IH]; intros s; simpl; [auto 10|].
  destruct (IH (track_event s ev)) as (-> & -> & -> & -> & -> & ->).
  apply track_event_frame.
Qed.

Lemma genuine_read_spec env now fd count s result data :
  wacom_fd s = fd ->
  real_read env fd count = (result, data) ->
  0 < result ->
  let '(ret, buf, s') := genuine_read env now fd count s in
  let elapsed := timediff_ms (last_injection_time s) now in
  same_queue s s' /\
  trace s' = trace s ++ [OriginalRead fd count] /\
  (suppression_state s = Suppressing -> elapsed <= SUPPRESSION_MS ->
   ret = 0 /\ suppression_state s' = Suppressing /\
   last_injection_time s' = last_injection_time s /\
   last_pen_x s' = last_pen_x s /\ last_pen_y s' = last_pen_y s) /\
  (SUPPRESSION_MS < elapsed ->
   ret = result /\ buf = data /\ suppression_state s' = Quiet).
Proof.
  intros <- Hreal Hpos. unfold genuine_read. rewrite Hreal.
  cbn [wacom_fd emit suppress_input last_injection_time].
  rewrite Z.eqb_refl.
  destruct (Z.gtb_spec result 0) as [_|]; [|lia]. cbn [andb].
  unfold suppression_state.
  destruct (Z.eqb_spec (suppress_input s) 0) as [Hq|Hs]; cbn [negb].
  - pose proof (track_stylus_position_frame data (wrap (result / sizeof_input_event))
                  (emit (OriginalRead (wacom_fd s) count) s))
      as (E1 & E2 & E3 & E4 & E5 & E6).
    cbn [event_queue queue_head queue_tail suppress_input trace emit] in *.
    split; [unfold same_queue; auto|].
    split; [exact E6|].
    split; [discriminate|].
    intros _. rewrite E4. destruct (Z.eqb_spec (suppress_input s) 0); [auto | contradiction].
  - destruct (Z.gtb_spec (timediff_ms (last_injection_time s) now) SUPPRESSION_MS) as [Hgt|Hle].
    + pose proof (track_stylus_position_frame data (wrap (result / sizeof_input_event))
                    (set_suppress_input 0 (emit (OriginalRead (wacom_fd s) count) s)))
        as (E1 & E2 & E3 & E4 & E5 & E6).
      cbn [event_queue queue_head queue_tail suppress_input trace emit
           set_suppress_input] in *.
      split; [unfold same_queue; auto|].
      split; [exact E6|].
      split; [intros _ Hc; lia|].
      intros _. rewrite E4. auto.
    + cbn [event_queue queue_head queue_tail suppress_input trace emit
           last_injection_time last_pen_x last_pen_y].
      split; [unfold same_queue; auto|].
      split; [reflexivity|].
      split; [|intros Hc; lia].
      intros _ _. destruct (Z.eqb_spec (suppress_input s) 0); [contradiction | auto 10].
Qed.

(** C2, as amended: a genuine read of the target device (the queue has
    nothing to hand out, or the request is shorter than one record) that
    returns data ([result > 0]) is treated by the elapsed time
    [timediff_ms last_injection_time now], in whole milliseconds.  While the
    controller is Suppressing and the elapsed time has not exceeded
    [SUPPRESSION_MS] = 150, zero is returned and the controller stays
    Suppressing; once the elapsed time exceeds 150 the controller is Quiet and
    the real result and data are returned as they are.  In both cases the
    queue is left as it was. *)
Theorem genuine_read_suppression
  (env : Env) (now : timespec) (fd count : Z) (s : state)
  (result : Z) (data : list input_event) :
  wacom_fd s = fd ->
  queue_has_events s = false \/ 0 <= count < sizeof_input_event ->
  real_read env fd count = (result, data) ->
  0 < result ->
  let '(ret, buf, s') := read env now fd count s in
  let elapsed := timediff_ms (last_injection_time s) now in
  same_queue s s' /\
  In (OriginalRead fd count) (new_effects (trace s) (trace s')) /\
  (suppression_state s = Suppressing -> elapsed <= SUPPRESSION_MS ->
   ret = 0 /\ suppression_state s' = Suppressing /\
   last_injection_time s' = last_injection_time s) /\
  (SUPPRESSION_MS < elapsed ->
   ret = result /\ buf = data /\ suppression_state s' = Quiet).
Proof.
  intros Hfd Hgen Hreal Hpos. unfold read.
  destruct (hook_prelude_spec env fd s)
    as (Hq & Hh & Ht & Hsup & Htime & _ & _ & Hw & new & Htr & _).
  set (s1 := detect_wacom env fd (resolve_original_read s)) in *.
  assert (let '(ret, buf, s') := genuine_read env now fd count s1 in
          let elapsed := timediff_ms (last_injection_time s) now in
          same_queue s s' /\
          In (OriginalRead fd count) (new_effects (trace s) (trace s')) /\
          (suppression_state s = Suppressing -> elapsed <= SUPPRESSION_MS ->
           ret = 0 /\ suppression_state s' = Suppressing /\
           last_injection_time s' = last_injection_time s) /\
          (SUPPRESSION_MS < elapsed ->
           ret = result /\ buf = data /\ suppression_state s' = Quiet)) as Hgr.
  { pose proof (genuine_read_spec env now fd count s1 result data (Hw Hfd) Hreal Hpos) as H.
    destruct (genuine_read env now fd count s1) as [[ret buf] s'].
    cbv zeta in H. destruct H as ((Q1 & Q2 & Q3) & Htr' & Hs & Hp).
    assert (suppression_state s1 = suppression_state s) as Hss
      by (unfold suppression_state; rewrite Hsup; reflexivity).
    rewrite Hss, Htime in *.
    split; [unfold same_queue; rewrite Q1, Q2, Q3; auto|].
    split.
    { rewrite Htr', Htr, <- app_assoc, new_effects_app.
      apply in_app_iff. right. left. reflexivity. }
    split; [|exact Hp].
    intros A B. destruct (Hs A B) as (? & ? & ? & _). auto. }
  destruct Hgen as [Hempty | Hshort].
  - assert (queue_has_events s1 = false) as ->
      by (unfold queue_has_events; rewrite Hh, Ht; exact Hempty).
    rewrite andb_false_r. exact Hgr.
  - destruct ((fd =? wacom_fd s1) && queue_has_events s1)%bool; [|exact Hgr].
    assert (count / sizeof_input_event = 0) as ->
      by (apply Z.div_small; exact Hshort).
    exact Hgr.
Qed.

End Suppression.

Section SuppressionScenario.

Import InjectHook.

Lemma genuine_read_suppression_witness :
  let s := after_pen_down pen_tablet in
  let soon := Timespec 100 50000000 in
  let late := Timespec 100 200000000 in
  wacom_fd s = 3 /\ queue_has_events s = false /\
  real_read pen_tablet 3 96 = (32, stylus_sample) /\ 0 < 32 /\
  suppression_state s = Suppressing /\
  timediff_ms (last_injection_time s) soon = 50 /\
  timediff_ms (last_injection_time s) late = 200 /\
  (let '(ret, buf, s') := read pen_tablet soon 3 96 s in
   ret = 0 /\ suppression_state s' = Suppressing /\ same_queue s s') /\
  (let '(ret, buf, s') := read pen_tablet late 3 96 s in
   ret = 32 /\ buf = stylus_sample /\ suppression_state s' = Quiet /\ same_queue s s').
Proof.
  intros s soon late.
  assert (wacom_fd s = 3) as H1 by (vm_compute; reflexivity).
  assert (queue_has_events s = false) as H2 by (vm_compute; reflexivity).
  assert (real_read pen_tablet 3 96 = (32, stylus_sample)) as H3 by reflexivity.
  assert (0 < 32) as H4 by lia.
  assert (suppression_state s = Suppressing) as H5 by (vm_compute; reflexivity).
  assert (timediff_ms (last_injection_time s) soon = 50) as H6 by (vm_compute; reflexivity).
  assert (timediff_ms (last_injection_time s) late = 200) as H7 by (vm_compute; reflexivity).
  repeat (split; [assumption|]).
  split.
  - pose proof (genuine_read_suppression pen_tablet soon 3 96 s 32 stylus_sample
                  H1 (or_introl H2) H3 H4) as W.
    destruct (read pen_tablet soon 3 96 s) as [[ret buf] s'].
    cbv zeta in W. destruct W as (Q & _ & Hs & _).
    rewrite H6 in Hs. destruct (Hs H5 ltac:(unfold SUPPRESSION_MS; lia)) as (? & ? & _).
    auto.
  - pose proof (genuine_read_suppression pen_tablet late 3 96 s 32 stylus_sample
                  H1 (or_introl H2) H3 H4) as W.
    destruct (read pen_tablet late 3 96 s) as [[ret buf] s'].
    cbv zeta in W. destruct W as (Q & _ & _ & Hp).
    rewrite H7 in Hp. destruct (Hp ltac:(unfold SUPPRESSION_MS; lia)) as (? & ? & ?).
    auto.
Defined.

(** C2, as stated, fails for a genuine read that brings no data: inside the
    window a failing real [read] has its [-1] returned, not zero. *)
Lemma failed_read_is_passed_through :
  let s := after_pen_down tablet in
  let soon := Timespec 100 50000000 in
  wacom_fd s = 3 /\ queue_has_events s = false /\
  suppression_state s = Suppressing /\
  timediff_ms (last_injection_time s) soon = 50 /\
  real_read tablet 3 96 = (-1, []) /\
  (let '(ret, buf, s') := read tablet soon 3 96 s in
   ret = -1 /\ new_effects (trace s) (trace s') = [OriginalRead 3 96]).
Proof. vm_compute. repeat split; reflexivity. Qed.

(** ** Suppression transitions of the command channel (v4 hook) *)

Lemma pen_down_suppresses now x y s :
  suppression_state (pen_down now x y s) = Suppressing /\
  last_injection_time (pen_down now x y s) = now.
Proof. unfold pen_down. auto. Qed.

Lemma pen_move_no_transition x y s :
  suppress_input (pen_move x y s) = suppress_input s /\
  last_injection_time (pen_move x y s) = last_injection_time s.
Proof.
  unfold pen_move. rewrite !queue_event_suppress, !queue_event_time. auto.
Qed.

Lemma pen_up_keeps_flag now s :
  suppress_input (pen_up now s) = suppress_input s /\
  last_injection_time (pen_up now s) = now.
Proof.
  unfold pen_up.
  set (s3 := queue_event _ (queue_event _ (queue_event _ s))).
  assert (suppress_input (set_last_injection_time now s3) = suppress_input s3) as ->
    by reflexivity.
  unfold s3. rewrite !queue_event_suppress. split; reflexivity.
Qed.

(** C3, the code against the claim.  [PEN_DOWN] enters Suppressing and
    records the time, [PEN_MOVE] changes neither; but [PEN_UP] only records
    the time: [suppress_input] keeps its value, so from Quiet the controller
    stays Quiet. *)
Theorem pen_up_does_not_enter_suppressing
  (now : timespec) (x0 y0 : Z) (s : state) :
  process_buf now x0 y0 (terminated "PEN_DOWN 10 20") s = Some (pen_down now 10 20 s) /\
  suppression_state (pen_down now 10 20 s) = Suppressing /\
  last_injection_time (pen_down now 10 20 s) = now /\
  process_buf now x0 y0 (terminated "PEN_MOVE 10 20") s = Some (pen_move 10 20 s) /\
  suppression_state (pen_move 10 20 s) = suppression_state s /\
  last_injection_time (pen_move 10 20 s) = last_injection_time s /\
  process_buf now x0 y0 (terminated "PEN_UP") s = Some (pen_up now s) /\
  last_injection_time (pen_up now s) = now /\
  suppression_state (pen_up now s) = suppression_state s /\
  suppression_state (pen_up now init_state) = Quiet.
Proof.
  destruct (pen_move_no_transition 10 20 s) as [M1 M2].
  destruct (pen_up_keeps_flag now s) as [U1 U2].
  destruct (pen_up_keeps_flag now init_state) as [I1 _].
  unfold suppression_state. rewrite M1, U1, I1.
  repeat split; auto.
Qed.

End SuppressionScenario.

(** ** Command Channel: keywords and arguments *)

Lemma sscanf_keyword line cmd0 x0 y0 sc :
  sscanf_s_d_d 32 line cmd0 x0 y0 = Some sc ->
  (matched sc = -1 /\ skip_space line = EmptyString /\ cmd_out sc = cmd0) \/
  (1 <= matched sc /\ cmd_out sc = keyword line /\
   (scan_int (arguments line) = None -> x_out sc = x0 /\ y_out sc = y0)).
Proof.
  unfold sscanf_s_d_d, keyword, arguments.
  destruct (skip_space line) as [|c r] eqn:E.
  - intros H. injection H as <-. left. auto.
  - destruct (span (fun c : ascii => negb (isspace c)) (String c r)) as [tok s2].
    destruct (32 <=? String.length tok)%nat; [discriminate|].
    cbn [fst snd].
    destruct (scan_int s2) as [[xv s3]|].
    + destruct (scan_int s3) as [[yv s4]|]; intros H; injection H as <-;
        right; cbn; repeat split; try lia; discriminate.
    + intros H. injection H as <-. right. cbn. repeat split; try lia; auto.
Qed.

Lemma sscanf_fits line cmd0 x0 y0 :
  (String.length (keyword line) < 32)%nat ->
  exists sc, sscanf_s_d_d 32 line cmd0 x0 y0 = Some sc.
Proof.
  unfold sscanf_s_d_d, keyword.
  destruct (skip_space line) as [|c r] eqn:E; [eauto|].
  destruct (span (fun c : ascii => negb (isspace c)) (String c r)) as [tok s2].
  cbn [fst]. intros Hlen.
  destruct (Nat.leb_spec 32 (String.length tok)); [lia|].
  destruct (scan_int s2) as [[xv s3]|]; [destruct (scan_int s3) as [[yv s4]|]|]; eauto.
Qed.

Lemma sscanf_arguments line cmd0 x0 y0 sc :
  sscanf_s_d_d 32 line cmd0 x0 y0 = Some sc ->
  1 <= matched sc ->
  cmd_out sc = keyword line /\
  x_out sc = converted_x line x0 /\ y_out sc = converted_y line y0.
Proof.
  unfold sscanf_s_d_d, keyword, converted_x, converted_y, arguments.
  destruct (skip_space line) as [|c r] eqn:E.
  - intros H. injection H as <-. cbn. lia.
  - destruct (span (fun c : ascii => negb (isspace c)) (String c r)) as [tok s2].
    destruct (32 <=? String.length tok)%nat; [discriminate|].
    cbn [fst snd].
    destruct (scan_int s2) as [[xv s3]|].
    + destruct (scan_int s3) as [[yv s4]|]; intros H _; injection H as <-; cbn; auto.
    + intros H _. injection H as <-. cbn. auto.
Qed.

Lemma keyword_of_comment r : exists k, keyword (String "#" r) = String "#" k.
Proof.
  assert (isspace "#" = false) as E by reflexivity.
  unfold keyword. cbn [skip_space]. rewrite E. cbn [span]. rewrite E. cbn [negb].
  destruct (span (fun c : ascii => negb (isspace c)) r) as [tok tl]. cbn. eauto.
Qed.

Lemma not_in_keywords k a b c d :
  ~ In k [a; b; c; d] ->
  String.eqb k a = false /\ String.eqb k b = false /\
  String.eqb k c = false /\ String.eqb k d = false.
Proof.
  intros H. repeat split; apply String.eqb_neq; intros ->; apply H; simpl; auto.
Qed.

Section InjectCommands.

Import Inject.

Lemma run_command_unknown line s :
  (String.length (keyword line) < 32)%nat ->
  ~ In (keyword line) inject_keywords ->
  run_command line s = Some s.
Proof.
  intros Hlen Hun. unfold run_command.
  destruct (sscanf_fits line EmptyString 0 0 Hlen) as [sc Hsc]. rewrite Hsc.
  destruct (sscanf_keyword _ _ _ _ _ Hsc) as [(Hm & _) | (Hm & Hk & _)].
  - rewrite Hm. reflexivity.
  - destruct (Z.geb_spec (matched sc) 1); [|reflexivity].
    rewrite Hk. destruct (not_in_keywords _ _ _ _ _ Hun) as (-> & -> & -> & ->).
    reflexivity.
Qed.

Lemma process_line_unknown line s :
  (String.length (keyword line) < 32)%nat ->
  ~ In (keyword line) inject_keywords ->
  process_line line s = Some s.
Proof.
  intros Hlen Hun. unfold process_line.
  destruct line as [|c r]; [reflexivity|].
  destruct (Ascii.eqb c "#"); [reflexivity|].
  apply run_command_unknown; assumption.
Qed.

Lemma process_line_known line s :
  In (keyword line) inject_keywords -> process_line line s = run_command line s.
Proof.
  intros Hin. unfold process_line.
  destruct line as [|c r].
  - exfalso. cbn in Hin. intuition discriminate.
  - destruct (Ascii.eqb_spec c "#") as [->|]; [|reflexivity].
    exfalso. destruct (keyword_of_comment r) as [k Hk]. rewrite Hk in Hin.
    cbn in Hin. intuition discriminate.
Qed.

Lemma run_command_defaults line s :
  In (keyword line) inject_keywords ->
  scan_int (arguments line) = None ->
  run_command line s =
    if String.eqb (keyword line) "PEN_DOWN" then Some (pen_down 0 0 s)
    else if String.eqb (keyword line) "PEN_MOVE" then Some (pen_move 0 0 s)
    else if String.eqb (keyword line) "PEN_UP" then Some (pen_up s)
    else Some s.
Proof.
  intros Hin Hargs. unfold run_command.
  assert (String.length (keyword line) < 32)%nat as Hlen.
  { cbn in Hin. destruct Hin as [<-|[<-|[<-|[<-|[]]]]]; cbn; lia. }
  destruct (sscanf_fits line EmptyString 0 0 Hlen) as [sc Hsc]. rewrite Hsc.
  destruct (sscanf_keyword _ _ _ _ _ Hsc) as [(_ & He & _) | (Hm & Hk & Hxy)].
  - exfalso. unfold keyword in Hin. rewrite He in Hin. cbn in Hin. intuition discriminate.
  - destruct (Hxy Hargs) as [-> ->]. rewrite Hk.
    destruct (Z.geb_spec (matched sc) 1); [|lia].
    destruct (String.eqb (keyword line) "PEN_DOWN"); [reflexivity|].
    destruct (String.eqb (keyword line) "PEN_MOVE"); [reflexivity|].
    destruct (String.eqb (keyword line) "PEN_UP"); [reflexivity|].
    destruct (String.eqb (keyword line) "DELAY"); reflexivity.
Qed.

Lemma known_keyword_scans line cmd0 x0 y0 (known : list string) :
  In (keyword line) known ->
  Forall (fun k => 0 < String.length k < 32)%nat known ->
  exists sc, sscanf_s_d_d 32 line cmd0 x0 y0 = Some sc /\ 1 <= matched sc.
Proof.
  intros Hin Hall.
  assert (0 < String.length (keyword line) < 32)%nat as Hlen
    by exact (proj1 (List.Forall_forall _ _) Hall _ Hin).
  destruct (sscanf_fits line cmd0 x0 y0 (proj2 Hlen)) as [sc Hsc].
  exists sc. split; [exact Hsc|].
  destruct (sscanf_keyword _ _ _ _ _ Hsc) as [(_ & He & _) | (Hm & _)]; [|exact Hm].
  exfalso. unfold keyword in Hlen. rewrite He in Hlen. cbn in Hlen. lia.
Qed.

Lemma inject_keywords_fit :
  Forall (fun k => 0 < String.length k < 32)%nat inject_keywords.
Proof. repeat constructor; cbn; lia. Qed.

Lemma hook_keywords_fit :
  Forall (fun k => 0 < String.length k < 32)%nat hook_keywords.
Proof. repeat constructor; cbn; lia. Qed.

Lemma run_command_arguments line s :
  In (keyword line) inject_keywords ->
  run_command line s =
    if String.eqb (keyword line) "PEN_DOWN"
    then Some (pen_down (converted_x line 0) (converted_y line 0) s)
    else if String.eqb (keyword line) "PEN_MOVE"
    then Some (pen_move (converted_x line 0) (converted_y line 0) s)
    else if String.eqb (keyword line) "PEN_UP" then Some (pen_up s)
    else Some (delay (converted_x line 0) s).
Proof.
  intros Hin. unfold run_command.
  destruct (known_keyword_scans line EmptyString 0 0 _ Hin inject_keywords_fit)
    as (sc & Hsc & Hm).
  rewrite Hsc. destruct (sscanf_arguments _ _ _ _ _ Hsc Hm) as (-> & -> & ->).
  destruct (Z.geb_spec (matched sc) 1) as [_|Hlt]; [|lia].
  destruct (String.eqb_spec (keyword line) "PEN_DOWN") as [_|N1]; [reflexivity|].
  destruct (String.eqb_spec (keyword line) "PEN_MOVE") as [_|N2]; [reflexivity|].
  destruct (String.eqb_spec (keyword line) "PEN_UP") as [_|N3]; [reflexivity|].
  destruct (String.eqb_spec (keyword line) "DELAY") as [_|N4]; [reflexivity|].
  exfalso. cbn in Hin. destruct Hin as [E|[E|[E|[E|[]]]]]; congruence.
Qed.

End InjectCommands.

Lemma process_buf_arguments now x0 y0 buf s :
  In (keyword (cstr buf)) hook_keywords ->
  InjectHook.process_buf now x0 y0 buf s =
    let x := converted_x (cstr buf) x0 in
    let y := converted_y (cstr buf) y0 in
    if String.eqb (keyword (cstr buf)) "PEN_DOWN" then Some (InjectHook.pen_down now x y s)
    else if String.eqb (keyword (cstr buf)) "PEN_MOVE" then Some (InjectHook.pen_move x y s)
    else if String.eqb (keyword (cstr buf)) "PEN_UP" then Some (InjectHook.pen_up now s)
    else Some (InjectHook.get_cursor s).
Proof.
  intros Hin. unfold InjectHook.process_buf.
  destruct (known_keyword_scans (cstr buf) EmptyString x0 y0 _ Hin hook_keywords_fit)
    as (sc & Hsc & Hm).
  rewrite Hsc. destruct (sscanf_arguments _ _ _ _ _ Hsc Hm) as (-> & -> & ->).
  destruct (Z.geb_spec (matched sc) 1) as [_|Hlt]; [|lia]. cbv zeta.
  destruct (String.eqb_spec (keyword (cstr buf)) "PEN_DOWN") as [_|N1]; [reflexivity|].
  destruct (String.eqb_spec (keyword (cstr buf)) "PEN_MOVE") as [_|N2]; [reflexivity|].
  destruct (String.eqb_spec (keyword (cstr buf)) "PEN_UP") as [_|N3]; [reflexivity|].
  destruct (String.eqb_spec (keyword (cstr buf)) "GET_CURSOR") as [_|N4]; [reflexivity|].
  exfalso. cbn in Hin. destruct Hin as [E|[E|[E|[E|[]]]]]; congruence.
Qed.

Lemma process_buf_unknown now x0 y0 buf s :
  (String.length (keyword (cstr buf)) < 32)%nat ->
  ~ In (keyword (cstr buf)) hook_keywords ->
  InjectHook.process_buf now x0 y0 buf s = Some s.
Proof.
  intros Hlen Hun. unfold InjectHook.process_buf.
  destruct (sscanf_fits (cstr buf) EmptyString x0 y0 Hlen) as [sc Hsc]. rewrite Hsc.
  destruct (sscanf_keyword _ _ _ _ _ Hsc) as [(Hm & _) | (Hm & Hk & _)].
  - rewrite Hm. reflexivity.
  - destruct (Z.geb_spec (matched sc) 1); [|reflexivity].
    rewrite Hk. destruct (not_in_keywords _ _ _ _ _ Hun) as (-> & -> & -> & ->).
    reflexivity.
Qed.

(** C7, as amended.  A line whose keyword is none of the hook's own (and
    fits the 32-byte [cmd] array) changes nothing: the state after the line is
    the state before it, and the line loop goes on with the next line; the
    same holds for a chunk in the v4 hook, suppression state included.  A
    line with a known keyword is executed whatever its arguments are: each
    argument that [sscanf] converts has its value, and each one that it does
    not convert keeps what the variable held, which is the initial 0 in
    [inject.c] and whatever the uninitialised variable holds in the v4 hook.
    So when the first argument is not a decimal integer [PEN_DOWN] and
    [PEN_MOVE] queue their events for (0, 0), when only the second is not
    they queue them for ([x], 0); [PEN_UP] queues its events; and [DELAY]
    acts on its first argument alone, doing nothing when it is not
    converted. *)
Theorem unknown_keyword_changes_nothing :
  (forall line s,
     (String.length (keyword line) < 32)%nat ->
     ~ In (keyword line) inject_keywords ->
     Inject.process_line line s = Some s /\
     forall rest, Inject.process_lines (line :: rest) s = Inject.process_lines rest s) /\
  (forall now x0 y0 buf s,
     (String.length (keyword (cstr buf)) < 32)%nat ->
     ~ In (keyword (cstr buf)) hook_keywords ->
     InjectHook.process_buf now x0 y0 buf s = Some s) /\
  (forall line s,
     In (keyword line) inject_keywords ->
     scan_int (arguments line) = None ->
     Inject.process_line line s =
       if String.eqb (keyword line) "PEN_DOWN" then Some (Inject.pen_down 0 0 s)
       else if String.eqb (keyword line) "PEN_MOVE" then Some (Inject.pen_move 0 0 s)
       else if String.eqb (keyword line) "PEN_UP" then Some (Inject.pen_up s)
       else Some s) /\
  (forall line s,
     In (keyword line) inject_keywords ->
     let x := converted_x line 0 in
     let y := converted_y line 0 in
     Inject.process_line line s =
       if String.eqb (keyword line) "PEN_DOWN" then Some (Inject.pen_down x y s)
       else if String.eqb (keyword line) "PEN_MOVE" then Some (Inject.pen_move x y s)
       else if String.eqb (keyword line) "PEN_UP" then Some (Inject.pen_up s)
       else Some (Inject.delay x s)) /\
  (forall now x0 y0 buf s,
     In (keyword (cstr buf)) hook_keywords ->
     let x := converted_x (cstr buf) x0 in
     let y := converted_y (cstr buf) y0 in
     InjectHook.process_buf now x0 y0 buf s =
       if String.eqb (keyword (cstr buf)) "PEN_DOWN"
       then Some (InjectHook.pen_down now x y s)
       else if String.eqb (keyword (cstr buf)) "PEN_MOVE"
       then Some (InjectHook.pen_move x y s)
       else if String.eqb (keyword (cstr buf)) "PEN_UP"
       then Some (InjectHook.pen_up now s)
       else Some (InjectHook.get_cursor s)).
Proof.
  split; [|split; [|split; [|split]]].
  - intros line s Hlen Hun.
    pose proof (process_line_unknown line s Hlen Hun) as H.
    split; [exact H|]. intros rest. cbn [Inject.process_lines]. rewrite H. reflexivity.
  - apply process_buf_unknown.
  - intros line s Hin Hargs. rewrite process_line_known by exact Hin.
    apply run_command_defaults; assumption.
  - intros line s Hin x y. rewrite process_line_known by exact Hin.
    apply run_command_arguments, Hin.
  - intros now x0 y0 buf s Hin. apply process_buf_arguments, Hin.
Qed.

Lemma unknown_keyword_changes_nothing_witness :
  let s := Inject.pen_up Inject.init_state in
  ((String.length (keyword "ERASE 1 2") < 32)%nat /\
   ~ In (keyword "ERASE 1 2") inject_keywords /\
   Inject.process_line "ERASE 1 2" s = Some s /\
   Inject.process_lines ["ERASE 1 2"; "PEN_UP"]%string s = Some (Inject.pen_up s)) /\
  (In (keyword "PEN_MOVE x=3") inject_keywords /\
   scan_int (arguments "PEN_MOVE x=3") = None /\
   Inject.process_line "PEN_MOVE x=3" s = Some (Inject.pen_move 0 0 s)) /\
  (In (keyword "PEN_MOVE 10 abc") inject_keywords /\
   converted_x "PEN_MOVE 10 abc" 0 = 10 /\ converted_y "PEN_MOVE 10 abc" 0 = 0 /\
   Inject.process_line "PEN_MOVE 10 abc" s = Some (Inject.pen_move 10 0 s)) /\
  (In (keyword "DELAY 20 abc") inject_keywords /\
   Inject.process_line "DELAY 20 abc" s = Some (Inject.delay 20 s)).
Proof.
  intros s.
  destruct unknown_keyword_changes_nothing as (U & _ & K & A & _).
  assert ((String.length (keyword "ERASE 1 2") < 32)%nat) as H1 by (vm_compute; lia).
  assert (~ In (keyword "ERASE 1 2") inject_keywords) as H2
    by (vm_compute; intuition discriminate).
  assert (In (keyword "PEN_MOVE x=3") inject_keywords) as H3
    by (vm_compute; auto).
  assert (scan_int (arguments "PEN_MOVE x=3") = None) as H4 by (vm_compute; reflexivity).
  assert (In (keyword "PEN_MOVE 10 abc") inject_keywords) as H5 by (vm_compute; auto).
  assert (In (keyword "DELAY 20 abc") inject_keywords) as H6 by (vm_compute; auto 6).
  split; [|split; [|split]].
  - destruct (U "ERASE 1 2"%string s H1 H2) as [E1 E2].
    split; [exact H1|]. split; [exact H2|]. split; [exact E1|].
    rewrite E2. reflexivity.
  - split; [exact H3|]. split; [exact H4|]. exact (K "PEN_MOVE x=3"%string s H3 H4).
  - split; [exact H5|]. split; [reflexivity|]. split; [reflexivity|].
    exact (A "PEN_MOVE 10 abc"%string s H5).
  - split; [exact H6|]. exact (A "DELAY 20 abc"%string s H6).
Defined.

(** C7, as stated, fails for a known keyword with malformed arguments:
    [PEN_DOWN abc def] queues the six events of a pen-down at display (0, 0). *)
Lemma malformed_pen_down_is_queued :
  let line := "PEN_DOWN abc def"%string in
  keyword line = "PEN_DOWN"%string /\
  scan_int (arguments line) = None /\
  stored Inject.init_state = [] /\
  option_map stored (Inject.process_line line Inject.init_state) =
    Some [make_event EV_KEY BTN_TOOL_PEN 1; make_event EV_KEY BTN_TOUCH 1;
          make_event EV_ABS ABS_X 20966; make_event EV_ABS ABS_Y 0;
          make_event EV_ABS ABS_PRESSURE 2000; make_event EV_SYN SYN_REPORT 0].
Proof. vm_compute. repeat split; reflexivity. Qed.

(** ** What a relation kept by every command is kept by *)

Section ChannelLift.

Import Inject.

Variable R : state -> state -> Prop.
Hypothesis R_refl : forall s, R s s.
Hypothesis R_trans : forall a b c, R a b -> R b c -> R a c.
Hypothesis R_enqueue : forall ev s, R s (enqueue ev s).
Hypothesis R_warn : forall f args s, R s (emit (Stderr f args) s).
Hypothesis R_delay : forall x s, R s (delay x s).

Lemma lift_pen_down x y s : R s (pen_down x y s).
Proof using R_refl R_trans R_enqueue R_warn.
  unfold pen_down. cbv zeta.
  do 6 (eapply R_trans; [|apply R_enqueue]).
  destruct (_ || _ || _ || _)%bool; [apply R_warn | apply R_refl].
Qed.

Lemma lift_pen_move x y s : R s (pen_move x y s).
Proof using R_refl R_trans R_enqueue.
  unfold pen_move. cbv zeta.
  do 3 (eapply R_trans; [|apply R_enqueue]). apply R_enqueue.
Qed.

Lemma lift_pen_up s : R s (pen_up s).
Proof using R_refl R_trans R_enqueue.
  unfold pen_up. cbv zeta.
  do 2 (eapply R_trans; [|apply R_enqueue]). apply R_enqueue.
Qed.

Lemma lift_run_command line s s' : run_command line s = Some s' -> R s s'.
Proof using R_refl R_trans R_enqueue R_warn R_delay.
  unfold run_command.
  destruct (sscanf_s_d_d 32 line EmptyString 0 0) as [sc|]; [|discriminate].
  destruct (matched sc >=? 1); [|intros H; injection H as <-; apply R_refl].
  destruct (String.eqb (cmd_out sc) "PEN_DOWN").
  { intros H. injection H as <-. apply lift_pen_down. }
  destruct (String.eqb (cmd_out sc) "PEN_MOVE").
  { intros H. injection H as <-. apply lift_pen_move. }
  destruct (String.eqb (cmd_out sc) "PEN_UP").
  { intros H. injection H as <-. apply lift_pen_up. }
  destruct (String.eqb (cmd_out sc) "DELAY"); intros H; injection H as <-;
    [apply R_delay | apply R_refl].
Qed.

Lemma lift_process_lines lines : forall s s', process_lines lines s = Some s' -> R s s'.
Proof using R_refl R_trans R_enqueue R_warn R_delay.
  induction lines as [|line lines IH]; intros s s'; cbn [process_lines].
  - intros H. injection H as <-. apply R_refl.
  - destruct (process_line line s) as [s1|] eqn:E; [|discriminate].
    intros H. apply (R_trans _ s1); [|apply IH, H]. unfold process_line in E.
    destruct line as [|c r]; [injection E as <-; apply R_refl|].
    destruct (Ascii.eqb c "#"); [injection E as <-; apply R_refl|].
    exact (lift_run_command _ _ _ E).
Qed.

Lemma lift_process_chunk leftover buf s s' leftover' :
  process_chunk leftover buf s = Some (s', leftover') -> R s s'.
Proof using R_refl R_trans R_enqueue R_warn R_delay.
  unfold process_chunk. destruct (split_lines _) as [lines line].
  destruct (process_lines lines s) as [s2|] eqn:E2; [|discriminate].
  intros H. injection H as <- _. exact (lift_process_lines _ _ _ E2).
Qed.

End ChannelLift.

(** ** Command Channel: reassembly of a split line *)

Section Reassembly.

Import Inject.

Lemma mem_char_app c a b :
  mem_char c (a ++ b)%string = (mem_char c a || mem_char c b)%bool.
Proof.
  induction a as [|d a IH]; simpl; [reflexivity|].
  rewrite IH, orb_assoc. reflexivity.
Qed.

Lemma cstr_app a b :
  mem_char NUL a = false -> cstr (a ++ b)%string = (a ++ cstr b)%string.
Proof.
  induction a as [|d a IH]; simpl; [reflexivity|].
  intros H. apply orb_false_iff in H as [Hd Ha].
  rewrite Hd, IH by exact Ha. reflexivity.
Qed.

Lemma cstr_clean a : mem_char NUL a = false -> cstr a = a.
Proof.
  intros H. rewrite <- (append_nil_r a) at 1. rewrite cstr_app by exact H.
  apply append_nil_r.
Qed.

Lemma split_lines_fragment a :
  mem_char NL a = false -> split_lines a = ([], a).
Proof.
  induction a as [|d a IH]; simpl; [reflexivity|].
  intros H. apply orb_false_iff in H as [Hd Ha].
  rewrite Hd, IH by exact Ha. reflexivity.
Qed.

Lemma split_lines_line a rest :
  mem_char NL a = false ->
  split_lines (a ++ String NL rest)%string =
  let (ls, frag) := split_lines rest in (a :: ls, frag).
Proof.
  induction a as [|d a IH]; intros H.
  - cbn [append split_lines]. rewrite Ascii.eqb_refl. reflexivity.
  - simpl in H. apply orb_false_iff in H as [Hd Ha].
    cbn [append split_lines]. rewrite Hd, IH by exact Ha.
    destruct (split_lines rest). reflexivity.
Qed.

(** A fragment without newline or NUL, short enough for [leftover], is kept
    whole and nothing is executed. *)
Lemma process_chunk_fragment l1 s :
  mem_char NL l1 = false -> mem_char NUL l1 = false ->
  (String.length l1 < 256)%nat ->
  process_chunk EmptyString l1 s = Some (s, l1).
Proof.
  intros Hnl Hnul Hlen. unfold process_chunk.
  cbn [append]. rewrite cstr_clean by exact Hnul.
  rewrite substring_0_all by lia.
  rewrite split_lines_fragment by exact Hnl.
  cbn [process_lines]. f_equal. f_equal.
  destruct l1 as [|c r]; [reflexivity|].
  cbn [String.length] in *.
  destruct (Nat.ltb_spec 0 (S (String.length r))); [|lia].
  destruct (Nat.ltb_spec (S (String.length r)) 256); [|lia].
  cbn [andb]. apply substring_0_all. cbn [String.length]. lia.
Qed.







Lemma join_lines_length_fragment ls frag :
  (String.length frag <= String.length (join_lines ls ++ frag))%nat.
Proof. rewrite append_length. lia. Qed.

Lemma le_bytes_length width : forall z, String.length (le_bytes width z) = width.
Proof. induction width as [|w IH]; intros z; cbn; [reflexivity | rewrite IH; reflexivity]. Qed.

(** The bytes of [n] records are [n] times [sizeof(struct input_event)]. *)
Lemma records_bytes_length evs :
  Z.of_nat (String.length (records_bytes evs)) = Z.of_nat (length evs) * sizeof_input_event.
Proof.
  induction evs as [|ev evs IH]; [reflexivity|].
  cbn [records_bytes length]. unfold event_bytes.
  rewrite !append_length, !le_bytes_length. unfold sizeof_input_event in *. lia.
Qed.


(** The reader's own fetch when its descriptor is not the target: the real
    [read], and nothing else. *)
Lemma fetch_elsewhere {B} (pack : list input_event -> B) real env fd count s :
  original_read s = true -> wacom_fd s <> -1 -> fd <> wacom_fd s ->
  read_as pack real env fd count s =
  (fst real, snd real, emit (OriginalRead fd count) s).
Proof.
  intros Ho Hw Hfd. unfold read_as, resolve_original_read, detect_wacom.
  rewrite Ho. apply Z.eqb_neq in Hw. rewrite Hw. cbn [andb].
  apply Z.eqb_neq in Hfd. rewrite Hfd. reflexivity.
Qed.











End Reassembly.

(** * Further properties of the embedded code *)

(** ** Coordinate arithmetic *)

(** A scaling [a * k / d] of the mappers, when the product fits an [int]. *)
Lemma scale_exact a k d :
  0 <= a -> 0 <= k -> 0 < d -> a * k <= INT_MAX ->
  int_div (int_mul a k) d = a * k / d.
Proof.
  intros Ha Hk Hd Hfit. unfold int_div, int_mul.
  assert (0 <= a * k) by (apply Z.mul_nonneg_nonneg; assumption).
  rewrite (wrap_small (a * k)) by (unfold INT_MIN, INT_MAX in *; lia).
  rewrite Z.quot_div_nonneg by lia.
  apply wrap_small.
  assert (0 <= a * k / d) by (apply Z.div_pos; lia).
  assert (a * k / d <= a * k) by (apply Z.div_le_upper_bound; nia).
  unfold INT_MIN, INT_MAX in *. lia.
Qed.

Section CoordsFacts.

Import Coords.

Lemma display_to_wacom_x_exact y :
  0 <= y <= DISPLAY_HEIGHT ->
  display_to_wacom_x y = 20820 - y * 20609 / 1872.
Proof.
  intros Hy. unfold display_to_wacom_x, DISPLAY_HEIGHT in *.
  change WACOM_X_RANGE with 20609. change WACOM_X_MAX with 20820.
  rewrite scale_exact by (unfold INT_MAX; lia).
  unfold int_sub. apply wrap_small. unfold INT_MIN, INT_MAX.
  pose proof (Z.div_pos (y * 20609) 1872 ltac:(lia) ltac:(lia)).
  assert (y * 20609 / 1872 <= 20609) by (apply Z.div_le_upper_bound; lia). lia.
Qed.

Lemma display_to_wacom_y_exact x :
  0 <= x <= DISPLAY_WIDTH ->
  display_to_wacom_y x = 90 + x * 15622 / 1404.
Proof.
  intros Hx. unfold display_to_wacom_y, DISPLAY_WIDTH in *.
  change WACOM_Y_RANGE with 15622. change WACOM_Y_MIN with 90.
  rewrite scale_exact by (unfold INT_MAX; lia).
  unfold int_add. apply wrap_small. unfold INT_MIN, INT_MAX.
  pose proof (Z.div_pos (x * 15622) 1404 ltac:(lia) ltac:(lia)).
  assert (x * 15622 / 1404 <= 15622) by (apply Z.div_le_upper_bound; lia). lia.
Qed.

Lemma clamp_wacom_inside v w :
  (WACOM_X_MIN <= v <= WACOM_X_MAX -> clamp_wacom_x v = v) /\
  (WACOM_Y_MIN <= w <= WACOM_Y_MAX -> clamp_wacom_y w = w).
Proof.
  unfold clamp_wacom_x, clamp_wacom_y, WACOM_X_MIN, WACOM_X_MAX, WACOM_Y_MIN, WACOM_Y_MAX.
  split; intros H;
    repeat match goal with
           | |- context [?a <? ?b] => destruct (Z.ltb_spec a b)
           | |- context [?a >? ?b] => destruct (Z.gtb_spec a b)
           end; lia.
Qed.

(** X1: the two clamps of [analysis_coords.h] always answer inside the usable
    raw range, leave a value of that range as it is, and are idempotent. *)
Theorem clamp_wacom_stays_in_range (v : Z) :
  (WACOM_X_MIN <= clamp_wacom_x v <= WACOM_X_MAX) /\
  (WACOM_Y_MIN <= clamp_wacom_y v <= WACOM_Y_MAX) /\
  (clamp_wacom_x v = v <-> WACOM_X_MIN <= v <= WACOM_X_MAX) /\
  (clamp_wacom_y v = v <-> WACOM_Y_MIN <= v <= WACOM_Y_MAX) /\
  clamp_wacom_x (clamp_wacom_x v) = clamp_wacom_x v /\
  clamp_wacom_y (clamp_wacom_y v) = clamp_wacom_y v.
Proof.
  unfold clamp_wacom_x, clamp_wacom_y, WACOM_X_MIN, WACOM_X_MAX, WACOM_Y_MIN, WACOM_Y_MAX.
  repeat match goal with
         | |- context [?a <? ?b] => destruct (Z.ltb_spec a b)
         | |- context [?a >? ?b] => destruct (Z.gtb_spec a b)
         end; try lia;
    repeat split; intros; try lia;
    repeat match goal with
           | |- context [?a <? ?b] => destruct (Z.ltb_spec a b)
           | |- context [?a >? ?b] => destruct (Z.gtb_spec a b)
           end; lia.
Qed.

(** X2: every point of the display (0..1404 by 0..1872) is mapped inside the
    usable raw range, so clamping a mapped display point changes nothing. *)
Theorem display_points_map_into_usable_range (x y : Z) :
  0 <= x <= DISPLAY_WIDTH -> 0 <= y <= DISPLAY_HEIGHT ->
  WACOM_X_MIN <= fst (map x y) <= WACOM_X_MAX /\
  WACOM_Y_MIN <= snd (map x y) <= WACOM_Y_MAX /\
  clamp_wacom_x (fst (map x y)) = fst (map x y) /\
  clamp_wacom_y (snd (map x y)) = snd (map x y).
Proof.
  intros Hx Hy. unfold map. cbn [fst snd].
  assert (WACOM_X_MIN <= display_to_wacom_x y <= WACOM_X_MAX) as Bx.
  { rewrite display_to_wacom_x_exact by exact Hy.
    unfold WACOM_X_MIN, WACOM_X_MAX, DISPLAY_HEIGHT in *.
    pose proof (Z.div_pos (y * 20609) 1872 ltac:(lia) ltac:(lia)).
    assert (y * 20609 / 1872 <= 20609) by (apply Z.div_le_upper_bound; lia). lia. }
  assert (WACOM_Y_MIN <= display_to_wacom_y x <= WACOM_Y_MAX) as By.
  { rewrite display_to_wacom_y_exact by exact Hx.
    unfold WACOM_Y_MIN, WACOM_Y_MAX, DISPLAY_WIDTH in *.
    pose proof (Z.div_pos (x * 15622) 1404 ltac:(lia) ltac:(lia)).
    assert (x * 15622 / 1404 <= 15622) by (apply Z.div_le_upper_bound; lia). lia. }
  split; [exact Bx|]. split; [exact By|].
  split; [exact (proj1 (clamp_wacom_inside _ 0) Bx) | exact (proj2 (clamp_wacom_inside 0 _) By)].
Qed.

Lemma display_points_map_into_usable_range_witness :
  0 <= 702 <= DISPLAY_WIDTH /\ 0 <= 936 <= DISPLAY_HEIGHT /\
  map 702 936 = (10516, 7901) /\
  WACOM_X_MIN <= fst (map 702 936) <= WACOM_X_MAX /\
  WACOM_Y_MIN <= snd (map 702 936) <= WACOM_Y_MAX.
Proof.
  assert (0 <= 702 <= DISPLAY_WIDTH) as H1 by (vm_compute; split; congruence).
  assert (0 <= 936 <= DISPLAY_HEIGHT) as H2 by (vm_compute; split; congruence).
  destruct (display_points_map_into_usable_range 702 936 H1 H2) as (A & B & _).
  repeat split; try apply H1; try apply H2; try apply A; try apply B.
Defined.

(** X3: over the display the mapper keeps the order of display X in raw Y
    and reverses the order of display Y in raw X (the inverted axis). *)
Theorem display_map_is_monotone (x x' y y' : Z) :
  0 <= x <= x' -> x' <= DISPLAY_WIDTH ->
  0 <= y <= y' -> y' <= DISPLAY_HEIGHT ->
  display_to_wacom_y x <= display_to_wacom_y x' /\
  display_to_wacom_x y' <= display_to_wacom_x y.
Proof.
  intros Hx Hx' Hy Hy'.
  rewrite !display_to_wacom_x_exact, !display_to_wacom_y_exact by lia.
  assert (x * 15622 / 1404 <= x' * 15622 / 1404) by (apply Z.div_le_mono; lia).
  assert (y * 20609 / 1872 <= y' * 20609 / 1872) by (apply Z.div_le_mono; lia).
  lia.
Qed.

Lemma display_map_is_monotone_witness :
  0 <= 100 <= 200 /\ 200 <= DISPLAY_WIDTH /\ 0 <= 300 <= 1800 /\ 1800 <= DISPLAY_HEIGHT /\
  display_to_wacom_y 100 <= display_to_wacom_y 200 /\
  display_to_wacom_x 1800 <= display_to_wacom_x 300.
Proof.
  assert (0 <= 100 <= 200) as H1 by lia.
  assert (200 <= DISPLAY_WIDTH) as H2 by (vm_compute; congruence).
  assert (0 <= 300 <= 1800) as H3 by lia.
  assert (1800 <= DISPLAY_HEIGHT) as H4 by (vm_compute; congruence).
  destruct (display_map_is_monotone 100 200 300 1800 H1 H2 H3 H4) as [A B].
  repeat split; try lia; assumption.
Defined.

End CoordsFacts.

(** ** Gestures and the queue *)

Section InjectGestures.

Import Inject.

Lemma to_wacom_x_exact x y :
  0 <= y <= DISPLAY_HEIGHT -> to_wacom_x x y = 20966 - y * 20966 / 1872.
Proof.
  intros Hy. unfold to_wacom_x, DISPLAY_HEIGHT, WACOM_MAX_X in *.
  rewrite scale_exact by (unfold INT_MAX; lia).
  unfold int_sub. apply wrap_small. unfold INT_MIN, INT_MAX.
  pose proof (Z.div_pos (y * 20966) 1872 ltac:(lia) ltac:(lia)).
  assert (y * 20966 / 1872 <= 20966) by (apply Z.div_le_upper_bound; lia). lia.
Qed.

Lemma to_wacom_y_exact x y :
  0 <= x <= DISPLAY_WIDTH -> to_wacom_y x y = x * 15725 / 1404.
Proof.
  intros Hx. unfold to_wacom_y, DISPLAY_WIDTH, WACOM_MAX_Y in *.
  apply scale_exact; unfold INT_MAX; lia.
Qed.

Lemma to_wacom_in_range x y :
  0 <= x <= DISPLAY_WIDTH -> 0 <= y <= DISPLAY_HEIGHT ->
  0 <= to_wacom_x x y <= WACOM_MAX_X /\ 0 <= to_wacom_y x y <= WACOM_MAX_Y.
Proof.
  intros Hx Hy. rewrite to_wacom_x_exact, to_wacom_y_exact by assumption.
  unfold DISPLAY_WIDTH, DISPLAY_HEIGHT, WACOM_MAX_X, WACOM_MAX_Y in *.
  pose proof (Z.div_pos (y * 20966) 1872 ltac:(lia) ltac:(lia)).
  assert (y * 20966 / 1872 <= 20966) by (apply Z.div_le_upper_bound; lia).
  pose proof (Z.div_pos (x * 15725) 1404 ltac:(lia) ltac:(lia)).
  assert (x * 15725 / 1404 <= 15725) by (apply Z.div_le_upper_bound; lia).
  lia.
Qed.

Lemma enqueue_all_room evs : forall s,
  queue_ok s ->
  Z.of_nat (length (stored s)) + Z.of_nat (length evs) <= MAX_QUEUE - 1 ->
  stored (enqueue_all evs s) = stored s ++ evs /\
  trace (enqueue_all evs s) = trace s /\
  wacom_fd (enqueue_all evs s) = wacom_fd s.
Proof.
  induction evs as [|ev evs IH]; intros s Hok Hroom; cbn [enqueue_all].
  - rewrite app_nil_r. auto.
  - cbn [length] in Hroom.
    assert (queue_is_full s = false) as Hf.
    { destruct (queue_is_full s) eqn:E; [|reflexivity].
      apply (queue_is_full_spec s Hok) in E. lia. }
    destruct (enqueue_room s ev Hok Hf) as (Hok' & Hst & Htr & Hfd & _).
    destruct (IH (enqueue ev s) Hok') as (A & B & C).
    { rewrite Hst, length_app. cbn [length]. lia. }
    rewrite A, B, C, Hst, Htr, Hfd, <- app_assoc. auto.
Qed.

Lemma pen_down_as_burst x y s :
  exists s0,
    pen_down x y s = enqueue_all (pen_down_events (to_wacom_x x y) (to_wacom_y x y)) s0 /\
    stored s0 = stored s /\ (queue_ok s -> queue_ok s0) /\
    (0 <= to_wacom_x x y <= WACOM_MAX_X -> 0 <= to_wacom_y x y <= WACOM_MAX_Y -> s0 = s).
Proof.
  unfold pen_down.
  set (wx := to_wacom_x x y). set (wy := to_wacom_y x y).
  destruct ((wx <? 0) || (wx >? WACOM_MAX_X) || (wy <? 0) || (wy >? WACOM_MAX_Y))%bool eqn:E.
  - eexists. unfold pen_down_events. cbn [enqueue_all].
    split; [reflexivity|]. split; [reflexivity|]. split; [auto|].
    intros Hx Hy. exfalso.
    repeat (apply orb_true_iff in E as [E|E]);
      [apply Z.ltb_lt in E | apply Z.gtb_lt in E | apply Z.ltb_lt in E | apply Z.gtb_lt in E];
      lia.
  - exists s. unfold pen_down_events. cbn [enqueue_all].
    split; [reflexivity|]. auto.
Qed.

Lemma pen_move_as_burst x y s :
  pen_move x y s = enqueue_all (pen_move_events (to_wacom_x x y) (to_wacom_y x y)) s.
Proof. unfold pen_move, pen_move_events. cbn [enqueue_all]. reflexivity. Qed.

Lemma pen_up_as_burst s : pen_up s = enqueue_all pen_up_events s.
Proof. unfold pen_up, pen_up_events. cbn [enqueue_all]. reflexivity. Qed.

Lemma gestures_ok x y s :
  queue_ok s ->
  queue_ok (pen_down x y s) /\ queue_ok (pen_move x y s) /\ queue_ok (pen_up s).
Proof.
  intros Hok.
  destruct (pen_down_as_burst x y s) as (s0 & -> & _ & Hok0 & _).
  rewrite pen_move_as_burst, pen_up_as_burst.
  repeat split; apply enqueue_all_ok; auto.
Qed.

(** X4: a gesture goes into the queue as far as there is room.  On a
    well-formed queue [PEN_DOWN], [PEN_MOVE] and [PEN_UP] append the first
    [free] of their six, four and three records, [free] being the number of
    events the queue can still take: the whole gesture when it fits, a
    truncated one (its closing [SYN_REPORT] lost first) when it does not. *)
Theorem gesture_fills_free_slots (x y : Z) (s : state) :
  queue_ok s ->
  let free := free_slots MAX_QUEUE (length (stored s)) in
  stored (pen_down x y s) =
    stored s ++ take free (pen_down_events (to_wacom_x x y) (to_wacom_y x y)) /\
  stored (pen_move x y s) =
    stored s ++ take free (pen_move_events (to_wacom_x x y) (to_wacom_y x y)) /\
  stored (pen_up s) = stored s ++ take free pen_up_events /\
  queue_ok (pen_down x y s) /\ queue_ok (pen_move x y s) /\ queue_ok (pen_up s).
Proof.
  intros Hok free. unfold free, free_slots.
  destruct (pen_down_as_burst x y s) as (s0 & -> & Hst & Hok0 & _).
  rewrite (enqueue_all_stored _ s0 (Hok0 Hok)), Hst.
  rewrite pen_move_as_burst, pen_up_as_burst.
  rewrite !enqueue_all_stored by exact Hok.
  split; [reflexivity|]. split; [reflexivity|]. split; [reflexivity|].
  repeat split; apply enqueue_all_ok; auto.
Qed.

Lemma gesture_fills_free_slots_witness :
  let s := State (replicate (Z.to_nat MAX_QUEUE) zero_event) 3 0 true 3 [] in
  queue_ok s /\
  stored (pen_up s) =
    stored s ++ take (free_slots MAX_QUEUE (length (stored s))) pen_up_events /\
  q_head (pen_up s) = 3 /\ q_tail (pen_up s) = 2 /\
  trace (pen_up s) = [queue_full_warning].
Proof.
  intros s.
  assert (queue_ok s) as H1 by (repeat split; vm_compute; congruence).
  split; [exact H1|].
  split; [exact (proj1 (proj2 (proj2 (gesture_fills_free_slots 0 0 s H1))))|].
  repeat split; vm_compute; reflexivity.
Defined.

(** X5: a [PEN_DOWN] for a point of the display, on a queue with room for
    its six records, queues exactly those six, with both raw coordinates
    inside the hardware range, and prints no warning. *)
Theorem pen_down_on_display_is_silent (x y : Z) (s : state) :
  queue_ok s ->
  0 <= x <= DISPLAY_WIDTH -> 0 <= y <= DISPLAY_HEIGHT ->
  Z.of_nat (length (stored s)) + 6 <= MAX_QUEUE - 1 ->
  0 <= to_wacom_x x y <= WACOM_MAX_X /\
  0 <= to_wacom_y x y <= WACOM_MAX_Y /\
  stored (pen_down x y s) =
    stored s ++ pen_down_events (to_wacom_x x y) (to_wacom_y x y) /\
  trace (pen_down x y s) = trace s.
Proof.
  intros Hok Hx Hy Hroom.
  destruct (to_wacom_in_range x y Hx Hy) as [Bx By].
  destruct (pen_down_as_burst x y s) as (s0 & -> & _ & _ & Hs0).
  rewrite (Hs0 Bx By).
  destruct (enqueue_all_room (pen_down_events (to_wacom_x x y) (to_wacom_y x y)) s Hok)
    as (A & B & _); [exact Hroom|].
  auto.
Qed.

Lemma pen_down_on_display_is_silent_witness :
  queue_ok init_state /\ 0 <= 1404 <= DISPLAY_WIDTH /\ 0 <= 1872 <= DISPLAY_HEIGHT /\
  Z.of_nat (length (stored init_state)) + 6 <= MAX_QUEUE - 1 /\
  stored (pen_down 1404 1872 init_state) = pen_down_events 0 15725 /\
  trace (pen_down 1404 1872 init_state) = [].
Proof.
  assert (queue_ok init_state) as H1 by (repeat split; vm_compute; congruence).
  assert (0 <= 1404 <= DISPLAY_WIDTH) as H2 by (vm_compute; split; congruence).
  assert (0 <= 1872 <= DISPLAY_HEIGHT) as H3 by (vm_compute; split; congruence).
  assert (Z.of_nat (length (stored init_state)) + 6 <= MAX_QUEUE - 1) as H4
    by (vm_compute; congruence).
  destruct (pen_down_on_display_is_silent 1404 1872 init_state H1 H2 H3 H4)
    as (_ & _ & A & B).
  split; [exact H1|]. split; [exact H2|]. split; [exact H3|]. split; [exact H4|].
  split; [rewrite A; vm_compute; reflexivity | exact B].
Defined.

End InjectGestures.

(** ** The queue seen from its users *)

Section InjectUsers.

Import Inject.

(** X6: on a well-formed queue [has_events] tells exactly whether an event
    is stored, and [dequeue] returns nothing from an empty queue (leaving it
    as it is) and otherwise the oldest stored event, leaving the others. *)
Theorem dequeue_returns_oldest (s : state) :
  queue_ok s ->
  (has_events s = true <-> stored s <> []) /\
  match stored s with
  | [] => dequeue s = (None, s)
  | ev :: rest =>
      fst (dequeue s) = Some ev /\ stored (snd (dequeue s)) = rest /\
      trace (snd (dequeue s)) = trace s
  end.
Proof.
  intros Hok. split.
  - split; [apply has_events_stored, Hok|].
    intros Hne. destruct (has_events s) eqn:E; [reflexivity|]. exfalso. apply Hne.
    unfold has_events in E. apply negb_false_iff, Z.eqb_eq in E.
    unfold stored. rewrite E. apply stored_nil. unfold MAX_QUEUE. lia.
  - destruct (stored s) as [|ev rest] eqn:Hst.
    + apply dequeue_empty; assumption.
    + destruct (dequeue_some s ev rest Hst Hok) as (s' & -> & H1 & _ & H2 & _). auto.
Qed.

Lemma dequeue_returns_oldest_witness :
  let s := pen_up init_state in
  queue_ok s /\ has_events s = true /\
  fst (dequeue s) = Some (make_event EV_KEY BTN_TOUCH 0) /\
  stored (snd (dequeue s)) =
    [make_event EV_KEY BTN_TOOL_PEN 0; make_event EV_SYN SYN_REPORT 0].
Proof.
  intros s.
  assert (queue_ok s) as H1 by (repeat split; vm_compute; congruence).
  destruct (dequeue_returns_oldest s H1) as [_ H].
  assert (stored s = pen_up_events) as Hst by (vm_compute; reflexivity).
  rewrite Hst in H. cbn [pen_up_events] in H. destruct H as (A & B & _).
  split; [exact H1|]. split; [vm_compute; reflexivity|]. auto.
Defined.

Lemma run_command_ok line s s' :
  queue_ok s -> run_command line s = Some s' -> queue_ok s'.
Proof.
  intros Hok. unfold run_command.
  destruct (sscanf_s_d_d 32 line EmptyString 0 0) as [sc|]; [|discriminate].
  destruct (matched sc >=? 1); [|intros H; injection H as <-; exact Hok].
  destruct (gestures_ok (x_out sc) (y_out sc) s Hok) as (Gd & Gm & Gu).
  destruct (String.eqb (cmd_out sc) "PEN_DOWN").
  { intros H. injection H as <-. exact Gd. }
  destruct (String.eqb (cmd_out sc) "PEN_MOVE").
  { intros H. injection H as <-. exact Gm. }
  destruct (String.eqb (cmd_out sc) "PEN_UP").
  { intros H. injection H as <-. exact Gu. }
  destruct (String.eqb (cmd_out sc) "DELAY"); intros H; injection H as <-; [|exact Hok].
  unfold delay. destruct ((x_out sc >? 0) && (x_out sc <=? 1000))%bool; exact Hok.
Qed.

Lemma process_lines_ok lines : forall s s',
  queue_ok s -> process_lines lines s = Some s' -> queue_ok s'.
Proof.
  induction lines as [|line lines IH]; intros s s' Hok; cbn [process_lines].
  - intros H. injection H as <-. exact Hok.
  - destruct (process_line line s) as [s1|] eqn:E; [|discriminate].
    apply IH. unfold process_line in E.
    destruct line as [|c r]; [injection E as <-; exact Hok|].
    destruct (Ascii.eqb c "#"); [injection E as <-; exact Hok|].
    exact (run_command_ok _ _ _ Hok E).
Qed.

Lemma drain_ok n : forall s, queue_ok s -> queue_ok (snd (drain n s)).
Proof.
  induction n as [|n IH]; intros s Hok; cbn [drain]; [exact Hok|].
  pose proof (dequeue_ok s Hok) as Hd.
  destruct (dequeue s) as [[ev|] s1]; cbn [snd] in *; [|exact Hd].
  specialize (IH s1 Hd). destruct (drain n s1). exact IH.
Qed.

Lemma read_as_events env fd count s :
  read_as (fun evs => evs) (real_read env fd count) env fd count s = read env fd count s.
Proof.
  unfold read_as, read, call_original_read.
  destruct (real_read env fd count) as [result data]. reflexivity.
Qed.

(** Where a call of [read] leaves the state: after the prelude, the drain
    when there is one, and the real [read] when it is reached. *)
Lemma read_as_state {B} (pack : list input_event -> B) real env fd count s :
  let s1 := detect_wacom env fd (resolve_original_read s) in
  let d := snd (drain (Z.to_nat (wrap (count / sizeof_input_event))) s1) in
  let s' := snd (read_as pack real env fd count s) in
  s' = d \/ s' = emit (OriginalRead fd count) d \/ s' = emit (OriginalRead fd count) s1.
Proof.
  cbv zeta. unfold read_as.
  destruct ((fd =? wacom_fd _) && has_events _)%bool; [|auto].
  destruct (drain _ _) as [events s2]. cbn [snd].
  destruct (Z.of_nat (length events) >? 0); cbn [snd]; auto.
Qed.

Lemma read_as_ok {B} (pack : list input_event -> B) real env fd count s :
  queue_ok s -> queue_ok (snd (read_as pack real env fd count s)).
Proof.
  intros Hok.
  destruct (prelude_spec env fd s) as (Hq & Hh & Ht & _).
  assert (queue_ok (detect_wacom env fd (resolve_original_read s))) as Hok1
    by (unfold queue_ok; rewrite Hq, Hh, Ht; exact Hok).
  pose proof (drain_ok (Z.to_nat (wrap (count / sizeof_input_event))) _ Hok1) as Hd.
  destruct (read_as_state pack real env fd count s) as [-> | [-> | ->]];
    [exact Hd | apply emit_ok, Hd | apply emit_ok, Hok1].
Qed.

Lemma process_chunk_ok leftover buf s s' leftover' :
  queue_ok s -> process_chunk leftover buf s = Some (s', leftover') -> queue_ok s'.
Proof.
  intros Hok. unfold process_chunk. destruct (split_lines _) as [lines line].
  destruct (process_lines lines s) as [s2|] eqn:E2; [|discriminate].
  intros H. injection H as <- _. exact (process_lines_ok _ _ _ Hok E2).
Qed.

Lemma read_chunks_ok env fd chunks : forall leftover s s' leftover',
  queue_ok s -> read_chunks env fd chunks leftover s = Some (s', leftover') -> queue_ok s'.
Proof.
  induction chunks as [|chunk chunks IH]; intros leftover s s' leftover' Hok;
    cbn [read_chunks].
  - intros H. injection H as <- _. exact Hok.
  - pose proof (read_as_ok records_bytes (Z.of_nat (String.length chunk), chunk)
                  env fd (4096 - 1) s Hok) as Hfetch.
    destruct (read_as records_bytes _ env fd (4096 - 1) s) as [[n buf] s1].
    cbn [snd] in Hfetch.
    destruct (n >? 0); [|intros H; injection H as <- _; exact Hfetch].
    destruct (process_chunk leftover buf s1) as [[s2 l2]|] eqn:E; [|discriminate].
    apply IH. exact (process_chunk_ok _ _ _ _ _ Hfetch E).
Qed.

(** X7: the queue stays well formed (its array of [MAX_QUEUE] slots, head and
    tail inside it) through everything the two threads do: every session of
    the command reader that does not overrun [cmd], its own fetches through
    [read] included, and every call of [read].  So the indices used on
    [queue] never leave the array. *)
Theorem queue_stays_well_formed (s : state) :
  queue_ok s ->
  (forall env fd chunks s', fifo_session env fd chunks s = Some s' -> queue_ok s') /\
  (forall env fd count, queue_ok (snd (read env fd count s))).
Proof.
  intros Hok. split.
  - intros env fd chunks s'. unfold fifo_session.
    destruct (read_chunks env fd chunks EmptyString s) as [[s1 l1]|] eqn:E; [|discriminate].
    intros H. injection H as <-. exact (read_chunks_ok _ _ _ _ _ _ _ Hok E).
  - intros env fd count. rewrite <- read_as_events. apply read_as_ok, Hok.
Qed.

Lemma queue_stays_well_formed_witness :
  let chunks := [terminated "PEN_DOWN 10 20"; terminated "PEN_UP"] in
  queue_ok init_state /\
  (exists s', fifo_session tablet 9 chunks init_state = Some s' /\ queue_ok s' /\
              q_head s' = 0 /\ q_tail s' = 9) /\
  queue_ok (snd (read tablet 3 64 init_state)).
Proof.
  intros chunks.
  assert (queue_ok init_state) as H1 by (repeat split; vm_compute; congruence).
  destruct (queue_stays_well_formed init_state H1) as [A B].
  split; [exact H1|]. split; [|apply B].
  destruct (fifo_session tablet 9 chunks init_state) as [s'|] eqn:E.
  - exists s'. split; [reflexivity|]. split; [apply (A tablet 9 chunks), E|].
    vm_compute in E. injection E as <-. split; reflexivity.
  - vm_compute in E. discriminate.
Defined.

Lemma prelude_sticky env fd s :
  wacom_fd s <> -1 ->
  wacom_fd (detect_wacom env fd (resolve_original_read s)) = wacom_fd s /\
  exists new, trace (detect_wacom env fd (resolve_original_read s)) = trace s ++ new /\
              (new = [] \/ new = [Dlsym]).
Proof.
  intros Hne. unfold detect_wacom.
  assert (wacom_fd (resolve_original_read s) = wacom_fd s) as Hfd
    by (unfold resolve_original_read; destruct (original_read s); reflexivity).
  rewrite Hfd. apply Z.eqb_neq in Hne. rewrite Hne. cbn [andb].
  split; [exact Hfd | apply resolve_trace].
Qed.

(** X8: [read] is transparent wherever it does not inject.  For a handle
    other than the resolved target, and for any handle while the queue is
    empty, the caller gets exactly what the real [read] returns and leaves in
    the buffer, the real [read] is called once, with the caller's arguments,
    and the queue is left as it was. *)
Theorem read_is_transparent_elsewhere (env : Env) (fd count : Z) (s : state) :
  (wacom_fd s <> -1 /\ fd <> wacom_fd s) \/ has_events s = false ->
  let '(ret, buf, s') := read env fd count s in
  (ret, buf) = real_read env fd count /\
  queue s' = queue s /\ q_head s' = q_head s /\ q_tail s' = q_tail s /\
  exists pre,
    new_effects (trace s) (trace s') = pre ++ [OriginalRead fd count] /\
    existsb is_original_read pre = false.
Proof.
  intros Hcase. unfold read.
  destruct (prelude_spec env fd s) as (Hq & Hh & Ht & _ & new & Htr & Hnew).
  set (s1 := detect_wacom env fd (resolve_original_read s)) in *.
  assert (((fd =? wacom_fd s1) && has_events s1)%bool = false) as ->.
  { destruct Hcase as [[Hne Hfd] | He].
    - destruct (prelude_sticky env fd s Hne) as [Hs _]. fold s1 in Hs.
      rewrite Hs. apply Z.eqb_neq in Hfd. rewrite Hfd. reflexivity.
    - unfold has_events in *. rewrite Hh, Ht, He. apply andb_false_r. }
  unfold call_original_read. destruct (real_read env fd count) as [result data].
  cbn [queue q_head q_tail trace emit].
  split; [reflexivity|]. repeat (split; [assumption|]).
  exists new. split; [|exact Hnew].
  rewrite Htr, <- app_assoc. apply new_effects_app.
Qed.

Lemma read_is_transparent_elsewhere_witness :
  let s := pen_up (set_wacom_fd 3 init_state) in
  (wacom_fd s <> -1 /\ 7 <> wacom_fd s) /\
  (let '(ret, buf, s') := read pen_tablet 7 4096 s in
   (ret, buf) = (32, stylus_sample) /\ q_head s' = 0 /\ q_tail s' = 3 /\
   new_effects (trace s) (trace s') = [Dlsym; OriginalRead 7 4096]).
Proof.
  intros s.
  assert (wacom_fd s <> -1 /\ 7 <> wacom_fd s) as H1 by (vm_compute; split; congruence).
  split; [exact H1|].
  pose proof (read_is_transparent_elsewhere pen_tablet 7 4096 s (or_introl H1)) as W.
  destruct (read pen_tablet 7 4096 s) as [[ret buf] s'] eqn:E.
  destruct W as (A & _ & B & C & _).
  split; [exact A|].
  vm_compute in E. injection E as <- <- <-. repeat split; reflexivity.
Defined.

End InjectUsers.

(** ** Claiming the target *)

Section InjectTarget.

Import Inject.

Lemma thread_creations_app a b :
  thread_creations (a ++ b) = (thread_creations a + thread_creations b)%nat.
Proof. unfold thread_creations. rewrite List.filter_app, length_app. reflexivity. Qed.

Lemma thread_creations_snoc t e :
  thread_creations (t ++ [e]) =
  (thread_creations t + if is_thread_create e then 1 else 0)%nat.
Proof. rewrite thread_creations_app. unfold thread_creations. cbn. destruct (is_thread_create e); reflexivity. Qed.

Lemma prelude_threads env fd s :
  let s1 := detect_wacom env fd (resolve_original_read s) in
  (wacom_fd s <> -1 \/ is_wacom env fd = false ->
   wacom_fd s1 = wacom_fd s /\
   thread_creations (trace s1) = thread_creations (trace s)) /\
  (wacom_fd s = -1 -> is_wacom env fd = true ->
   wacom_fd s1 = fd /\
   thread_creations (trace s1) = S (thread_creations (trace s))).
Proof.
  assert (wacom_fd (resolve_original_read s) = wacom_fd s /\
          thread_creations (trace (resolve_original_read s)) = thread_creations (trace s))
    as [Hw Ht].
  { unfold resolve_original_read. destruct (original_read s); [auto|].
    cbn [wacom_fd trace emit set_original_read]. rewrite thread_creations_snoc.
    cbn [is_thread_create]. split; [reflexivity | lia]. }
  cbv zeta. unfold detect_wacom. rewrite Hw. split.
  - intros [Hne | Hno].
    + apply Z.eqb_neq in Hne. rewrite Hne. cbn [andb]. auto.
    + rewrite Hno, andb_false_r. auto.
  - intros Hun Hyes. rewrite Hun, Hyes. cbn [Z.eqb andb Z.opp Pos.eqb].
    cbn [wacom_fd trace emit set_wacom_fd]. rewrite !thread_creations_snoc.
    cbn [is_thread_create]. rewrite Ht. split; [reflexivity | lia].
Qed.

Lemma read_trace env fd count s :
  exists tail,
    trace (snd (read env fd count s)) =
      trace (detect_wacom env fd (resolve_original_read s)) ++ tail /\
    (tail = [] \/ tail = [OriginalRead fd count]).
Proof.
  unfold read. set (s1 := detect_wacom env fd (resolve_original_read s)).
  assert (forall t, trace (snd (call_original_read env fd count t))
                    = trace t ++ [OriginalRead fd count]) as Hreal.
  { intros t. destruct (call_original_read_spec env fd count t) as (_ & _ & ->). reflexivity. }
  destruct ((fd =? wacom_fd s1) && has_events s1)%bool.
  - pose proof (drain_trace (Z.to_nat (wrap (count / sizeof_input_event))) s1) as Hd.
    destruct (drain (Z.to_nat (wrap (count / sizeof_input_event))) s1) as [events s2].
    cbn [snd] in Hd. destruct (Z.of_nat (length events) >? 0).
    + exists []. cbn [snd]. rewrite app_nil_r. auto.
    + exists [OriginalRead fd count]. rewrite Hreal, Hd. auto.
  - exists [OriginalRead fd count]. rewrite Hreal. auto.
Qed.

Lemma read_threads env fd count s :
  let s' := snd (read env fd count s) in
  let s1 := detect_wacom env fd (resolve_original_read s) in
  wacom_fd s' = wacom_fd s1 /\
  thread_creations (trace s') = thread_creations (trace s1).
Proof.
  cbv zeta. split; [apply read_wacom_fd|].
  destruct (read_trace env fd count s) as (tail & -> & [-> | ->]);
    rewrite thread_creations_app; cbn; lia.
Qed.

Lemma run_reads_sticky env calls : forall s,
  wacom_fd s <> -1 ->
  wacom_fd (run_reads env calls s) = wacom_fd s /\
  thread_creations (trace (run_reads env calls s)) = thread_creations (trace s).
Proof.
  induction calls as [|[fd count] calls IH]; intros s Hne; cbn [run_reads]; [auto|].
  destruct (read_threads env fd count s) as [Hw Ht].
  destruct (prelude_threads env fd s) as [Hkeep _].
  destruct (Hkeep (or_introl Hne)) as [Hw1 Ht1].
  destruct (IH (snd (read env fd count s))) as [A B]; [congruence|].
  split; congruence.
Qed.

Lemma run_reads_claims_once env calls :
  is_wacom env (-1) = false ->
  forall s,
    (wacom_fd s = -1 /\ thread_creations (trace s) = 0%nat) \/
    (wacom_fd s <> -1 /\ thread_creations (trace s) = 1%nat) ->
    (wacom_fd (run_reads env calls s) = -1 /\
     thread_creations (trace (run_reads env calls s)) = 0%nat) \/
    (wacom_fd (run_reads env calls s) <> -1 /\
     thread_creations (trace (run_reads env calls s)) = 1%nat).
Proof.
  intros Hminus. induction calls as [|[fd count] calls IH]; intros s Hs; cbn [run_reads];
    [exact Hs|].
  apply IH.
  destruct (read_threads env fd count s) as [Hw Ht]. rewrite Hw, Ht.
  destruct (prelude_threads env fd s) as [Hkeep Hclaim].
  destruct Hs as [[Hun H0] | [Hres H1]].
  - destruct (is_wacom env fd) eqn:E.
    + destruct (Hclaim Hun eq_refl) as [-> ->]. right. split; [|lia].
      intros ->. congruence.
    + destruct (Hkeep (or_intror eq_refl)) as [-> ->]. left. auto.
  - destruct (Hkeep (or_introl Hres)) as [-> ->]. right. auto.
Qed.

(** X9: the target is claimed once.  Once [wacom_fd] holds a handle no later
    [read] changes it or starts another reader thread; and from the initial
    state (no handle -1 being a digitizer) any succession of reads starts at
    most one reader thread, exactly one when a target has been claimed. *)
Theorem target_is_claimed_once (env : Env) (calls : list (Z * Z)) :
  (forall s,
     wacom_fd s <> -1 ->
     wacom_fd (run_reads env calls s) = wacom_fd s /\
     thread_creations (trace (run_reads env calls s)) = thread_creations (trace s)) /\
  (is_wacom env (-1) = false ->
   let s' := run_reads env calls init_state in
   (thread_creations (trace s') <= 1)%nat /\
   (wacom_fd s' <> -1 <-> thread_creations (trace s') = 1%nat)).
Proof.
  split; [apply run_reads_sticky|].
  intros Hminus s'.
  destruct (run_reads_claims_once env calls Hminus init_state) as [[A B] | [A B]];
    [left; split; reflexivity | |]; fold s' in A, B; rewrite B.
  - split; [lia|]. split; [contradiction | discriminate].
  - split; [lia|]. split; auto.
Qed.

Lemma target_is_claimed_once_witness :
  let calls := [(5, 64); (3, 64); (3, 64); (4, 64)] in
  is_wacom tablet (-1) = false /\
  wacom_fd (run_reads tablet calls init_state) = 3 /\
  thread_creations (trace (run_reads tablet calls init_state)) = 1%nat.
Proof.
  intros calls.
  assert (is_wacom tablet (-1) = false) as H1 by (vm_compute; reflexivity).
  destruct (target_is_claimed_once tablet calls) as [_ H].
  destruct (H H1) as [_ Hiff].
  assert (wacom_fd (run_reads tablet calls init_state) = 3) as H2
    by (vm_compute; reflexivity).
  split; [exact H1|]. split; [exact H2|].
  apply Hiff. rewrite H2. discriminate.
Defined.

End InjectTarget.

(** ** Lines and fragments *)

Section InjectLines.

Import Inject.

Lemma substring_0_length s : forall n,
  String.length (substring 0 n s) = Nat.min n (String.length s).
Proof.
  induction s as [|c s IH]; intros [|n]; simpl; try reflexivity.
  rewrite IH. reflexivity.
Qed.

Lemma mem_char_substring c s : forall n,
  mem_char c s = false -> mem_char c (substring 0 n s) = false.
Proof.
  induction s as [|d s IH]; intros [|n] H; simpl in *; try reflexivity.
  apply orb_false_iff in H as [Hd Hs]. rewrite Hd, IH by exact Hs. reflexivity.
Qed.

Lemma mem_char_cstr c s : mem_char c s = false -> mem_char c (cstr s) = false.
Proof.
  induction s as [|d s IH]; simpl; intros H; [reflexivity|].
  apply orb_false_iff in H as [Hd Hs].
  destruct (Ascii.eqb d NUL); [reflexivity|].
  simpl. rewrite Hd, IH by exact Hs. reflexivity.
Qed.

Lemma cstr_no_nul s : mem_char NUL (cstr s) = false.
Proof.
  induction s as [|d s IH]; simpl; [reflexivity|].
  destruct (Ascii.eqb d NUL) eqn:E; [reflexivity|].
  simpl. rewrite E, IH. reflexivity.
Qed.

Lemma split_lines_rest_no_newline s : mem_char NL (snd (split_lines s)) = false.
Proof.
  induction s as [|c s IH]; cbn [split_lines]; [reflexivity|].
  destruct (Ascii.eqb c NL) eqn:E.
  - destruct (split_lines s). exact IH.
  - destruct (split_lines s) as [[|l ls] frag]; cbn [snd] in *; [|exact IH].
    cbn [mem_char]. rewrite E, IH. reflexivity.
Qed.

Lemma kept_fragment_bounded line :
  mem_char NL line = false ->
  let kept := if ((0 <? String.length line) && (String.length line <? 256))%nat
              then substring 0 255 line else EmptyString in
  (String.length kept < 256)%nat /\ mem_char NL kept = false /\
  (kept = line \/ kept = EmptyString).
Proof.
  intros Hnl. cbv zeta.
  destruct (Nat.ltb_spec 0 (String.length line));
    destruct (Nat.ltb_spec (String.length line) 256); cbn [andb];
    try (cbn; repeat split; auto; lia).
  rewrite substring_0_all by lia. auto.
Qed.

Lemma process_chunk_leftover leftover buf s s' leftover' :
  process_chunk leftover buf s = Some (s', leftover') ->
  (String.length leftover' < 256)%nat /\ mem_char NL leftover' = false.
Proof.
  unfold process_chunk.
  pose proof (split_lines_rest_no_newline
                (substring 0 (4096 + 256 - 1) (leftover ++ cstr buf)%string)) as Hrest.
  destruct (split_lines _) as [lines line]. cbn [snd] in Hrest.
  destruct (process_lines lines s) as [s2|]; [|discriminate].
  intros H. injection H as _ <-.
  destruct (kept_fragment_bounded line Hrest) as (A & B & _). auto.
Qed.

(** X10: the reassembly buffer stays bounded.  Whatever the chunks, the
    fragment [leftover] kept after each of them is shorter than 256 bytes, the
    size of its array, and holds no newline. *)
Theorem leftover_stays_bounded
  (env : Env) (fd : Z) (chunks : list string) (leftover : string) (s s' : state)
  (leftover' : string) :
  (String.length leftover < 256)%nat ->
  mem_char NL leftover = false ->
  read_chunks env fd chunks leftover s = Some (s', leftover') ->
  (String.length leftover' < 256)%nat /\ mem_char NL leftover' = false.
Proof.
  revert leftover s. induction chunks as [|chunk chunks IH]; intros leftover s Hlen Hnl;
    cbn [read_chunks].
  - intros H. injection H as _ <-. auto.
  - destruct (read_as records_bytes _ env fd (4096 - 1) s) as [[n buf] s1].
    destruct (n >? 0); [|intros H; injection H as _ <-; auto].
    destruct (process_chunk leftover buf s1) as [[s2 l2]|] eqn:E; [|discriminate].
    destruct (process_chunk_leftover _ _ _ _ _ E) as [A B].
    apply IH; assumption.
Qed.

Lemma leftover_stays_bounded_witness :
  let chunks := [terminated "PEN_UP"; "PEN_MOVE 1"%string] in
  (String.length EmptyString < 256)%nat /\ mem_char NL EmptyString = false /\
  (exists s', read_chunks tablet 9 chunks EmptyString init_state
              = Some (s', "PEN_MOVE 1"%string)) /\
  (String.length "PEN_MOVE 1" < 256)%nat.
Proof.
  intros chunks.
  assert (String.length EmptyString < 256)%nat as H1 by (cbn; lia).
  assert (mem_char NL EmptyString = false) as H2 by reflexivity.
  destruct (read_chunks tablet 9 chunks EmptyString init_state) as [[s' l']|] eqn:E;
    [|vm_compute in E; discriminate].
  assert (l' = "PEN_MOVE 1"%string) as -> by (vm_compute in E; congruence).
  split; [exact H1|]. split; [exact H2|]. split; [eauto|].
  exact (proj1 (leftover_stays_bounded tablet 9 chunks EmptyString init_state _ _ H1 H2 E)).
Defined.

Lemma process_chunk_without_newline leftover buf s :
  mem_char NL leftover = false -> mem_char NL buf = false ->
  exists leftover',
    process_chunk leftover buf s = Some (s, leftover') /\
    mem_char NL leftover' = false.
Proof.
  intros Hl Hb. unfold process_chunk.
  assert (mem_char NL (substring 0 (4096 + 256 - 1) (leftover ++ cstr buf)%string) = false)
    as Hnl.
  { apply mem_char_substring. rewrite mem_char_app, Hl, mem_char_cstr by exact Hb.
    reflexivity. }
  rewrite (split_lines_fragment _ Hnl). cbn [process_lines].
  destruct (kept_fragment_bounded _ Hnl) as (_ & B & _). eauto.
Qed.

Lemma reader_reads_next fd k s :
  reader_reads fd k (emit (OriginalRead fd (4096 - 1)) s) = reader_reads fd (S k) s.
Proof.
  unfold reader_reads. cbn [queue q_head q_tail original_read wacom_fd trace emit].
  rewrite <- app_assoc. reflexivity.
Qed.

Lemma reader_reads_none fd s : reader_reads fd 0 s = s.
Proof. destruct s. unfold reader_reads. cbn. rewrite app_nil_r. reflexivity. Qed.

(** X11: nothing is executed before a newline arrives.  With the target
    resolved and the reader's descriptor another one, a session whose chunks
    hold no newline, however many and however long, changes nothing but the
    record of its own fetches, one call of the real [read] each: the
    unterminated text is buffered or dropped, and is forgotten when the
    transport is closed. *)
Theorem nothing_runs_before_newline
  (env : Env) (fd : Z) (chunks : list string) (s : state) :
  original_read s = true -> wacom_fd s <> -1 -> fd <> wacom_fd s ->
  forallb (fun buf => negb (mem_char NL buf)) chunks = true ->
  fifo_session env fd chunks s = Some (reader_reads fd (fetches chunks) s).
Proof.
  intros Ho Hw Hfd Hall. unfold fifo_session.
  assert (forall leftover t,
            original_read t = true -> wacom_fd t = wacom_fd s ->
            mem_char NL leftover = false ->
            exists l', read_chunks env fd chunks leftover t
                       = Some (reader_reads fd (fetches chunks) t, l')) as H.
  { induction chunks as [|chunk chunks IH]; intros leftover t Hot Hwt Hl;
      cbn [read_chunks fetches].
    - rewrite reader_reads_none. eauto.
    - cbn [forallb] in Hall. apply andb_true_iff in Hall as [Hb Hrest].
      apply negb_true_iff in Hb.
      rewrite (fetch_elsewhere _ _ env fd _ t) by (rewrite ?Hwt; assumption).
      cbn [fst snd]. destruct chunk as [|c chunk].
      + cbn [String.length Z.of_nat Z.gtb Z.compare]. rewrite <- reader_reads_next.
        rewrite reader_reads_none. eauto.
      + assert ((Z.of_nat (String.length (String c chunk)) >? 0) = true) as ->
          by (cbn [String.length]; apply Z.gtb_lt; lia).
        destruct (process_chunk_without_newline leftover (String c chunk)
                    (emit (OriginalRead fd (4096 - 1)) t) Hl Hb) as (l1 & -> & Hl1).
        destruct (IH Hrest l1 (emit (OriginalRead fd (4096 - 1)) t) Hot Hwt Hl1)
          as [l' ->].
        rewrite reader_reads_next. eauto. }
  destruct (H EmptyString s Ho eq_refl eq_refl) as [l' ->]. reflexivity.
Qed.

Lemma nothing_runs_before_newline_witness :
  let chunks := ["PEN_DOWN 10 20"; " PEN_UP"]%string in
  let s := set_wacom_fd 3 (set_original_read true init_state) in
  forallb (fun buf => negb (mem_char NL buf)) chunks = true /\
  exists s', fifo_session tablet 9 chunks s = Some s' /\
             trace s' = [OriginalRead 9 4095; OriginalRead 9 4095] /\
             q_tail s' = 0.
Proof.
  intros chunks s.
  assert (forallb (fun buf => negb (mem_char NL buf)) chunks = true) as H1
    by (vm_compute; reflexivity).
  split; [exact H1|].
  exists (reader_reads 9 (fetches chunks) s).
  split; [|split; reflexivity].
  apply (nothing_runs_before_newline tablet 9 chunks s); [reflexivity | | | exact H1];
    vm_compute; congruence.
Defined.

Lemma join_lines_clean c lines :
  forallb (fun l => negb (mem_char c l)) lines = true -> c <> NL ->
  mem_char c (join_lines lines) = false.
Proof.
  intros Hall Hc. induction lines as [|l lines IH]; cbn [join_lines]; [reflexivity|].
  cbn [forallb] in Hall. apply andb_true_iff in Hall as [Hl Hrest].
  apply negb_true_iff in Hl.
  rewrite mem_char_app, Hl. cbn [mem_char orb]. rewrite IH by exact Hrest.
  destruct (Ascii.eqb_spec NL c); [congruence | reflexivity].
Qed.

Lemma split_lines_join lines :
  forallb (fun l => negb (mem_char NL l)) lines = true ->
  split_lines (join_lines lines) = (lines, EmptyString).
Proof.
  induction lines as [|l lines IH]; cbn [join_lines forallb]; [reflexivity|].
  intros Hall. apply andb_true_iff in Hall as [Hl Hrest]. apply negb_true_iff in Hl.
  rewrite split_lines_line by exact Hl. rewrite IH by exact Hrest. reflexivity.
Qed.

(** X12: a chunk that holds several complete lines runs all of them, in
    order, and keeps nothing.  (Lines free of newline and NUL, the chunk
    within the 4351 bytes of [combined].) *)
Theorem chunk_of_lines_runs_in_order (lines : list string) (s : state) :
  forallb (fun l => negb (mem_char NL l)) lines = true ->
  forallb (fun l => negb (mem_char NUL l)) lines = true ->
  (String.length (join_lines lines) <= 4351)%nat ->
  process_chunk EmptyString (join_lines lines) s =
  match process_lines lines s with
  | None => None
  | Some s' => Some (s', EmptyString)
  end.
Proof.
  intros Hnl Hnul Hlen. unfold process_chunk. cbn [append].
  rewrite cstr_clean by (apply join_lines_clean; [exact Hnul | discriminate]).
  rewrite substring_0_all by (cbn; lia).
  rewrite split_lines_join by exact Hnl.
  destruct (process_lines lines s); reflexivity.
Qed.

Lemma chunk_of_lines_runs_in_order_witness :
  let lines := ["# a stroke"; "PEN_DOWN 10 20"; ""; "PEN_MOVE 30 40"; "PEN_UP"]%string in
  forallb (fun l => negb (mem_char NL l)) lines = true /\
  forallb (fun l => negb (mem_char NUL l)) lines = true /\
  (String.length (join_lines lines) <= 4351)%nat /\
  process_chunk EmptyString (join_lines lines) init_state =
    Some (pen_up (pen_move 30 40 (pen_down 10 20 init_state)), EmptyString).
Proof.
  intros lines.
  assert (forallb (fun l => negb (mem_char NL l)) lines = true) as H1
    by (vm_compute; reflexivity).
  assert (forallb (fun l => negb (mem_char NUL l)) lines = true) as H2
    by (vm_compute; reflexivity).
  assert (String.length (join_lines lines) <= 4351)%nat as H3 by (vm_compute; lia).
  split; [exact H1|]. split; [exact H2|]. split; [exact H3|].
  rewrite (chunk_of_lines_runs_in_order lines init_state H1 H2 H3).
  vm_compute. reflexivity.
Defined.

End InjectLines.

(** ** The command reader's footprint *)

Section InjectFootprint.

Import Inject.

Lemma channel_only_refl fd s : channel_only fd s s.
Proof.
  split; [reflexivity|]. split; [reflexivity|].
  exists []. rewrite app_nil_r. auto.
Qed.

Lemma channel_only_trans fd a b c :
  channel_only fd a b -> channel_only fd b c -> channel_only fd a c.
Proof.
  intros (A1 & A2 & t & A3 & A4) (B1 & B2 & u & B3 & B4).
  split; [congruence|]. split; [congruence|].
  exists (t ++ u). rewrite B3, A3, <- app_assoc, forallb_app, A4, B4. auto.
Qed.

Lemma channel_only_emit fd e s : channel_effect fd e = true -> channel_only fd s (emit e s).
Proof.
  intros He. split; [reflexivity|]. split; [reflexivity|].
  exists [e]. cbn. rewrite He. auto.
Qed.

Lemma channel_only_enqueue fd ev s : channel_only fd s (enqueue ev s).
Proof.
  unfold enqueue.
  destruct (negb (int_rem (int_add (q_tail s) 1) MAX_QUEUE =? q_head s)).
  - split; [reflexivity|]. split; [reflexivity|].
    exists []. cbn. rewrite app_nil_r. auto.
  - apply channel_only_emit. reflexivity.
Qed.

Lemma channel_only_delay fd x s : channel_only fd s (delay x s).
Proof.
  unfold delay.
  destruct ((x >? 0) && (x <=? 1000))%bool eqn:E; [|apply channel_only_refl].
  apply andb_true_iff in E as [Hpos Hle].
  apply Z.gtb_lt in Hpos. apply Z.leb_le in Hle.
  apply channel_only_emit. unfold channel_effect, int_mul.
  rewrite wrap_small by (unfold INT_MIN, INT_MAX; lia).
  apply andb_true_iff. split; [apply Z.ltb_lt | apply Z.leb_le]; lia.
Qed.

Lemma channel_only_chunk fd leftover buf s s' leftover' :
  process_chunk leftover buf s = Some (s', leftover') -> channel_only fd s s'.
Proof.
  apply (lift_process_chunk (channel_only fd)).
  - apply channel_only_refl.
  - apply channel_only_trans.
  - apply channel_only_enqueue.
  - intros f args t. apply channel_only_emit. reflexivity.
  - apply channel_only_delay.
Qed.

Lemma dequeue_original_read s : original_read (snd (dequeue s)) = original_read s.
Proof. unfold dequeue. destruct (q_head s =? q_tail s); reflexivity. Qed.

Lemma drain_original_read n : forall s, original_read (snd (drain n s)) = original_read s.
Proof.
  induction n as [|n IH]; intros s; simpl; [reflexivity|].
  pose proof (dequeue_original_read s) as Hd.
  destruct (dequeue s) as [[ev|] s']; simpl in *; [|exact Hd].
  specialize (IH s'). destruct (drain n s') as [evs s'']. simpl in *. congruence.
Qed.

(** The reader's fetch, once the hook is set up: at most the real [read] of
    its own descriptor. *)
Lemma channel_only_fetch {B} (pack : list input_event -> B) real env fd s :
  original_read s = true -> wacom_fd s <> -1 ->
  channel_only fd s (snd (read_as pack real env fd (4096 - 1) s)).
Proof.
  intros Ho Hw.
  assert (detect_wacom env fd (resolve_original_read s) = s) as Hpre.
  { unfold resolve_original_read, detect_wacom. rewrite Ho.
    apply Z.eqb_neq in Hw. rewrite Hw. reflexivity. }
  pose proof (read_as_state pack real env fd (4096 - 1) s) as Hs.
  cbv zeta in Hs. rewrite Hpre in Hs.
  set (d := snd (drain (Z.to_nat (wrap ((4096 - 1) / sizeof_input_event))) s)) in *.
  assert (channel_only fd s d) as Hd.
  { split; [apply drain_wacom_fd|]. split; [apply drain_original_read|].
    exists []. rewrite app_nil_r. split; [apply drain_trace | reflexivity]. }
  assert (channel_effect fd (OriginalRead fd (4096 - 1)) = true) as He
    by (cbn; rewrite Z.eqb_refl; reflexivity).
  destruct Hs as [-> | [-> | ->]].
  - exact Hd.
  - exact (channel_only_trans _ _ _ _ Hd (channel_only_emit fd _ d He)).
  - exact (channel_only_emit fd _ s He).
Qed.

(** X13: the command reader touches nothing but the queue.  Once the hook
    is set up ([original_read] resolved and a target claimed, as they are
    when the reader is started), whatever text a session of [fifo_reader] is
    fed (short of overrunning [cmd]), it leaves [wacom_fd] and
    [original_read] as they were, and its only effects are messages on the
    error stream, sleeps of more than 0 and at most 1000000 microseconds,
    and the real [read] of its own descriptor for 4095 bytes, which its
    fetches reach through the hook: it reads no other descriptor, resolves
    nothing and starts no thread. *)
Theorem command_reader_footprint
  (env : Env) (fd : Z) (chunks : list string) (s s' : state) :
  original_read s = true -> wacom_fd s <> -1 ->
  fifo_session env fd chunks s = Some s' -> channel_only fd s s'.
Proof.
  intros Ho Hw. unfold fifo_session.
  assert (forall leftover t t' l',
            original_read t = true -> wacom_fd t <> -1 ->
            read_chunks env fd chunks leftover t = Some (t', l') ->
            channel_only fd t t') as H.
  { induction chunks as [|chunk chunks IH]; intros leftover t t' l' Hot Hwt;
      cbn [read_chunks].
    - intros E. injection E as <- _. apply channel_only_refl.
    - pose proof (channel_only_fetch records_bytes
                    (Z.of_nat (String.length chunk), chunk) env fd t Hot Hwt) as Hfetch.
      destruct (read_as records_bytes _ env fd (4096 - 1) t) as [[n buf] t1].
      cbn [snd] in Hfetch.
      destruct (n >? 0); [|intros E; injection E as <- _; exact Hfetch].
      destruct (process_chunk leftover buf t1) as [[t2 l2]|] eqn:E; [|discriminate].
      intros Hrest.
      pose proof (channel_only_chunk fd _ _ _ _ _ E) as Hchunk.
      pose proof (channel_only_trans _ _ _ _ Hfetch Hchunk) as H12.
      apply (channel_only_trans _ _ t2 _ H12).
      destruct H12 as (Hw2 & Ho2 & _).
      apply (IH l2 t2 t' l'); [congruence | congruence | exact Hrest]. }
  destruct (read_chunks env fd chunks EmptyString s) as [[s1 l1]|] eqn:E; [|discriminate].
  intros E'. injection E' as <-. exact (H _ _ _ _ Ho Hw E).
Qed.

Lemma command_reader_footprint_witness :
  let chunks := [terminated "DELAY 5"; terminated "DELAY 2000"; terminated "PEN_UP"] in
  let s := set_wacom_fd 3 (set_original_read true init_state) in
  exists s', fifo_session tablet 9 chunks s = Some s' /\
             trace s' = [OriginalRead 9 4095; Usleep 5000;
                         OriginalRead 9 4095; OriginalRead 9 4095] /\
             channel_only 9 s s'.
Proof.
  intros chunks s.
  destruct (fifo_session tablet 9 chunks s) as [s'|] eqn:E.
  - exists s'. split; [reflexivity|].
    split; [|apply (command_reader_footprint tablet 9 chunks s s');
             [reflexivity | vm_compute; congruence | exact E]].
    vm_compute in E. injection E as <-. reflexivity.
  - vm_compute in E. discriminate.
Defined.

Lemma read_keeps_ok env fd count s : queue_ok s -> queue_ok (snd (read env fd count s)).
Proof.
  intros Hok. unfold read.
  destruct (prelude_spec env fd s) as (Hq & Hh & Ht & _).
  set (s1 := detect_wacom env fd (resolve_original_read s)) in *.
  assert (queue_ok s1) as Hok1 by (unfold queue_ok; rewrite Hq, Hh, Ht; exact Hok).
  assert (forall t, queue_ok t -> queue_ok (snd (call_original_read env fd count t))) as Hreal.
  { intros t Ht'. destruct (call_original_read_spec env fd count t) as (_ & _ & ->).
    exact Ht'. }
  destruct ((fd =? wacom_fd s1) && has_events s1)%bool; [|apply Hreal, Hok1].
  pose proof (drain_ok (Z.to_nat (wrap (count / sizeof_input_event))) s1 Hok1) as Hd.
  destruct (drain (Z.to_nat (wrap (count / sizeof_input_event))) s1) as [events s2].
  cbn [snd] in Hd. destruct (Z.of_nat (length events) >? 0); [exact Hd|].
  apply Hreal, Hd.
Qed.

Lemma empty_stored s : queue_ok s -> has_events s = false -> stored s = [].
Proof.
  intros Hok He. unfold has_events in He. apply negb_false_iff, Z.eqb_eq in He.
  unfold stored. rewrite <- He. apply stored_nil. unfold MAX_QUEUE. lia.
Qed.

Lemma stored_empty_no_events s : queue_ok s -> stored s = [] -> has_events s = false.
Proof.
  intros Hok Hst. destruct (has_events s) eqn:E; [|reflexivity].
  exfalso. exact (has_events_stored s Hok E Hst).
Qed.

Lemma pen_down_burst_target x y s :
  exists s0,
    pen_down x y s = enqueue_all (pen_down_events (to_wacom_x x y) (to_wacom_y x y)) s0 /\
    stored s0 = stored s /\ (queue_ok s -> queue_ok s0) /\ wacom_fd s0 = wacom_fd s.
Proof.
  unfold pen_down.
  set (wx := to_wacom_x x y). set (wy := to_wacom_y x y).
  destruct ((wx <? 0) || (wx >? WACOM_MAX_X) || (wy <? 0) || (wy >? WACOM_MAX_Y))%bool.
  - eexists. unfold pen_down_events. cbn [enqueue_all].
    split; [reflexivity|]. split; [reflexivity|]. split; [auto | reflexivity].
  - exists s. unfold pen_down_events. cbn [enqueue_all].
    split; [reflexivity|]. auto.
Qed.

Lemma burst_is_read_back env fd count evs s0 :
  queue_ok s0 -> stored s0 = [] -> wacom_fd s0 = fd ->
  evs <> [] -> (length evs <= 6)%nat ->
  Z.of_nat (length evs) * sizeof_input_event <= count <= SIZE_MAX ->
  let '(ret, buf, s') := read env fd count (enqueue_all evs s0) in
  ret = Z.of_nat (length evs) * sizeof_input_event /\ buf = evs /\ has_events s' = false.
Proof.
  intros Hok Hst Hfd Hne Hlen Hcount.
  destruct (enqueue_all_room evs s0 Hok) as (A & _ & C).
  { rewrite Hst. cbn [length]. unfold MAX_QUEUE. lia. }
  rewrite Hst in A. cbn [app] in A.
  pose proof (enqueue_all_ok evs s0 Hok) as Hok1.
  assert (has_events (enqueue_all evs s0) = true) as He.
  { destruct (has_events (enqueue_all evs s0)) eqn:E; [reflexivity|].
    rewrite (empty_stored _ Hok1 E) in A. congruence. }
  assert (1 <= Z.of_nat (length evs)) as Hpos by (destruct evs; [congruence | cbn; lia]).
  pose proof (read_injects env fd count (enqueue_all evs s0) Hok1 (eq_trans C Hfd) He) as Hr.
  pose proof (read_keeps_ok env fd count (enqueue_all evs s0) Hok1) as Hok2.
  destruct (read env fd count (enqueue_all evs s0)) as [[ret buf] s'].
  cbn [snd] in Hok2.
  destruct Hr as [(Hk & Hbuf & Hrest & Hret) _];
    [unfold sizeof_input_event in *; lia|].
  rewrite A in *.
  assert (Z.of_nat (length evs) <= count / sizeof_input_event)
    by (apply Z.div_le_lower_bound; unfold sizeof_input_event in *; lia).
  replace (Nat.min (Z.to_nat (count / sizeof_input_event)) (length evs))
    with (length evs) in * by lia.
  rewrite firstn_all in Hbuf. rewrite skipn_all in Hrest.
  split; [exact Hret|]. split; [exact Hbuf|].
  apply stored_empty_no_events; assumption.
Qed.

(** X14: what is written is what is read.  On an empty queue, with the
    target resolved, a gesture followed by a [read] of the target that asks
    for at least as many records as the gesture has hands back exactly the
    gesture's records, in order, [sizeof(struct input_event)] bytes each, and
    leaves the queue empty again. *)
Theorem gesture_is_read_back (env : Env) (fd count x y : Z) (s : state) :
  queue_ok s -> has_events s = false -> wacom_fd s = fd ->
  6 * sizeof_input_event <= count <= SIZE_MAX ->
  let wx := to_wacom_x x y in
  let wy := to_wacom_y x y in
  (let '(ret, buf, s') := read env fd count (pen_down x y s) in
   ret = 6 * sizeof_input_event /\ buf = pen_down_events wx wy /\ has_events s' = false) /\
  (let '(ret, buf, s') := read env fd count (pen_move x y s) in
   ret = 4 * sizeof_input_event /\ buf = pen_move_events wx wy /\ has_events s' = false) /\
  (let '(ret, buf, s') := read env fd count (pen_up s) in
   ret = 3 * sizeof_input_event /\ buf = pen_up_events /\ has_events s' = false).
Proof.
  intros Hok He Hfd Hcount wx wy.
  pose proof (empty_stored s Hok He) as Hst.
  split; [|split].
  - destruct (pen_down_burst_target x y s) as (s0 & -> & Hst0 & Hok0 & Hfd0).
    fold wx wy. rewrite Hfd in Hfd0. rewrite <- Hst0 in Hst.
    pose proof (burst_is_read_back env fd count (pen_down_events wx wy) s0
                  (Hok0 Hok) Hst Hfd0) as H.
    change (Z.of_nat (length (pen_down_events wx wy))) with 6 in H.
    apply H; [discriminate | cbn; lia | exact Hcount].
  - rewrite pen_move_as_burst. fold wx wy.
    pose proof (burst_is_read_back env fd count (pen_move_events wx wy) s Hok Hst Hfd) as H.
    change (Z.of_nat (length (pen_move_events wx wy))) with 4 in H.
    apply H; [discriminate | cbn; lia | unfold sizeof_input_event in *; lia].
  - rewrite pen_up_as_burst.
    pose proof (burst_is_read_back env fd count pen_up_events s Hok Hst Hfd) as H.
    change (Z.of_nat (length pen_up_events)) with 3 in H.
    apply H; [discriminate | cbn; lia | unfold sizeof_input_event in *; lia].
Qed.

Lemma gesture_is_read_back_witness :
  let s := State (replicate (Z.to_nat MAX_QUEUE) zero_event) 7 7 true 3 [] in
  queue_ok s /\ has_events s = false /\
  fst (read tablet 3 4096 (pen_up s)) = (48, pen_up_events).
Proof.
  intros s.
  assert (queue_ok s) as H1 by (repeat split; vm_compute; congruence).
  assert (has_events s = false) as H2 by reflexivity.
  assert (6 * sizeof_input_event <= 4096 <= SIZE_MAX) as H3 by (vm_compute; split; congruence).
  split; [exact H1|]. split; [exact H2|].
  destruct (gesture_is_read_back tablet 3 4096 0 0 s H1 H2 eq_refl H3) as (_ & _ & Hup).
  destruct (read tablet 3 4096 (pen_up s)) as [[ret buf] s'].
  destruct Hup as (-> & -> & _). reflexivity.
Defined.

End InjectFootprint.

(** ** The v4 hook: coordinates, clock and tracking *)

Section HookFacts.

Import InjectHook.

Lemma hook_display_to_wacom_x_exact x :
  0 <= x <= RM2_WIDTH -> display_to_wacom_x x = x * 20967 / 1404.
Proof.
  intros Hx. unfold display_to_wacom_x, RM2_WIDTH, WACOM_MAX_Y in *.
  rewrite scale_exact by (unfold INT_MAX; lia).
  apply wrap_small. unfold INT_MIN, INT_MAX.
  pose proof (Z.div_pos (x * 20967) 1404 ltac:(lia) ltac:(lia)).
  assert (x * 20967 / 1404 <= 20967) by (apply Z.div_le_upper_bound; lia). lia.
Qed.

Lemma hook_display_to_wacom_y_exact y :
  0 <= y <= RM2_HEIGHT -> display_to_wacom_y y = y * 15725 / 1872.
Proof.
  intros Hy. unfold display_to_wacom_y, RM2_HEIGHT, WACOM_MAX_X in *.
  rewrite scale_exact by (unfold INT_MAX; lia).
  apply wrap_small. unfold INT_MIN, INT_MAX.
  pose proof (Z.div_pos (y * 15725) 1872 ltac:(lia) ltac:(lia)).
  assert (y * 15725 / 1872 <= 15725) by (apply Z.div_le_upper_bound; lia). lia.
Qed.

(** X15: the v4 transform keeps display points on the digitizer and keeps
    their order.  For a point of the 1404 x 1872 display no product
    overflows, [display_to_wacom_x] lies in [0, WACOM_MAX_Y] and
    [display_to_wacom_y] in [0, WACOM_MAX_X], the far corner is mapped onto
    the maxima, and a point further right or further down is mapped no
    lower. *)
Theorem hook_display_points_stay_on_digitizer (x y : Z) :
  0 <= x <= RM2_WIDTH -> 0 <= y <= RM2_HEIGHT ->
  0 <= display_to_wacom_x x <= WACOM_MAX_Y /\
  0 <= display_to_wacom_y y <= WACOM_MAX_X /\
  display_to_wacom_x RM2_WIDTH = WACOM_MAX_Y /\
  display_to_wacom_y RM2_HEIGHT = WACOM_MAX_X /\
  (forall x', x <= x' <= RM2_WIDTH -> display_to_wacom_x x <= display_to_wacom_x x') /\
  (forall y', y <= y' <= RM2_HEIGHT -> display_to_wacom_y y <= display_to_wacom_y y').
Proof.
  intros Hx Hy.
  rewrite hook_display_to_wacom_x_exact, hook_display_to_wacom_y_exact by assumption.
  unfold RM2_WIDTH, RM2_HEIGHT, WACOM_MAX_X, WACOM_MAX_Y in *.
  pose proof (Z.div_pos (x * 20967) 1404 ltac:(lia) ltac:(lia)).
  assert (x * 20967 / 1404 <= 20967) by (apply Z.div_le_upper_bound; lia).
  pose proof (Z.div_pos (y * 15725) 1872 ltac:(lia) ltac:(lia)).
  assert (y * 15725 / 1872 <= 15725) by (apply Z.div_le_upper_bound; lia).
  split; [lia|]. split; [lia|].
  split; [reflexivity|]. split; [reflexivity|]. split.
  - intros x' Hx'. rewrite hook_display_to_wacom_x_exact by (unfold RM2_WIDTH; lia).
    apply Z.div_le_mono; lia.
  - intros y' Hy'. rewrite hook_display_to_wacom_y_exact by (unfold RM2_HEIGHT; lia).
    apply Z.div_le_mono; lia.
Qed.

Lemma hook_display_points_stay_on_digitizer_witness :
  0 <= 702 <= RM2_WIDTH /\ 0 <= 936 <= RM2_HEIGHT /\
  display_to_wacom_x 702 = 10483 /\ display_to_wacom_y 936 = 7862 /\
  0 <= display_to_wacom_x 702 <= WACOM_MAX_Y.
Proof.
  assert (0 <= 702 <= RM2_WIDTH) as H1 by (vm_compute; split; congruence).
  assert (0 <= 936 <= RM2_HEIGHT) as H2 by (vm_compute; split; congruence).
  split; [exact H1|]. split; [exact H2|].
  split; [reflexivity|]. split; [reflexivity|].
  exact (proj1 (hook_display_points_stay_on_digitizer 702 936 H1 H2)).
Defined.

(** X16: [timediff_ms] is the elapsed time to within one millisecond.  For
    two readings of the clock with nanoseconds in [0, 10^9) and seconds no
    more than 2147482 apart (no product overflows), the result times 10^6
    differs from the elapsed nanoseconds by less than 10^6; the division
    truncating toward zero, it may round up as well as down.  So the test
    against [SUPPRESSION_MS] holds the window for at least 150 ms and for
    less than 151 ms. *)
Theorem timediff_ms_within_one_ms (start end_ : timespec) :
  0 <= tv_nsec start < 1000000000 ->
  0 <= tv_nsec end_ < 1000000000 ->
  -2147482 <= tv_sec end_ - tv_sec start <= 2147482 ->
  let elapsed_ns :=
    (tv_sec end_ - tv_sec start) * 1000000000 + (tv_nsec end_ - tv_nsec start) in
  let ms := timediff_ms start end_ in
  1000000 * ms - 1000000 < elapsed_ns < 1000000 * ms + 1000000 /\
  (elapsed_ns <= SUPPRESSION_MS * 1000000 -> ms <= SUPPRESSION_MS) /\
  ((SUPPRESSION_MS + 1) * 1000000 <= elapsed_ns -> SUPPRESSION_MS < ms).
Proof.
  intros Hs He Hd. cbv zeta.
  unfold timediff_ms, int_add, int_mul, int_sub, int_div, SUPPRESSION_MS.
  remember (tv_sec end_ - tv_sec start) as ds eqn:Eds.
  remember (tv_nsec end_ - tv_nsec start) as dn eqn:Edn.
  assert (-1000000000 < dn < 1000000000) as Hdn by lia.
  pose proof (Z.quot_rem' dn 1000000) as Hqr.
  pose proof (Z.rem_bound_abs dn 1000000 ltac:(lia)) as Hr.
  assert (-999 <= dn ÷ 1000000 <= 999) as Hq.
  { destruct (Z.le_gt_cases 0 dn).
    - pose proof (Z.rem_bound_pos_pos dn 1000000 ltac:(lia) ltac:(lia)). lia.
    - pose proof (Z.rem_bound_pos_neg dn 1000000 ltac:(lia) ltac:(lia)). lia. }
  rewrite (wrap_small ds) by (unfold INT_MIN, INT_MAX; lia).
  rewrite (wrap_small dn) by (unfold INT_MIN, INT_MAX; lia).
  rewrite (wrap_small (ds * 1000)) by (unfold INT_MIN, INT_MAX; lia).
  rewrite (wrap_small (dn ÷ 1000000)) by (unfold INT_MIN, INT_MAX; lia).
  rewrite (wrap_small (ds * 1000 + dn ÷ 1000000)) by (unfold INT_MIN, INT_MAX; lia).
  lia.
Qed.

Lemma timediff_ms_within_one_ms_witness :
  let start := Timespec 100 900000000 in
  let end_ := Timespec 101 50000001 in
  (tv_sec end_ - tv_sec start) * 1000000000 + (tv_nsec end_ - tv_nsec start) = 150000001 /\
  timediff_ms start end_ = 151 /\
  1000000 * timediff_ms start end_ - 1000000 < 150000001.
Proof.
  intros start end_.
  assert (0 <= tv_nsec start < 1000000000) as H1 by (vm_compute; split; congruence).
  assert (0 <= tv_nsec end_ < 1000000000) as H2 by (vm_compute; split; congruence).
  assert (-2147482 <= tv_sec end_ - tv_sec start <= 2147482) as H3
    by (vm_compute; split; congruence).
  split; [reflexivity|]. split; [reflexivity|].
  exact (proj1 (proj1 (timediff_ms_within_one_ms start end_ H1 H2 H3))).
Defined.

Lemma last_cons {A} (l : list A) : forall a d, List.last (a :: l) d = List.last l a.
Proof.
  induction l as [|b l IH]; intros a d; [reflexivity|].
  change (List.last (a :: b :: l) d) with (List.last (b :: l) d).
  rewrite !IH. reflexivity.
Qed.

Lemma track_event_sample s ev :
  let s' := track_event s ev in
  last_pen_x s' = List.last (abs_values ABS_X [ev]) (last_pen_x s) /\
  last_pen_y s' = List.last (abs_values ABS_Y [ev]) (last_pen_y s) /\
  wacom_fd s' = wacom_fd s /\ original_read s' = original_read s.
Proof.
  unfold track_event, abs_values. cbn [List.filter].
  destruct (type ev =? EV_ABS); cbn [andb]; [|cbn; auto].
  destruct (Z.eqb_spec (code ev) ABS_X) as [Hx|Hx].
  - rewrite Hx. cbn. auto.
  - destruct (Z.eqb_spec (code ev) ABS_Y); cbn; auto.
Qed.

Lemma abs_values_cons c ev l : abs_values c (ev :: l) = abs_values c [ev] ++ abs_values c l.
Proof.
  unfold abs_values. cbn [List.filter].
  destruct ((type ev =? EV_ABS) && (code ev =? c))%bool; reflexivity.
Qed.

Lemma last_single_app (single rest : list Z) d :
  (length single <= 1)%nat ->
  List.last (single ++ rest) d = List.last rest (List.last single d).
Proof.
  destruct single as [|a [|b single]]; cbn [length]; intros H; [reflexivity | | lia].
  cbn [app]. rewrite last_cons. reflexivity.
Qed.

Lemma abs_values_single c ev : (length (abs_values c [ev]) <= 1)%nat.
Proof.
  unfold abs_values. cbn [List.filter].
  destruct ((type ev =? EV_ABS) && (code ev =? c))%bool; cbn; lia.
Qed.

(** X17: stylus tracking keeps the last sample of each axis.  After
    [track_stylus_position] over the first [count] records of a buffer,
    [last_pen_x] is the value of the last [EV_ABS]/[ABS_X] record among them
    and [last_pen_y] that of the last [EV_ABS]/[ABS_Y] record, each left as
    it was when there is none; the queue, the suppression state, the target
    and the effects are not touched. *)
Theorem track_keeps_last_sample (events : list input_event) (count : Z) (s : state) :
  let s' := track_stylus_position events count s in
  let seen := take (Z.to_nat count) events in
  last_pen_x s' = List.last (abs_values ABS_X seen) (last_pen_x s) /\
  last_pen_y s' = List.last (abs_values ABS_Y seen) (last_pen_y s) /\
  same_queue s s' /\ suppress_input s' = suppress_input s /\
  last_injection_time s' = last_injection_time s /\
  wacom_fd s' = wacom_fd s /\ trace s' = trace s.
Proof.
  cbv zeta.
  destruct (track_stylus_position_frame events count s) as (Q1 & Q2 & Q3 & Q4 & Q5 & Q6).
  unfold same_queue.
  assert (forall l t,
            last_pen_x (fold_left track_event l t) = List.last (abs_values ABS_X l) (last_pen_x t) /\
            last_pen_y (fold_left track_event l t) = List.last (abs_values ABS_Y l) (last_pen_y t) /\
            wacom_fd (fold_left track_event l t) = wacom_fd t) as H.
  { induction l as [|ev l IH]; intros t; cbn [fold_left]; [auto|].
    destruct (IH (track_event t ev)) as (-> & -> & ->).
    destruct (track_event_sample t ev) as (-> & -> & -> & _).
    rewrite !(abs_values_cons _ ev l).
    rewrite !last_single_app by apply abs_values_single. auto. }
  destruct (H (take (Z.to_nat count) events) s) as (Hx & Hy & Hw).
  unfold track_stylus_position in *. auto 10.
Qed.

(** X18: reads of other handles go through the v4 hook untouched.  Once the
    target is resolved, a [read] of any other handle returns what the real
    [read] returns, whatever the clock and the suppression state: nothing is
    dequeued, nothing is suppressed, and the tracked position is not
    updated. *)
Theorem hook_read_is_transparent_elsewhere
  (env : Env) (now : timespec) (fd count : Z) (s : state) :
  wacom_fd s <> -1 -> fd <> wacom_fd s ->
  let '(ret, buf, s') := read env now fd count s in
  (ret, buf) = real_read env fd count /\
  same_queue s s' /\ suppress_input s' = suppress_input s /\
  last_injection_time s' = last_injection_time s /\
  last_pen_x s' = last_pen_x s /\ last_pen_y s' = last_pen_y s /\
  wacom_fd s' = wacom_fd s /\
  trace s' = trace (resolve_original_read s) ++ [OriginalRead fd count].
Proof.
  intros Hres Hne. unfold read.
  assert (wacom_fd (resolve_original_read s) = wacom_fd s) as Hw
    by (unfold resolve_original_read; destruct (original_read s); reflexivity).
  assert (detect_wacom env fd (resolve_original_read s) = resolve_original_read s) as ->.
  { unfold detect_wacom. rewrite Hw. apply Z.eqb_neq in Hres. rewrite Hres. reflexivity. }
  rewrite Hw. apply Z.eqb_neq in Hne. rewrite Hne. cbn [andb].
  unfold genuine_read. destruct (real_read env fd count) as [result data].
  cbn [wacom_fd emit]. rewrite Hw, Hne. cbn [andb].
  unfold same_queue, resolve_original_read.
  destruct (original_read s); cbn; auto 10.
Qed.

Lemma hook_read_is_transparent_elsewhere_witness :
  let s := set_suppress_input 1 (set_wacom_fd 3 init_state) in
  wacom_fd s <> -1 /\ 5 <> wacom_fd s /\
  fst (read pen_tablet (Timespec 0 0) 5 64 s) = (32, stylus_sample) /\
  last_pen_x (snd (read pen_tablet (Timespec 0 0) 5 64 s)) = 0.
Proof.
  intros s.
  assert (wacom_fd s <> -1) as H1 by (vm_compute; congruence).
  assert (5 <> wacom_fd s) as H2 by (vm_compute; congruence).
  split; [exact H1|]. split; [exact H2|].
  pose proof (hook_read_is_transparent_elsewhere pen_tablet (Timespec 0 0) 5 64 s H1 H2) as H.
  destruct (read pen_tablet (Timespec 0 0) 5 64 s) as [[ret buf] s'].
  destruct H as (E & _ & _ & _ & Hx & _). cbn [fst snd]. split; [exact E | exact Hx].
Defined.

End HookFacts.

(** ** The v4 hook: one command per chunk *)

Section HookCommands.

Import InjectHook.

Lemma hook_pen_down_as_burst now x y s :
  pen_down now x y s =
  set_suppress_input 1
    (set_last_injection_time now
       (queue_events (pen_down_events (display_to_wacom_x x) (display_to_wacom_y y)) s)).
Proof. unfold pen_down, pen_down_events. cbn [queue_events]. reflexivity. Qed.

Lemma hook_pen_move_as_burst x y s :
  pen_move x y s =
  queue_events (pen_move_events (display_to_wacom_x x) (display_to_wacom_y y)) s.
Proof. unfold pen_move, pen_move_events. cbn [queue_events]. reflexivity. Qed.

Lemma hook_pen_up_as_burst now s :
  pen_up now s = set_last_injection_time now (queue_events pen_up_events s).
Proof. unfold pen_up, pen_up_events. cbn [queue_events]. reflexivity. Qed.

Lemma stamp_queue now v t :
  let t' := set_suppress_input v (set_last_injection_time now t) in
  (hook_queue_ok t -> hook_queue_ok t') /\ hook_stored t' = hook_stored t /\
  (hook_queue_ok t -> hook_queue_ok (set_last_injection_time now t)) /\
  hook_stored (set_last_injection_time now t) = hook_stored t /\
  (hook_queue_ok t -> hook_queue_ok (get_cursor t)) /\
  hook_stored (get_cursor t) = hook_stored t.
Proof. destruct t. cbv zeta. unfold hook_queue_ok, hook_stored. cbn. auto 10. Qed.

Lemma queue_events_appends evs s :
  hook_queue_ok s ->
  hook_queue_ok (queue_events evs s) /\
  exists new, hook_stored (queue_events evs s) = hook_stored s ++ new /\
              (length new <= length evs)%nat.
Proof.
  intros Hok. split; [apply queue_events_ok, Hok|].
  rewrite queue_events_stored by exact Hok.
  eexists. split; [reflexivity|]. rewrite length_take. lia.
Qed.

(** X19: a chunk runs at most one command in the v4 hook.  Its reader makes
    a single [sscanf] over the whole chunk, so whatever the chunk holds, and
    however many lines, the queue grows by at most the six records of one
    [PEN_DOWN] (and stays well formed); commands after the first one of a
    chunk are lost. *)
Theorem hook_chunk_runs_one_command
  (now : timespec) (x0 y0 : Z) (buf : string) (s s' : state) :
  hook_queue_ok s ->
  process_buf now x0 y0 buf s = Some s' ->
  hook_queue_ok s' /\
  exists new, hook_stored s' = hook_stored s ++ new /\ (length new <= 6)%nat.
Proof.
  intros Hok. unfold process_buf.
  assert (hook_queue_ok s /\
          exists new, hook_stored s = hook_stored s ++ new /\ (length new <= 6)%nat) as Hsame.
  { split; [exact Hok|]. exists []. rewrite app_nil_r. cbn. split; [reflexivity | lia]. }
  destruct (sscanf_s_d_d 32 (cstr buf) EmptyString x0 y0) as [sc|]; [|discriminate].
  destruct (matched sc >=? 1); [|intros H; injection H as <-; exact Hsame].
  destruct (String.eqb (cmd_out sc) "PEN_DOWN").
  { intros H. injection H as <-. rewrite hook_pen_down_as_burst.
    destruct (queue_events_appends
                (pen_down_events (display_to_wacom_x (x_out sc)) (display_to_wacom_y (y_out sc)))
                s Hok) as (A & new & B & C).
    destruct (stamp_queue now 1
                (queue_events
                   (pen_down_events (display_to_wacom_x (x_out sc))
                      (display_to_wacom_y (y_out sc))) s)) as (K1 & K2 & _).
    split; [exact (K1 A)|]. exists new. rewrite K2. split; [exact B | exact C]. }
  destruct (String.eqb (cmd_out sc) "PEN_MOVE").
  { intros H. injection H as <-. rewrite hook_pen_move_as_burst.
    destruct (queue_events_appends
                (pen_move_events (display_to_wacom_x (x_out sc)) (display_to_wacom_y (y_out sc)))
                s Hok) as (A & new & B & C).
    split; [exact A|]. exists new. split; [exact B|].
    change (length (pen_move_events (display_to_wacom_x (x_out sc))
                      (display_to_wacom_y (y_out sc)))) with 4%nat in C. lia. }
  destruct (String.eqb (cmd_out sc) "PEN_UP").
  { intros H. injection H as <-. rewrite hook_pen_up_as_burst.
    destruct (queue_events_appends pen_up_events s Hok) as (A & new & B & C).
    destruct (stamp_queue now 0 (queue_events pen_up_events s)) as (_ & _ & K1 & K2 & _).
    split; [exact (K1 A)|]. exists new. rewrite K2. split; [exact B|].
    change (length pen_up_events) with 3%nat in C. lia. }
  destruct (String.eqb (cmd_out sc) "GET_CURSOR"); intros H; injection H as <-;
    [|exact Hsame].
  destruct (stamp_queue now 0 s) as (_ & _ & _ & _ & K1 & K2).
  split; [exact (K1 Hok)|]. exists []. rewrite K2, app_nil_r. cbn. split; [reflexivity | lia].
Qed.

Lemma hook_chunk_runs_one_command_witness :
  let now := Timespec 100 0 in
  let buf := "PEN_DOWN 10 20
PEN_MOVE 30 40
PEN_UP
"%string in
  hook_queue_ok init_state /\
  process_buf now 0 0 buf init_state = Some (pen_down now 10 20 init_state) /\
  hook_queue_ok (pen_down now 10 20 init_state).
Proof.
  intros now buf.
  assert (hook_queue_ok init_state) as H1 by (repeat split; vm_compute; congruence).
  assert (process_buf now 0 0 buf init_state = Some (pen_down now 10 20 init_state)) as H2
    by (vm_compute; reflexivity).
  split; [exact H1|]. split; [exact H2|].
  exact (proj1 (hook_chunk_runs_one_command now 0 0 buf init_state _ H1 H2)).
Defined.

Lemma dequeue_event_ok s : hook_queue_ok s -> hook_queue_ok (snd (dequeue_event s)).
Proof.
  intros Hok. destruct (hook_stored s) as [|ev rest] eqn:Hst.
  - rewrite dequeue_event_empty by assumption. exact Hok.
  - destruct (dequeue_event_some s ev rest Hst Hok) as (-> & _ & Hok'). exact Hok'.
Qed.

Lemma hook_drain_ok n : forall s, hook_queue_ok s -> hook_queue_ok (snd (drain n s)).
Proof.
  induction n as [|n IH]; intros s Hok; cbn [drain]; [exact Hok|].
  pose proof (dequeue_event_ok s Hok) as Hd.
  destruct (dequeue_event s) as [[ev|] s1]; cbn [snd] in *; [|exact Hd].
  specialize (IH s1 Hd). destruct (drain n s1). exact IH.
Qed.

Lemma genuine_read_queue env now fd count s :
  same_queue s (snd (genuine_read env now fd count s)).
Proof.
  unfold genuine_read. destruct (real_read env fd count) as [result data].
  assert (forall t, same_queue s t ->
            same_queue s (track_stylus_position data (wrap (result / sizeof_input_event)) t))
    as Htrack.
  { intros t (A & B & C).
    destruct (track_stylus_position_frame data (wrap (result / sizeof_input_event)) t)
      as (E1 & E2 & E3 & _).
    unfold same_queue. rewrite E1, E2, E3. auto. }
  assert (same_queue s (emit (OriginalRead fd count) s)) as H0
    by (unfold same_queue; cbn; auto).
  destruct ((fd =? wacom_fd (emit (OriginalRead fd count) s)) && (result >? 0))%bool;
    [|exact H0].
  destruct (negb (suppress_input (emit (OriginalRead fd count) s) =? 0));
    [|cbn [snd]; apply Htrack, H0].
  destruct (timediff_ms (last_injection_time (emit (OriginalRead fd count) s)) now
            >? SUPPRESSION_MS); [|exact H0].
  cbn [snd]. apply Htrack. unfold same_queue. cbn. auto.
Qed.

(** X20: every [read] through the v4 hook keeps the queue well formed (its
    array of [MAX_QUEUE_SIZE] slots, head and tail inside it), and once the
    queue has nothing to hand out a [read] leaves it exactly as it was. *)
Theorem hook_read_keeps_queue
  (env : Env) (now : timespec) (fd count : Z) (s : state) :
  hook_queue_ok s ->
  hook_queue_ok (snd (read env now fd count s)) /\
  (queue_has_events s = false -> same_queue s (snd (read env now fd count s))).
Proof.
  intros Hok.
  destruct (hook_prelude_spec env fd s) as (Hq & Hh & Ht & _).
  unfold read. set (s1 := detect_wacom env fd (resolve_original_read s)) in *.
  assert (same_queue s s1) as Hs1 by (unfold same_queue; auto).
  assert (forall a b, same_queue a b -> hook_queue_ok a -> hook_queue_ok b) as Hcarry.
  { intros a b (A & B & C). unfold hook_queue_ok. rewrite A, B, C. auto. }
  assert (forall a b c, same_queue a b -> same_queue b c -> same_queue a c) as Htrans.
  { intros a b c (A1 & A2 & A3) (B1 & B2 & B3). unfold same_queue.
    rewrite B1, B2, B3. auto. }
  assert (hook_queue_ok s1) as Hok1 by exact (Hcarry _ _ Hs1 Hok).
  split.
  - destruct ((fd =? wacom_fd s1) && queue_has_events s1)%bool;
      [|exact (Hcarry _ _ (genuine_read_queue env now fd count s1) Hok1)].
    pose proof (hook_drain_ok (Z.to_nat (wrap (count / sizeof_input_event))) s1 Hok1) as Hd.
    destruct (drain (Z.to_nat (wrap (count / sizeof_input_event))) s1) as [events s2].
    cbn [snd] in Hd. destruct (Z.of_nat (length events) >? 0); [exact Hd|].
    exact (Hcarry _ _ (genuine_read_queue env now fd count s2) Hd).
  - intros He.
    assert (queue_has_events s1 = false) as He1
      by (unfold queue_has_events; rewrite Hh, Ht; exact He).
    rewrite He1, andb_false_r.
    exact (Htrans _ _ _ Hs1 (genuine_read_queue env now fd count s1)).
Qed.

Lemma hook_read_keeps_queue_witness :
  let s := set_wacom_fd 3 init_state in
  hook_queue_ok s /\ queue_has_events s = false /\
  same_queue s (snd (read pen_tablet (Timespec 5 0) 3 64 s)) /\
  last_pen_x (snd (read pen_tablet (Timespec 5 0) 3 64 s)) = 5000.
Proof.
  intros s.
  assert (hook_queue_ok s) as H1 by (repeat split; vm_compute; congruence).
  assert (queue_has_events s = false) as H2 by reflexivity.
  split; [exact H1|]. split; [exact H2|].
  split; [exact (proj2 (hook_read_keeps_queue pen_tablet (Timespec 5 0) 3 64 s H1) H2)|].
  vm_compute. reflexivity.
Defined.

End HookCommands.

(** ** Well-formed lines *)

Section WellFormedLines.

Import Inject.

Lemma span_all p tok : forall rest,
  all_chars p tok = true -> field_end p rest = true ->
  span p (tok ++ rest) = (tok, rest).
Proof.
  induction tok as [|c tok IH]; intros rest Hall Hend; cbn [append span].
  - destruct rest as [|d rest]; [reflexivity|].
    cbn [field_end] in Hend. apply negb_true_iff in Hend.
    cbn [span]. rewrite Hend. reflexivity.
  - cbn [all_chars] in Hall. apply andb_true_iff in Hall as [Hc Hrest].
    rewrite Hc, IH by assumption. reflexivity.
Qed.

Lemma digit_is_plain c :
  isdigit c = true ->
  isspace c = false /\
  forall r : string,
    match String c r with
    | String "-" r0 => (true, r0)
    | String "+" r0 => (false, r0)
    | _ => (false, String c r)
    end = (false, String c r).
Proof.
  destruct c as [b0 b1 b2 b3 b4 b5 b6 b7].
  destruct b0, b1, b2, b3, b4, b5, b6, b7; intros H; vm_compute in H;
    try discriminate H; split; reflexivity.
Qed.

Lemma scan_int_field dx rest :
  all_chars isdigit dx = true -> dx <> EmptyString -> field_end isdigit rest = true ->
  scan_int (String " " (dx ++ rest)) = Some (number dx, rest).
Proof.
  intros Hall Hne Hend. destruct dx as [|c dx]; [congruence|].
  pose proof Hall as Hall'. cbn [all_chars] in Hall'.
  apply andb_true_iff in Hall' as [Hc _].
  destruct (digit_is_plain c Hc) as [Hsp Hsign].
  unfold scan_int.
  assert (skip_space (String " " (String c dx ++ rest)) = String c (dx ++ rest)) as ->.
  { cbn [skip_space append]. change (isspace " ") with true. cbv iota.
    cbn [skip_space]. rewrite Hsp. reflexivity. }
  rewrite Hsign.
  change (String c (dx ++ rest)) with (String c dx ++ rest)%string.
  rewrite span_all by assumption. reflexivity.
Qed.

Lemma sscanf_well_formed kw dx dy cmd0 x0 y0 :
  all_chars (fun c => negb (isspace c)) kw = true -> kw <> EmptyString ->
  (String.length kw < 32)%nat ->
  all_chars isdigit dx = true -> dx <> EmptyString ->
  all_chars isdigit dy = true -> dy <> EmptyString ->
  sscanf_s_d_d 32 (command_line kw dx dy) cmd0 x0 y0 =
  Some (Scanned 3 kw (number dx) (number dy)).
Proof.
  intros Hkw Hne Hlen Hdx Hnx Hdy Hny. unfold sscanf_s_d_d, command_line.
  destruct kw as [|k kw]; [congruence|].
  pose proof Hkw as Hk. cbn [all_chars] in Hk. apply andb_true_iff in Hk as [Hk _].
  apply negb_true_iff in Hk.
  assert (skip_space (String k kw ++ String " " (dx ++ String " " dy))
          = (String k kw ++ String " " (dx ++ String " " dy))%string) as ->
    by (cbn [append skip_space]; rewrite Hk; reflexivity).
  change ((String k kw ++ String " " (dx ++ String " " dy))%string)
    with (String k (kw ++ String " " (dx ++ String " " dy))) at 1.
  cbv iota.
  rewrite span_all by (assumption || reflexivity).
  destruct (Nat.leb_spec 32 (String.length (String k kw))) as [Hbad|_]; [lia|].
  rewrite scan_int_field by (assumption || reflexivity).
  rewrite <- (append_nil_r dy) at 1.
  rewrite scan_int_field by (assumption || reflexivity).
  reflexivity.
Qed.

(** X21: a well-formed line runs its command with the numbers it carries.
    For a line made of a keyword of the protocol, a space, a field of
    decimal digits, a space and a second field of decimal digits,
    [sscanf] converts all three, and the reader runs the keyword's command
    on the two numbers ([x] alone for [DELAY], none for [PEN_UP]), each
    saturated to [int]. *)
Theorem well_formed_line_runs_its_command (dx dy : string) (s : state) :
  all_chars isdigit dx = true -> dx <> EmptyString ->
  all_chars isdigit dy = true -> dy <> EmptyString ->
  let x := number dx in
  let y := number dy in
  process_line (command_line "PEN_DOWN" dx dy) s = Some (pen_down x y s) /\
  process_line (command_line "PEN_MOVE" dx dy) s = Some (pen_move x y s) /\
  process_line (command_line "PEN_UP" dx dy) s = Some (pen_up s) /\
  process_line (command_line "DELAY" dx dy) s = Some (delay x s).
Proof.
  intros Hdx Hnx Hdy Hny x y.
  assert (forall kw,
            all_chars (fun c => negb (isspace c)) kw = true -> kw <> EmptyString ->
            (String.length kw < 32)%nat ->
            run_command (command_line kw dx dy) s =
            if String.eqb kw "PEN_DOWN" then Some (pen_down x y s)
            else if String.eqb kw "PEN_MOVE" then Some (pen_move x y s)
            else if String.eqb kw "PEN_UP" then Some (pen_up s)
            else if String.eqb kw "DELAY" then Some (delay x s)
            else Some s) as Hrun.
  { intros kw H1 H2 H3. unfold run_command.
    rewrite (sscanf_well_formed kw dx dy EmptyString 0 0) by assumption.
    reflexivity. }
  repeat split.
  - exact (Hrun "PEN_DOWN"%string eq_refl ltac:(discriminate) ltac:(cbn; lia)).
  - exact (Hrun "PEN_MOVE"%string eq_refl ltac:(discriminate) ltac:(cbn; lia)).
  - exact (Hrun "PEN_UP"%string eq_refl ltac:(discriminate) ltac:(cbn; lia)).
  - exact (Hrun "DELAY"%string eq_refl ltac:(discriminate) ltac:(cbn; lia)).
Qed.

Lemma well_formed_line_runs_its_command_witness :
  all_chars isdigit "702" = true /\ all_chars isdigit "0936" = true /\
  number "702" = 702 /\ number "0936" = 936 /\ number "99999999999" = INT_MAX /\
  process_line "PEN_DOWN 702 0936" init_state = Some (pen_down 702 936 init_state).
Proof.
  assert (all_chars isdigit "702" = true) as H1 by reflexivity.
  assert (all_chars isdigit "0936" = true) as H2 by reflexivity.
  split; [exact H1|]. split; [exact H2|].
  split; [reflexivity|]. split; [reflexivity|]. split; [reflexivity|].
  exact (proj1 (well_formed_line_runs_its_command "702" "0936" init_state
                  H1 ltac:(discriminate) H2 ltac:(discriminate))).
Defined.

End WellFormedLines.
